(** * Ecosystem simulation: grid, scheduler, animals and plants

    A shallow embedding of the simulation engine of the repository
    (world.py, time_1.py, meta.py, animals.py, plants.py) and the proofs of
    its specification's claims.

    Python objects live in a store indexed by object identity; the grid and
    the live list hold identities, so aliasing is explicit.  Group lists are
    list objects of their own, shared by reference between animals.  Calls to
    the [random] module read an oracle that is part of the state.  Logging is
    left out: it has no effect on the state. *)

From Stdlib Require Import ZArith QArith List Bool Lia.
From stdpp Require Import base gmap list strings.

Local Open Scope Z_scope.

(** ** Outcomes and the state-and-exception monad *)

(** The exceptions the modelled code can raise.  [NoSuchObject] is not a
    Python exception: it is the outcome of the model when an identity that
    was never allocated is dereferenced. *)
Inductive PyExn := IndexError | TypeError | AttributeError | ValueError | NoSuchObject.

Inductive Outcome (S A : Type) :=
| Done (a : A) (s : S)
| Raised (e : PyExn) (s : S).
Arguments Done {S A}.
Arguments Raised {S A}.

Section Monad.
Context {S : Type}.

Definition M (A : Type) := S -> Outcome S A.

Definition ret {A} (a : A) : M A := fun s => Done a s.

Definition bind {A B} (c : M A) (k : A -> M B) : M B :=
  fun s => match c s with
           | Done a s' => k a s'
           | Raised e s' => Raised e s'
           end.

Definition raise {A} (e : PyExn) : M A := fun s => Raised e s.

Definition gets {A} (f : S -> A) : M A := fun s => Done (f s) s.

Definition modify (f : S -> S) : M unit := fun s => Done tt (f s).

(** [for x in l: body x], for a body without [break]. *)
Fixpoint for_each {A} (l : list A) (body : A -> M unit) : M unit :=
  match l with
  | [] => ret tt
  | x :: rest => bind (body x) (fun _ => for_each rest body)
  end.

End Monad.

Notation "x <- c ;; k" := (bind c (fun x => k))
  (at level 100, c at next level, right associativity).
Notation "c ;;; k" := (bind c (fun _ => k))
  (at level 100, right associativity).

(** ** Python lists *)

(** [l[i]] for a list of length [n]: a negative index counts from the end,
    anything outside [-n, n) is an IndexError (here [None]). *)
Definition py_index (n : nat) (i : Z) : option nat :=
  if (0 <=? i) && (i <? Z.of_nat n) then Some (Z.to_nat i)
  else if (- Z.of_nat n <=? i) && (i <? 0) then Some (Z.to_nat (Z.of_nat n + i))
  else None.

Definition py_get {A} (l : list A) (i : Z) : option A :=
  match py_index (length l) i with
  | Some k => l !! k
  | None => None
  end.

Definition py_set {A} (l : list A) (i : Z) (v : A) : option (list A) :=
  match py_index (length l) i with
  | Some k => Some (<[k := v]> l)
  | None => None
  end.

(** [range(a, b)]. *)
Definition range (a b : Z) : list Z :=
  map (fun k => a + Z.of_nat k) (seq 0 (Z.to_nat (b - a))).

(** [x in l] on identities. *)
Definition py_in (x : nat) (l : list nat) : bool := existsb (Nat.eqb x) l.

(** [l.remove(x)]: drops the first occurrence. *)
Fixpoint py_remove (x : nat) (l : list nat) : list nat :=
  match l with
  | [] => []
  | y :: rest => if Nat.eqb x y then rest else y :: py_remove x rest
  end.

(** Comparison of a draw with a probability. *)
Definition Qltb (a b : Q) : bool :=
  Qnum a * Zpos (Qden b) <? Qnum b * Zpos (Qden a).

(** ** Data model *)

Definition oid := nat.   (* identity of an entity object *)
Definition gid := nat.   (* identity of a group list object *)

(** The classes that get instantiated.  [PlantBase] is the class [Plant]
    itself, which the injected [spread] instantiates. *)
Inductive AnimalClass := Malheureux | Pauvre.
Inductive PlantClass := Lumiere | Obscurite | Demi | PlantBase.
Inductive Class := AnimalC (c : AnimalClass) | PlantC (c : PlantClass).

Definition AnimalClass_eqb (a b : AnimalClass) : bool :=
  match a, b with
  | Malheureux, Malheureux | Pauvre, Pauvre => true
  | _, _ => false
  end.

Definition PlantClass_eqb (a b : PlantClass) : bool :=
  match a, b with
  | Lumiere, Lumiere | Obscurite, Obscurite | Demi, Demi | PlantBase, PlantBase => true
  | _, _ => false
  end.

(** [isinstance(obj, cls)] for an object of class [c]: the class itself or
    one of its bases ([Plant] is the base of the three plant species). *)
Definition isinstance (c cls : Class) : bool :=
  match c, cls with
  | AnimalC a, AnimalC b => AnimalClass_eqb a b
  | PlantC a, PlantC b => PlantClass_eqb a b || PlantClass_eqb b PlantBase
  | _, _ => false
  end.

Definition class_name (c : Class) : string :=
  match c with
  | AnimalC Malheureux => "Malheureux" | AnimalC Pauvre => "Pauvre"
  | PlantC Lumiere => "Lumiere" | PlantC Obscurite => "Obscurite"
  | PlantC Demi => "Demi" | PlantC PlantBase => "Plant"
  end.

(** An animal object.  [has_is_predatory] and [has_is_aggressive] are the
    presence of the attributes [_is_predatory] and [_is_aggressive];
    [inst_try_merge_groups] and [inst_eat] say that the instance carries its
    own [try_merge_groups] / [eat], put there by the self-modification. *)
Record Animal := mkAnimal {
  a_cls : AnimalClass;
  a_position : Z * Z;
  speed : Z;
  food : Z;
  is_active : bool;
  is_hungry : bool;
  group : gid;
  has_is_predatory : bool;
  inst_try_merge_groups : bool;
  has_is_aggressive : bool;
  inst_eat : bool
}.

Record Plant := mkPlant {
  p_cls : PlantClass;
  p_position : Z * Z;
  growth_time : list string;
  competitors : list Class;
  failed_growth_ticks : Z;
  p_has_is_aggressive : bool;
  inst_try_spread : bool
}.

Inductive Entity :=
| EAnimal (a : Animal)
| EPlant (p : Plant).

Definition position (e : Entity) : Z * Z :=
  match e with EAnimal a => a_position a | EPlant p => p_position p end.

Definition class_of (e : Entity) : Class :=
  match e with EAnimal a => AnimalC (a_cls a) | EPlant p => PlantC (p_cls p) end.

Definition set_a_position (v : Z * Z) (a : Animal) : Animal :=
  mkAnimal (a_cls a) v (speed a) (food a) (is_active a) (is_hungry a) (group a)
           (has_is_predatory a) (inst_try_merge_groups a) (has_is_aggressive a) (inst_eat a).
Definition set_speed (v : Z) (a : Animal) : Animal :=
  mkAnimal (a_cls a) (a_position a) v (food a) (is_active a) (is_hungry a) (group a)
           (has_is_predatory a) (inst_try_merge_groups a) (has_is_aggressive a) (inst_eat a).
Definition set_food (v : Z) (a : Animal) : Animal :=
  mkAnimal (a_cls a) (a_position a) (speed a) v (is_active a) (is_hungry a) (group a)
           (has_is_predatory a) (inst_try_merge_groups a) (has_is_aggressive a) (inst_eat a).
Definition set_is_active (v : bool) (a : Animal) : Animal :=
  mkAnimal (a_cls a) (a_position a) (speed a) (food a) v (is_hungry a) (group a)
           (has_is_predatory a) (inst_try_merge_groups a) (has_is_aggressive a) (inst_eat a).
Definition set_is_hungry (v : bool) (a : Animal) : Animal :=
  mkAnimal (a_cls a) (a_position a) (speed a) (food a) (is_active a) v (group a)
           (has_is_predatory a) (inst_try_merge_groups a) (has_is_aggressive a) (inst_eat a).
Definition set_group (v : gid) (a : Animal) : Animal :=
  mkAnimal (a_cls a) (a_position a) (speed a) (food a) (is_active a) (is_hungry a) v
           (has_is_predatory a) (inst_try_merge_groups a) (has_is_aggressive a) (inst_eat a).
Definition set_predatory (a : Animal) : Animal :=
  mkAnimal (a_cls a) (a_position a) (speed a) (food a) (is_active a) (is_hungry a) (group a)
           true true (has_is_aggressive a) (inst_eat a).
Definition set_aggressive (a : Animal) : Animal :=
  mkAnimal (a_cls a) (a_position a) (speed a) (food a) (is_active a) (is_hungry a) (group a)
           (has_is_predatory a) (inst_try_merge_groups a) true true.

Definition set_p_position (v : Z * Z) (p : Plant) : Plant :=
  mkPlant (p_cls p) v (growth_time p) (competitors p) (failed_growth_ticks p)
          (p_has_is_aggressive p) (inst_try_spread p).
Definition set_failed_growth_ticks (v : Z) (p : Plant) : Plant :=
  mkPlant (p_cls p) (p_position p) (growth_time p) (competitors p) v
          (p_has_is_aggressive p) (inst_try_spread p).
Definition set_p_aggressive (p : Plant) : Plant :=
  mkPlant (p_cls p) (p_position p) (growth_time p) (competitors p) (failed_growth_ticks p)
          true true.

Definition set_position (v : Z * Z) (e : Entity) : Entity :=
  match e with
  | EAnimal a => EAnimal (set_a_position v a)
  | EPlant p => EPlant (set_p_position v p)
  end.

(** The oracle behind the [random] module: the values the next calls
    return, floats for [random.random()] and integers for [randint] and
    [choice]; an exhausted list yields 0 from then on. *)
Record Rng := mkRng { floats : list Q; ints : list Z }.

(** time_1.py: [cycle] is set once and never changed. *)
Definition cycle : list string := ["morning"; "day"; "evening"; "night"].

Record Time := mkTime { current_time : string; tick_counter : Z }.

(** The World object together with the object store. *)
Record St := mkSt {
  width : Z;
  height : Z;
  max_ticks : Z;
  matrix : list (list (option oid));
  entities : list oid;
  time : Time;
  heap : gmap oid Entity;
  glists : gmap gid (list oid);
  rng : Rng
}.

Definition set_matrix (v : list (list (option oid))) (s : St) : St :=
  mkSt (width s) (height s) (max_ticks s) v (entities s) (time s) (heap s) (glists s) (rng s).
Definition set_entities (v : list oid) (s : St) : St :=
  mkSt (width s) (height s) (max_ticks s) (matrix s) v (time s) (heap s) (glists s) (rng s).
Definition set_time (v : Time) (s : St) : St :=
  mkSt (width s) (height s) (max_ticks s) (matrix s) (entities s) v (heap s) (glists s) (rng s).
Definition set_heap (v : gmap oid Entity) (s : St) : St :=
  mkSt (width s) (height s) (max_ticks s) (matrix s) (entities s) (time s) v (glists s) (rng s).
Definition set_glists (v : gmap gid (list oid)) (s : St) : St :=
  mkSt (width s) (height s) (max_ticks s) (matrix s) (entities s) (time s) (heap s) v (rng s).
Definition set_rng (v : Rng) (s : St) : St :=
  mkSt (width s) (height s) (max_ticks s) (matrix s) (entities s) (time s) (heap s) (glists s) v.

(** Computations of the modelled program. *)
Abbreviation Py := (@M St).

(** ** The random module *)

(** [random.random()]. *)
Definition random : Py Q := fun s =>
  match floats (rng s) with
  | [] => Done 0%Q s
  | q :: rest => Done q (set_rng (mkRng rest (ints (rng s))) s)
  end.

Definition next_int : Py Z := fun s =>
  match ints (rng s) with
  | [] => Done 0 s
  | z :: rest => Done z (set_rng (mkRng (floats (rng s)) rest) s)
  end.

(** [random.randint(a, b)]: an integer of [a, b], ends included. *)
Definition randint (a b : Z) : Py Z :=
  if b <? a then raise ValueError
  else z <- next_int ;; ret (a + z mod (b - a + 1)).

(** [random.choice(seq)]. *)
Definition choice {A} (l : list A) : Py A :=
  match l with
  | [] => raise IndexError
  | x :: _ =>
      z <- next_int ;;
      ret (nth (Z.to_nat (z mod Z.of_nat (length l))) l x)
  end.

(** ** The object store *)

Definition load (i : oid) : Py Entity := fun s =>
  match heap s !! i with
  | Some e => Done e s
  | None => Raised NoSuchObject s
  end.

(** Reading an attribute that only animals have. *)
Definition load_animal (i : oid) : Py Animal :=
  e <- load i ;;
  match e with
  | EAnimal a => ret a
  | EPlant _ => raise AttributeError
  end.

Definition load_plant (i : oid) : Py Plant :=
  e <- load i ;;
  match e with
  | EPlant p => ret p
  | EAnimal _ => raise AttributeError
  end.

Definition store (i : oid) (e : Entity) : Py unit :=
  modify (fun s => set_heap (<[i := e]> (heap s)) s).

Definition update_animal (i : oid) (f : Animal -> Animal) : Py unit :=
  a <- load_animal i ;; store i (EAnimal (f a)).

Definition update_plant (i : oid) (f : Plant -> Plant) : Py unit :=
  p <- load_plant i ;; store i (EPlant (f p)).

(** An assignment to an attribute that every entity has. *)
Definition update_entity (i : oid) (f : Entity -> Entity) : Py unit :=
  e <- load i ;; store i (f e).

(** The contents of a list object. *)
Definition read_list (g : gid) : Py (list oid) := fun s =>
  match glists s !! g with
  | Some l => Done l s
  | None => Raised NoSuchObject s
  end.

Definition write_list (g : gid) (l : list oid) : Py unit :=
  modify (fun s => set_glists (<[g := l]> (glists s)) s).

(** ** time_1.py *)

(** [Time.change_time]. *)
Definition change_time (t : Time) : Time :=
  let tc := tick_counter t + 1 in
  mkTime (nth (Z.to_nat (tc mod Z.of_nat (length cycle))) cycle "morning") tc.

(** [Time.get_time]. *)
Definition get_time (t : Time) : string := current_time t.

(** ** world.py *)

(** [self.matrix[x][y]]. *)
Definition matrix_read (x y : Z) : Py (option oid) := fun s =>
  match py_get (matrix s) x with
  | Some row =>
      match py_get row y with
      | Some cell => Done cell s
      | None => Raised IndexError s
      end
  | None => Raised IndexError s
  end.

(** [self.matrix[x][y] = v]. *)
Definition matrix_write (x y : Z) (v : option oid) : Py unit := fun s =>
  match py_get (matrix s) x with
  | Some row =>
      match py_set row y v with
      | Some row' =>
          match py_set (matrix s) x row' with
          | Some m' => Done tt (set_matrix m' s)
          | None => Raised IndexError s
          end
      | None => Raised IndexError s
      end
  | None => Raised IndexError s
  end.

(** [World.is_valid_position]. *)
Definition is_valid_position (s : St) (x y : Z) : bool :=
  (0 <=? x) && (x <? height s) && (0 <=? y) && (y <? width s).

(** The pairs [(dx, dy)] of two nested loops over [range(-radius, radius+1)],
    in the order the loops visit them. *)
Definition offsets (radius : Z) : list (Z * Z) :=
  flat_map (fun dx => map (fun dy => (dx, dy)) (range (- radius) (radius + 1)))
           (range (- radius) (radius + 1)).

Fixpoint nearby_loop (x y : Z) (offs : list (Z * Z)) (nearby : list oid) : Py (list oid) :=
  match offs with
  | [] => ret nearby
  | (dx, dy) :: rest =>
      inb <- gets (fun s => (0 <=? x + dx) && (x + dx <? height s)
                            && (0 <=? y + dy) && (y + dy <? width s)) ;;
      if inb then
        obj <- matrix_read (x + dx) (y + dy) ;;
        match obj with
        | Some o =>
            if negb (dx =? 0) || negb (dy =? 0)
            then nearby_loop x y rest (nearby ++ [o])
            else nearby_loop x y rest nearby
        | None => nearby_loop x y rest nearby
        end
      else nearby_loop x y rest nearby
  end.

(** [World.get_nearby_objects]. *)
Definition get_nearby_objects (position : Z * Z) (radius : Z) : Py (list oid) :=
  let '(x, y) := position in
  nearby_loop x y (offsets radius) [].

(** [World.add_entity]. *)
Definition add_entity (new_entity : oid) : Py unit :=
  e <- load new_entity ;;
  matrix_write (fst (position e)) (snd (position e)) (Some new_entity) ;;;
  modify (fun s => set_entities (entities s ++ [new_entity]) s).

(** [World.delete_unit]. *)
Definition delete_unit (entity : oid) : Py unit :=
  live <- gets (fun s => py_in entity (entities s)) ;;
  if live then
    e <- load entity ;;
    matrix_write (fst (position e)) (snd (position e)) None ;;;
    modify (fun s => set_entities (py_remove entity (entities s)) s)
  else ret tt.

(** The body of the loop of [World.remove_group]. *)
Definition remove_group_body (animal : oid) : Py unit :=
  live <- gets (fun s => py_in animal (entities s)) ;;
  if live then
    modify (fun s => set_entities (py_remove animal (entities s)) s) ;;;
    e <- load animal ;;
    matrix_write (fst (position e)) (snd (position e)) None
  else ret tt.

(** [World.remove_group]: [group] is the list object; nothing changes it
    while the loop runs. *)
Definition remove_group (group : gid) : Py unit :=
  members <- read_list group ;;
  for_each members remove_group_body.

(** [World.move_entity]. *)
Definition move_entity (entity : oid) (new_pos : Z * Z) : Py bool :=
  e <- load entity ;;
  let '(old_x, old_y) := position e in
  let '(new_x, new_y) := new_pos in
  valid <- gets (fun s => is_valid_position s new_x new_y) ;;
  if valid then
    cell <- matrix_read new_x new_y ;;
    match cell with
    | None =>
        matrix_write old_x old_y None ;;;
        update_entity entity (set_position (new_x, new_y)) ;;;
        matrix_write new_x new_y (Some entity) ;;;
        ret true
    | Some _ => ret false
    end
  else ret false.

(** [World.relocate_unit]: [move_entity] and a log line. *)
Definition relocate_unit (obj : oid) (new_pos : Z * Z) : Py bool :=
  move_entity obj new_pos.

Definition moore_offsets : list (Z * Z) :=
  flat_map (fun dx => map (fun dy => (dx, dy)) [-1; 0; 1]) [-1; 0; 1].

Fixpoint free_cells_loop (x y : Z) (offs : list (Z * Z)) (cells : list (Z * Z))
  : Py (list (Z * Z)) :=
  match offs with
  | [] => ret cells
  | (dx, dy) :: rest =>
      if (dx =? 0) && (dy =? 0) then free_cells_loop x y rest cells
      else
        valid <- gets (fun s => is_valid_position s (x + dx) (y + dy)) ;;
        if valid then
          cell <- matrix_read (x + dx) (y + dy) ;;
          match cell with
          | None => free_cells_loop x y rest (cells ++ [(x + dx, y + dy)])
          | Some _ => free_cells_loop x y rest cells
          end
        else free_cells_loop x y rest cells
  end.

(** [World.get_free_adjacent_cells]. *)
Definition get_free_adjacent_cells (position : Z * Z) : Py (list (Z * Z)) :=
  let '(x, y) := position in
  free_cells_loop x y moore_offsets [].

(** ** meta.py: the behaviour the metaclasses install *)

(** One entry of a class's [eat_behavior] table. *)
Record EatRule := mkEatRule {
  radius : Z;
  target_classes : list Class;
  probability : Q;
  hungry_multiplier : Q;
  food_values : gmap string Z
}.

(** The [eat_behavior] tables of animals.py.  [target_classes] is what the
    constructors write into the table once every class is registered, which
    is the case as soon as world.py has been imported. *)
Definition Malheureux_targets : list Class :=
  [PlantC Demi; PlantC Obscurite; AnimalC Pauvre].
Definition Malheureux_food_values : gmap string Z :=
  list_to_map [("Demi", 30); ("Obscurite", 40); ("Pauvre", 60)].
Definition Pauvre_targets : list Class := [PlantC Lumiere].
Definition Pauvre_food_values : gmap string Z := list_to_map [("Lumiere", 30)].

Definition eat_behavior (cls : AnimalClass) : gmap string EatRule :=
  match cls with
  | Malheureux =>
      list_to_map
        [("morning", mkEatRule 2 Malheureux_targets (25 # 100) (2 # 1) Malheureux_food_values);
         ("evening", mkEatRule 2 Malheureux_targets (25 # 100) (15 # 10) Malheureux_food_values);
         ("default", mkEatRule 2 Malheureux_targets (1 # 10) (1 # 1) Malheureux_food_values)]
  | Pauvre =>
      list_to_map
        [("morning", mkEatRule 2 Pauvre_targets (33 # 100) (2 # 1) Pauvre_food_values);
         ("evening", mkEatRule 2 Pauvre_targets (11 # 100) (1 # 1) Pauvre_food_values);
         ("default", mkEatRule 2 Pauvre_targets (16 # 100) (1 # 1) Pauvre_food_values)]
  end.

Definition active_times (cls : AnimalClass) : list string :=
  match cls with
  | Malheureux => ["morning"; "evening"]
  | Pauvre => ["morning"; "day"; "evening"]
  end.

Definition str_in (x : string) (l : list string) : bool := existsb (String.eqb x) l.

(** The rule [eat] works with: the entry of the phase, or the entry
    ["default"] when there is none; [None] stands for the empty dict. *)
Definition eat_rule (cls : AnimalClass) (day_time : string) : option EatRule :=
  match eat_behavior cls !! day_time with
  | Some b => Some b
  | None => eat_behavior cls !! "default"
  end.

Definition rule_radius (b : option EatRule) : Z :=
  match b with Some r => radius r | None => 2 end.
Definition rule_targets (b : option EatRule) : list Class :=
  match b with Some r => target_classes r | None => [] end.
Definition rule_probability (b : option EatRule) : Q :=
  match b with Some r => probability r | None => (25 # 100)%Q end.
Definition rule_multiplier (b : option EatRule) : Q :=
  match b with Some r => hungry_multiplier r | None => (2 # 1)%Q end.
Definition rule_food_value (b : option EatRule) (name : string) : Z :=
  match b with
  | Some r => match food_values r !! name with Some v => v | None => 30 end
  | None => 30
  end.

(** [eat_chance] as [eat] computes it. *)
Definition eat_chance (b : option EatRule) (hungry : bool) : Q :=
  if hungry then (rule_probability b * rule_multiplier b)%Q else rule_probability b.

(** The loop of the injected [eat]; [return True] leaves it. *)
Fixpoint eat_loop (self : oid) (b : option EatRule) (targets : list oid) : Py bool :=
  match targets with
  | [] => ret false
  | target :: rest =>
      t <- load target ;;
      if existsb (isinstance (class_of t)) (rule_targets b) then
        a <- load_animal self ;;
        draw <- random ;;
        if Qltb draw (eat_chance b (is_hungry a)) then
          delete_unit target ;;;
          update_animal self (fun a' => set_food (food a' + rule_food_value b (class_name (class_of t))) a') ;;;
          ret true
        else eat_loop self b rest
      else eat_loop self b rest
  end.

(** The [eat] that [_inject_eat_method] installs on a class with an
    [eat_behavior] table ([None] and [False] are both [false] here). *)
Definition eat (cls : AnimalClass) (self : oid) (day_time : string) : Py bool :=
  a <- load_animal self ;;
  if negb (is_active a) then ret false
  else
    let behavior := eat_rule cls day_time in
    targets <- get_nearby_objects (a_position a) (rule_radius behavior) ;;
    eat_loop self behavior targets.

(** [while True: dx = randint(-1, 1); dy = randint(-1, 1); if dx != 0 or
    dy != 0: break], run on the oracle's integers: the pair it leaves with
    and the integers that remain.  Past the end of the list every draw is 0,
    that is, -1 for [randint(-1, 1)]. *)
Fixpoint delta_loop (l : list Z) : (Z * Z) * list Z :=
  match l with
  | a :: b :: rest =>
      let dx := -1 + a mod 3 in
      let dy := -1 + b mod 3 in
      if negb (dx =? 0) || negb (dy =? 0) then ((dx, dy), rest) else delta_loop rest
  | [a] => ((-1 + a mod 3, -1), [])
  | [] => ((-1, -1), [])
  end.

Definition move_delta : Py (Z * Z) := fun s =>
  let '(d, rest) := delta_loop (ints (rng s)) in
  Done d (set_rng (mkRng (floats (rng s)) rest) s).

(** [Animal.decrease_food]. *)
Definition decrease_food (self : oid) : Py unit :=
  update_animal self (fun a => set_food (Z.max 0 (food a - 1)) a).

(** The [move] that [_inject_move_method] installs on [Animal]. *)
Definition move (self : oid) : Py bool :=
  a <- load_animal self ;;
  if negb (is_active a) then ret false
  else
    r <- randint 1 100 ;;
    if speed a <? r then ret false
    else
      d <- move_delta ;;
      let new_x := fst (a_position a) + fst d in
      let new_y := snd (a_position a) + snd d in
      valid <- gets (fun s => is_valid_position s new_x new_y) ;;
      if valid then
        ok <- relocate_unit self (new_x, new_y) ;;
        if ok then decrease_food self ;;; ret true else ret false
      else ret false.

(** The [change_active_status] installed on a class with [active_times]. *)
Definition change_active_status (cls : AnimalClass) (self : oid) (day_time : string) : Py unit :=
  a <- load_animal self ;;
  let times := match active_times cls with
               | [] => ["morning"; "day"; "evening"]
               | ts => ts
               end in
  let new_status := str_in day_time times in
  if negb (Bool.eqb new_status (is_active a))
  then update_animal self (set_is_active new_status)
  else ret tt.

(** [Animal.reproduce]: [_inject_reproduce_method] installs its own only on
    a class that has no [reproduce]; [Animal] declares one (abstract, body
    [pass]), so that one is what runs. *)
Definition reproduce (self : oid) : Py unit := ret tt.

(** ** Bound methods *)

(** [f.__get__(obj)] is a bound method: calling it with [nargs] arguments
    calls [f] with [obj] put in front, [S nargs] arguments in all, and a
    function that declares [params] parameters takes exactly that many. *)
Definition call_bound {A} (params nargs : nat) (body : Py A) : Py A :=
  if Nat.eqb params (S nargs) then body else raise TypeError.

(** ** animals.py *)

(** Allocation of a new object. *)
Definition alloc (e : Entity) : Py oid := fun s =>
  let i := fresh (dom (heap s)) in
  Done i (set_heap (<[i := e]> (heap s)) s).

(** [Malheureux(position)] and [Pauvre(position)]: [Animal.__init__] with
    its defaults, then the speed of the subclass.  The class-level [groups]
    registries and [group_index] are only written, never read, and are left
    out. *)
Definition new_animal (cls : AnimalClass) (pos : Z * Z) : Py oid := fun s =>
  let g := fresh (dom (glists s)) in
  let spd := match cls with Malheureux => 100 | Pauvre => 50 end in
  match alloc (EAnimal (mkAnimal cls pos spd 100 true false g false false false false)) s with
  | Done i s' => Done i (set_glists (<[g := [i]]> (glists s')) s')
  | Raised e s' => Raised e s'
  end.

(** [Animal.change_hungry_status]. *)
Definition change_hungry_status (self : oid) : Py unit :=
  a <- load_animal self ;;
  let new_status := food a <? 30 in
  if negb (Bool.eqb new_status (is_hungry a))
  then update_animal self (set_is_hungry new_status)
  else ret tt.

(** [Animal.change_speed_status]. *)
Definition change_speed_status (self : oid) : Py unit :=
  update_animal self (fun a => set_speed (if is_hungry a then 50 else 100) a).

(** [reproduction_probability] of the two species. *)
Definition reproduction_probability (cls : AnimalClass) (group_len : nat) : Q :=
  match cls with
  | Malheureux => if 3 <? Z.of_nat group_len then (2 # 10)%Q else (5 # 100)%Q
  | Pauvre => if 2 <? Z.of_nat group_len then (3 # 10)%Q else (1 # 10)%Q
  end.

(** [Animal.try_reproduce]. *)
Definition try_reproduce (self : oid) : Py unit :=
  draw <- random ;;
  a <- load_animal self ;;
  members <- read_list (group a) ;;
  if Qltb draw (reproduction_probability (a_cls a) (length members))
  then reproduce self
  else ret tt.

(** What [try_merge_groups] and [predatory_merge] do with the neighbour
    they picked:
    [self.group.extend(entity.group)], then
    [for member in entity.group: member.group = self.group], then
    [world.remove_group(entity.group)], where [entity.group] is read again
    after the loop. *)
Definition absorb (self entity : oid) : Py unit :=
  a <- load_animal self ;;
  e <- load_animal entity ;;
  mine <- read_list (group a) ;;
  theirs <- read_list (group e) ;;
  write_list (group a) (mine ++ theirs) ;;;
  members <- read_list (group e) ;;
  for_each members
    (fun member => a' <- load_animal self ;; update_animal member (set_group (group a'))) ;;;
  e' <- load_animal entity ;;
  remove_group (group e').

(** The loop of [GroupBehaviorMixin.try_merge_groups]; the draw is made only
    for an entity that passed the two tests before it. *)
Fixpoint merge_loop (self : oid) (nearby_entities : list oid) : Py unit :=
  match nearby_entities with
  | [] => ret tt
  | entity :: rest =>
      a <- load_animal self ;;
      e <- load entity ;;
      if isinstance (class_of e) (AnimalC (a_cls a)) && negb (Nat.eqb entity self) then
        draw <- random ;;
        if Qltb draw (25 # 100) then absorb self entity
        else merge_loop self rest
      else merge_loop self rest
  end.

(** [GroupBehaviorMixin.try_merge_groups]. *)
Definition try_merge_groups (self : oid) : Py unit :=
  a <- load_animal self ;;
  nearby_entities <- get_nearby_objects (a_position a) 2 ;;
  merge_loop self nearby_entities.

(** The loop of [predatory_merge]. *)
Fixpoint predatory_loop (self : oid) (nearby_entities : list oid) : Py unit :=
  match nearby_entities with
  | [] => ret tt
  | entity :: rest =>
      a <- load_animal self ;;
      e <- load entity ;;
      if isinstance (class_of e) (AnimalC (a_cls a)) && negb (Nat.eqb entity self) then
        e' <- load_animal entity ;;
        theirs <- read_list (group e') ;;
        if Z.of_nat (length theirs) <? 3 then absorb self entity
        else predatory_loop self rest
      else predatory_loop self rest
  end.

(** The body of [predatory_merge(world)], the function that
    [Malheureux.make_predatory_merge] defines; [self] is the variable of the
    enclosing method. *)
Definition predatory_merge (self : oid) : Py unit :=
  a <- load_animal self ;;
  nearby_entities <- get_nearby_objects (a_position a) 2 ;;
  predatory_loop self nearby_entities.

(** The loop of [aggressive_eat]. *)
Fixpoint aggressive_eat_loop (self : oid) (targets : list oid) : Py unit :=
  match targets with
  | [] => ret tt
  | target :: rest =>
      t <- load target ;;
      if (isinstance (class_of t) (PlantC Lumiere) || isinstance (class_of t) (AnimalC Pauvre))
         && negb (Nat.eqb target self) then
        draw <- random ;;
        if Qltb draw (2 # 10) then
          delete_unit target ;;;
          update_animal self (fun a => set_food (food a + 20) a)
        else aggressive_eat_loop self rest
      else aggressive_eat_loop self rest
  end.

(** The body of [aggressive_eat(world, day_time)], the function that
    [Pauvre.make_aggressive_eat] defines. *)
Definition aggressive_eat (self : oid) (day_time : string) : Py unit :=
  a <- load_animal self ;;
  if negb (is_active a) then ret tt
  else
    targets <- get_nearby_objects (a_position a) 2 ;;
    aggressive_eat_loop self targets.

(** [check_self_modification] of [Malheureux] and of [Pauvre]; the flag and
    the instance's own method are set one after the other. *)
Definition check_self_modification (self : oid) : Py unit :=
  a <- load_animal self ;;
  match a_cls a with
  | Malheureux =>
      members <- read_list (group a) ;;
      if (5 <? Z.of_nat (length members)) && negb (has_is_predatory a)
      then update_animal self set_predatory
      else ret tt
  | Pauvre =>
      if is_hungry a && (food a <? 10) && negb (has_is_aggressive a)
      then update_animal self set_aggressive
      else ret tt
  end.

(** [self.try_merge_groups(world)]: the instance's own attribute if there is
    one, [predatory_merge.__get__(self)], a function of one parameter called
    with one argument; the method of the mixin otherwise. *)
Definition call_try_merge_groups (self : oid) : Py unit :=
  a <- load_animal self ;;
  if inst_try_merge_groups a
  then call_bound 1 1 (predatory_merge self)
  else try_merge_groups self.

(** [self.eat(world, day_time)]: the instance's own attribute if there is
    one, [aggressive_eat.__get__(self)], a function of two parameters called
    with two arguments; the method of the class otherwise. *)
Definition call_eat (self : oid) (day_time : string) : Py unit :=
  a <- load_animal self ;;
  if inst_eat a
  then call_bound 2 2 (aggressive_eat self day_time)
  else (_ <- eat (a_cls a) self day_time ;; ret tt).

(** [Animal.update_state]. *)
Definition animal_update_state (self : oid) (day_time : string) : Py unit :=
  a0 <- load_animal self ;;
  change_active_status (a_cls a0) self day_time ;;;
  change_hungry_status self ;;;
  change_speed_status self ;;;
  check_self_modification self ;;;
  a <- load_animal self ;;
  if is_active a then
    call_try_merge_groups self ;;;
    _ <- move self ;;
    call_eat self day_time ;;;
    try_reproduce self
  else ret tt.

(** ** plants.py *)

(** The values [_can_replace] is called with. *)
Inductive PyVal :=
| VNone
| VTuple (p : Z * Z)
| VObject (c : Class).

(** [Plant._can_replace]: [isinstance(other, tuple(self.competitors)) if
    other else False].  A pair of integers is true as a condition and is an
    instance of none of the classes of the ecosystem. *)
Definition _can_replace (p : Plant) (other : PyVal) : bool :=
  match other with
  | VNone => false
  | VTuple _ => false
  | VObject c => existsb (isinstance c) (competitors p)
  end.

(** [target is None] for a list object. *)
Definition list_is_None {A} (l : list A) : bool := false.

(** [Plant.can_grow] is the method of the class body (abstract, body
    [pass]): [_inject_growth_methods] installs its membership test only on a
    class without a [can_grow], and there is none.  The call returns
    [None]. *)
Definition can_grow (p : Plant) (current_time : string) : option bool := None.

(** A returned value used as a condition. *)
Definition truthy (v : option bool) : bool :=
  match v with Some b => b | None => false end.

(** The constructors of the plant classes. *)
Definition new_plant (cls : PlantClass) (pos : Z * Z) : Py oid :=
  let gt := match cls with
            | Lumiere => ["day"]
            | Demi => ["morning"; "evening"]
            | Obscurite => ["night"]
            | PlantBase => []
            end in
  let comp := match cls with
              | Lumiere => [PlantC Obscurite; PlantC Demi]
              | Demi => [PlantC Obscurite; PlantC Lumiere]
              | Obscurite => [PlantC Lumiere; PlantC Demi]
              | PlantBase => []
              end in
  alloc (EPlant (mkPlant cls pos gt comp 0 false false)).

(** The [spread] that [_inject_spread_method] installs as [try_spread].  It
    is installed once, on [Plant], the only class without a [try_spread]
    when its metaclass runs, so [cls] is [Plant]: a class without
    [aggressive_spread_chance] and [default_spread_chance], hence the
    defaults 0.25 and 0.5 of the two [getattr]. *)
Definition spread (self : oid) : Py bool :=
  p <- load_plant self ;;
  target <- get_free_adjacent_cells (p_position p) ;;
  match target with
  | [] => ret false
  | _ =>
      new_pos <- choice target ;;
      let spread_chance := if _can_replace p (VTuple new_pos)
                           then (25 # 100)%Q else (5 # 10)%Q in
      draw <- random ;;
      if Qltb draw spread_chance then
        child <- new_plant PlantBase new_pos ;;
        add_entity child ;;;
        ret true
      else ret false
  end.

(** The body of [aggressive_spread(self, world)], the function that
    [Plant.make_aggressive_spread] defines. *)
Definition aggressive_spread (self : oid) : Py bool :=
  p <- load_plant self ;;
  target <- get_free_adjacent_cells (p_position p) ;;
  match target with
  | [] => ret false
  | _ =>
      new_pos <- choice target ;;
      if _can_replace p (VTuple new_pos) then
        draw <- random ;;
        if Qltb draw (75 # 100) then
          child <- new_plant (p_cls p) new_pos ;;
          add_entity child ;;;
          ret true
        else ret false
      else if list_is_None target then
        draw <- random ;;
        if Qltb draw (9 # 10) then
          child <- new_plant (p_cls p) new_pos ;;
          add_entity child ;;;
          ret true
        else ret false
      else ret false
  end.

(** [self.try_spread(world)]: the instance's own attribute if there is one,
    [aggressive_spread.__get__(self)], a function of two parameters called
    with one argument; the method of the class otherwise. *)
Definition try_spread (self : oid) : Py bool :=
  p <- load_plant self ;;
  if inst_try_spread p
  then call_bound 2 1 (aggressive_spread self)
  else spread self.

(** [Plant.check_self_modification]. *)
Definition plant_check_self_modification (self : oid) (day_time : string) : Py unit :=
  p <- load_plant self ;;
  if (3 <=? failed_growth_ticks p) && negb (p_has_is_aggressive p)
  then update_plant self set_p_aggressive
  else ret tt.

(** [Plant.grow]. *)
Definition grow (self : oid) (day_time : string) : Py unit :=
  p <- load_plant self ;;
  if truthy (can_grow p day_time) then
    update_plant self (set_failed_growth_ticks 0) ;;;
    _ <- try_spread self ;;
    ret tt
  else
    update_plant self (fun p' => set_failed_growth_ticks (failed_growth_ticks p' + 1) p').

(** [Plant.update_state]. *)
Definition plant_update_state (self : oid) (day_time : string) : Py unit :=
  plant_check_self_modification self day_time ;;;
  grow self day_time.

(** ** The scheduler *)

(** [entity.update_state(world, day_time)], by the class of the object. *)
Definition update_state (entity : oid) (day_time : string) : Py unit :=
  e <- load entity ;;
  match e with
  | EAnimal _ => animal_update_state entity day_time
  | EPlant _ => plant_update_state entity day_time
  end.

(** [World.process_tick]: the loop runs over [list(self.entities)], a copy
    made before the first update. *)
Definition process_tick : Py unit :=
  current <- gets (fun s => get_time (time s)) ;;
  snapshot <- gets entities ;;
  for_each snapshot (fun entity => update_state entity current) ;;;
  modify (fun s => set_time (change_time (time s)) s).

(** ** Construction and the initial population *)

(** [World(width, height, max_ticks)]. *)
Definition World (width height max_ticks : Z) (r : Rng) : St :=
  mkSt width height max_ticks
       (repeat (repeat None (Z.to_nat width)) (Z.to_nat height))
       [] (mkTime "morning" 0) ∅ ∅ r.

(** The search of [initial_spawn] for a free cell, on the oracle's
    integers: the cell found and the integers that remain, an exception, or
    a loop that never ends (every draw past the list is 0, so the loop then
    looks at the cell (0, 0) for ever). *)
Inductive Search :=
| Found (x y : Z) (rest : list Z)
| Failed (e : PyExn) (rest : list Z)
| Forever.

Definition probe (m : list (list (option oid))) (x y : Z) (rest : list Z)
           (continue : Search) : Search :=
  match py_get m x with
  | Some row =>
      match py_get row y with
      | Some None => Found x y rest
      | Some (Some _) => continue
      | None => Failed IndexError rest
      end
  | None => Failed IndexError rest
  end.

Fixpoint spawn_search (h w : Z) (m : list (list (option oid))) (l : list Z) : Search :=
  match l with
  | a :: b :: rest => probe m (a mod h) (b mod w) rest (spawn_search h w m rest)
  | [a] => probe m (a mod h) 0 [] (probe m 0 0 [] Forever)
  | [] => probe m 0 0 [] Forever
  end.

Definition new_entity (cls : Class) (pos : Z * Z) : Py oid :=
  match cls with
  | AnimalC c => new_animal c pos
  | PlantC c => new_plant c pos
  end.

(** One round of the [for] loop of [World.initial_spawn]; [None] when the
    [while] loop never ends.  [randint(0, self.height-1)] raises ValueError
    on a world without rows; on a world with rows and without columns the
    row has been drawn when [randint(0, self.width-1)] raises. *)
Definition initial_spawn_one (entity_class : Class) (s : St) : option (Outcome St unit) :=
  if height s <? 1 then Some (Raised ValueError s)
  else if width s <? 1 then Some ((next_int ;;; raise ValueError) s)
  else
    match spawn_search (height s) (width s) (matrix s) (ints (rng s)) with
    | Found x y rest =>
        let s1 := set_rng (mkRng (floats (rng s)) rest) s in
        Some ((entity <- new_entity entity_class (x, y) ;;
               matrix_write x y (Some entity) ;;;
               modify (fun s' => set_entities (entities s' ++ [entity]) s')) s1)
    | Failed e rest => Some (Raised e (set_rng (mkRng (floats (rng s)) rest) s))
    | Forever => None
    end.

(** [World.initial_spawn]. *)
Fixpoint initial_spawn (entity_class : Class) (count : nat) (s : St)
  : option (Outcome St unit) :=
  match count with
  | O => Some (Done tt s)
  | S n =>
      match initial_spawn_one entity_class s with
      | Some (Done _ s') => initial_spawn entity_class n s'
      | other => other
      end
  end.

(** * Auxiliary definitions for the statements *)

(** ** The grid as a partial function *)

Definition cell (s : St) (x y : Z) : option (option oid) :=
  match py_get (matrix s) x with
  | Some row => py_get row y
  | None => None
  end.

(** The matrix has [height] rows of [width] cells. *)
Definition wf_matrix (s : St) : Prop :=
  Z.of_nat (length (matrix s)) = height s /\
  Forall (fun row => Z.of_nat (length row) = width s) (matrix s).


(** ** Frames *)

(** [keeps R c]: whenever [c] returns, the state it leaves is related by [R]
    to the one it started from. *)
Definition keeps (R : St -> St -> Prop) {A} (c : Py A) : Prop :=
  forall s a s', c s = Done a s' -> R s s'.

(** An assignment to an attribute keeps the class of the object and the
    marks of its self-modification. *)
Definition entity_le (e e' : Entity) : Prop :=
  match e, e' with
  | EAnimal a, EAnimal a' =>
      a_cls a' = a_cls a /\
      (has_is_predatory a = true -> has_is_predatory a' = true) /\
      (inst_try_merge_groups a = true -> inst_try_merge_groups a' = true) /\
      (has_is_aggressive a = true -> has_is_aggressive a' = true) /\
      (inst_eat a = true -> inst_eat a' = true)
  | EPlant p, EPlant p' =>
      p_cls p' = p_cls p /\
      (p_has_is_aggressive p = true -> p_has_is_aggressive p' = true) /\
      (inst_try_spread p = true -> inst_try_spread p' = true)
  | _, _ => False
  end.

(** The marks of the self-modification are never taken back: what [s] has
    allocated is still there in [s'], with the same class and every mark it
    had. *)
Definition mutation_kept (s s' : St) : Prop :=
  forall i e, heap s !! i = Some e ->
              exists e', heap s' !! i = Some e' /\ entity_le e e'.

(** Nothing but the scheduler touches the clock and the dimensions. *)
Definition same_clock (s s' : St) : Prop :=
  time s' = time s /\ width s' = width s /\ height s' = height s.

(** ** The scheduler, declaratively *)

(** [updates d l s s']: the updates of the entities of [l], one after the
    other in the order of [l] and each of them returning, lead from [s] to
    [s'].  Nothing is asked of the entities: live or not, each one of [l]
    is updated. *)
Inductive updates (d : string) : list oid -> St -> St -> Prop :=
| updates_nil s : updates d [] s s
| updates_cons i l s s1 s2 :
    update_state i d s = Done tt s1 ->
    updates d l s1 s2 ->
    updates d (i :: l) s s2.

(** The scheduler as the specification words it: a snapshot entity that was
    removed earlier in the tick is skipped when its turn arrives. *)
Definition spec_process_tick : Py unit :=
  current <- gets (fun s => get_time (time s)) ;;
  snapshot <- gets entities ;;
  for_each snapshot
    (fun entity =>
       live <- gets (fun s => py_in entity (entities s)) ;;
       if live then update_state entity current else ret tt) ;;;
  modify (fun s => set_time (change_time (time s)) s).

(** The state an outcome leaves. *)
Definition state_of {A} (o : Outcome St A) : St :=
  match o with Done _ s => s | Raised _ s => s end.

Definition returned {A} (o : Outcome St A) : bool :=
  match o with Done _ _ => true | Raised _ _ => false end.

Definition spawned (o : option (Outcome St unit)) (otherwise : St) : St :=
  match o with Some (Done _ s) => s | _ => otherwise end.

(** ** A run on a grid of one row and five columns

    [World(5, 1, 40)], then [initial_spawn(Malheureux)] and
    [initial_spawn(Pauvre, 2)], with an oracle that puts the Malheureux on
    (0, 0) and the two Pauvre on (0, 2) and (0, 3).  The objects get the
    identities 0, 1 and 2 in that order.  The rest of the oracle drives the
    first tick: the Malheureux steps to (0, 1), misses the Pauvre next to it
    (draw 0.9) and eats the one at (0, 3) (draw 0); each of the two Pauvre
    then steps one cell to the right. *)
Definition scenario_rng : Rng :=
  mkRng [(9 # 10)%Q; 0%Q; (9 # 10)%Q; (9 # 10)%Q; (9 # 10)%Q]
        [0; 0; 0; 2; 0; 3;  0; 1; 2;  0; 1; 2;  0; 1; 2].

Definition scenario : St :=
  let w := World 5 1 40 scenario_rng in
  let s1 := spawned (initial_spawn (AnimalC Malheureux) 1 w) w in
  spawned (initial_spawn (AnimalC Pauvre) 2 s1) s1.

(** ** The grid invariant *)

(** Every live entity is the occupant of the cell at its position, and no
    two live entities have the same position. *)
Definition grid_consistent (s : St) : Prop :=
  (forall i, i ∈ entities s ->
     exists e, heap s !! i = Some e /\
               cell s (fst (position e)) (snd (position e)) = Some (Some i)) /\
  (forall i j ei ej,
     i ∈ entities s -> j ∈ entities s ->
     heap s !! i = Some ei -> heap s !! j = Some ej ->
     position ei = position ej -> i = j).

(** The states of a simulation: a fresh world, then initial spawns and
    ticks that return. *)
Inductive reachable : St -> Prop :=
| reach_World w h mt r : reachable (World w h mt r)
| reach_spawn s cls n s' :
    reachable s -> initial_spawn cls n s = Some (Done tt s') -> reachable s'
| reach_tick s s' :
    reachable s -> process_tick s = Done tt s' -> reachable s'.

(** ** Two plants for one cell

    [World(2, 2, 1)], a Lumiere built for (0, 0) and placed with
    [add_entity], and a second Lumiere built for the same position, not yet
    placed.  The computation returns the identity of the second one. *)
Definition second_plant : Py oid :=
  a <- new_plant Lumiere (0, 0) ;;
  add_entity a ;;;
  new_plant Lumiere (0, 0).

Definition occupied_world : St := state_of (second_plant (World 2 2 1 (mkRng [] []))).

(** ** Self-modification *)

(** [entity.check_self_modification(...)], by the class of the object, as
    the two [update_state] call it. *)
Definition check_entity (entity : oid) (day_time : string) : Py unit :=
  e <- load entity ;;
  match e with
  | EAnimal _ => check_self_modification entity
  | EPlant _ => plant_check_self_modification entity day_time
  end.

(** The mark that the check of the object's class looks at. *)
Definition is_mutated (e : Entity) : bool :=
  match e with
  | EAnimal a =>
      match a_cls a with
      | Malheureux => has_is_predatory a
      | Pauvre => has_is_aggressive a
      end
  | EPlant p => p_has_is_aggressive p
  end.

(** The group list of an animal is an allocated list object. *)
Definition group_known (s : St) (e : Entity) : Prop :=
  match e with
  | EAnimal a => is_Some (glists s !! group a)
  | EPlant _ => True
  end.

(** ** Worlds built by hand, the way test.py builds them *)

(** [entity = cls(pos); world.add_entity(entity)]. *)
Definition spawn_at (cls : Class) (pos : Z * Z) : Py oid :=
  i <- new_entity cls pos ;;
  add_entity i ;;;
  ret i.

(** [leader.group.append(member); member.group = leader.group], the two
    statements of test_self_modification. *)
Definition join_group (leader member : oid) : Py unit :=
  a <- load_animal leader ;;
  l <- read_list (group a) ;;
  write_list (group a) (l ++ [member]) ;;;
  update_animal member (set_group (group a)).

(** A grid of ten by ten with eight Malheureux: the object 0 at (5, 5),
    whose group also has the objects 1 to 5 of the top row, and next to it,
    at (5, 6), the object 6, whose group also has the object 7 at (9, 9). *)
Definition pack_setup : Py unit :=
  leader <- spawn_at (AnimalC Malheureux) (5, 5) ;;
  for_each [(0, 0); (0, 2); (0, 4); (0, 6); (0, 8)]
    (fun pos => m <- spawn_at (AnimalC Malheureux) pos ;; join_group leader m) ;;;
  neighbour <- spawn_at (AnimalC Malheureux) (5, 6) ;;
  companion <- spawn_at (AnimalC Malheureux) (9, 9) ;;
  join_group neighbour companion.

Definition pack_world : St := state_of (pack_setup (World 10 10 40 (mkRng [] []))).

(** The state after the self-modification check of the object 0, whose
    group has six members. *)
Definition pack_mutated : St := state_of (check_self_modification 0%nat pack_world).

(** A grid of three by three with one Lumiere in the middle, after four
    ticks: [can_grow] held in none of them, so the fourth found three failed
    ticks and made the plant aggressive. *)
Definition lone_plant : St :=
  let w := World 3 3 40 (mkRng [] [1; 1]) in
  spawned (initial_spawn (PlantC Lumiere) 1 w) w.

Definition four_ticks : Py unit :=
  process_tick ;;; process_tick ;;; process_tick ;;; process_tick.

Definition mutated_plant : St := state_of (four_ticks lone_plant).

(** ** Well-formed states *)

Definition allocated (s : St) (o : oid) : bool :=
  match heap s !! o with Some _ => true | None => false end.

Definition is_animal (s : St) (o : oid) : bool :=
  match heap s !! o with Some (EAnimal _) => true | _ => false end.

Definition wf_matrixb (s : St) : bool :=
  (Z.of_nat (length (matrix s)) =? height s)
  && forallb (fun row => Z.of_nat (length row) =? width s) (matrix s).

Definition live_placed (s : St) (i : oid) : bool :=
  match heap s !! i with
  | Some e => is_valid_position s (fst (position e)) (snd (position e))
  | None => false
  end.

Definition in_own_group (s : St) (i : oid) (e : Entity) : bool :=
  match e with
  | EAnimal a => match glists s !! group a with Some l => py_in i l | None => false end
  | EPlant _ => true
  end.

(** What every state of a run satisfies, as a test that can be run: the
    matrix has the dimensions of the world; no entity is twice in the live
    list; a live entity is an allocated object whose position lies inside
    the grid; what a cell holds is an allocated object; the group of an
    animal is an allocated list that has the animal among its members; the
    members of a group list are animals. *)
Definition wf_state (s : St) : bool :=
  wf_matrixb s
  && bool_decide (NoDup (entities s))
  && forallb (live_placed s) (entities s)
  && forallb (forallb (fun c => match c with Some o => allocated s o | None => true end))
             (matrix s)
  && forallb (fun ie => in_own_group s (fst ie) (snd ie)) (map_to_list (heap s))
  && forallb (fun gl => forallb (is_animal s) (snd gl)) (map_to_list (glists s)).

Definition pos_eqb (p q : Z * Z) : bool :=
  (fst p =? fst q) && (snd p =? snd q).

(** Nothing but live entities on the grid, each in the cell of its
    position: what a cell inside the grid holds is in the live list and has
    that cell as its position. *)
Definition grid_sound (s : St) : bool :=
  forallb
    (fun x =>
       forallb
         (fun y =>
            match cell s x y with
            | Some (Some o) =>
                py_in o (entities s)
                && match heap s !! o with
                   | Some e => pos_eqb (position e) (x, y)
                   | None => false
                   end
            | _ => true
            end)
         (range 0 (width s)))
    (range 0 (height s)).

(** ** Scanning with draws *)

(** What [get_nearby_objects] returns. *)
Definition nearby (s : St) (pos : Z * Z) (r : Z) : list oid :=
  match get_nearby_objects pos r s with
  | Done l _ => l
  | Raised _ _ => []
  end.

(** The state after [k] calls of [random.random()]. *)
Definition drop_floats (k : nat) (s : St) : St :=
  set_rng (mkRng (drop k (floats (rng s))) (ints (rng s))) s.

(** The value the call number [k] of [random.random()] returns. *)
Definition draw_at (s : St) (k : nat) : Q := nth k (floats (rng s)) 0%Q.

(** Of the [n] consecutive draws that start with the draw number [from],
    the first one that falls under [chance], counted from [from]. *)
Fixpoint first_success (chance : Q) (draw : nat -> Q) (from n : nat) : option nat :=
  match n with
  | O => None
  | S n' =>
      if Qltb (draw from) chance then Some O
      else option_map S (first_success chance draw (S from) n')
  end.

(** A neighbour that the eat rule lists as prey. *)
Definition is_prey (s : St) (b : option EatRule) (t : oid) : bool :=
  match heap s !! t with
  | Some e => existsb (isinstance (class_of e)) (rule_targets b)
  | None => false
  end.

(** A neighbour that [try_merge_groups] draws for: an instance of the class
    of [self], other than [self]. *)
Definition merge_candidate (s : St) (self : oid) (cls : AnimalClass) (t : oid) : bool :=
  match heap s !! t with
  | Some e => isinstance (class_of e) (AnimalC cls) && negb (Nat.eqb t self)
  | None => false
  end.

(** What [eat] does once the draw for the target has succeeded; [et] is the
    target as the loop read it. *)
Definition swallow (self : oid) (b : option EatRule) (target : oid) (et : Entity) : Py bool :=
  delete_unit target ;;;
  update_animal self
    (fun a' => set_food (food a' + rule_food_value b (class_name (class_of et))) a') ;;;
  ret true.

(** The world of the run on one row, with an oracle whose first draw is 0. *)
Definition scenario_lucky : St := set_rng (mkRng [0%Q] []) scenario.

(** ** A tick with two hunters

    [World(7, 1, 40)], then [initial_spawn(Malheureux)],
    [initial_spawn(Pauvre)] and [initial_spawn(Malheureux)], with an oracle
    that puts them on (0, 0), (0, 2) and (0, 5): the objects 0, 1 and 2.
    The rest of the oracle drives the first tick.  The Malheureux 0 draws
    a step off the grid and stays, then eats the Pauvre (draw 0).  The
    Pauvre, still in the snapshot of the tick, steps to (0, 3).  The
    Malheureux 2 draws a step off the grid and stays; its draw for the
    Pauvre is 0 again. *)
Definition relay_rng : Rng :=
  mkRng [0%Q; (9 # 10)%Q; (9 # 10)%Q; 0%Q; (9 # 10)%Q]
        [0; 0;  0; 2;  0; 5;   0; 0; 1;   0; 1; 2;   0; 0; 1].

Definition relay : St :=
  let w := World 7 1 40 relay_rng in
  let s1 := spawned (initial_spawn (AnimalC Malheureux) 1 w) w in
  let s2 := spawned (initial_spawn (AnimalC Pauvre) 1 s1) s1 in
  spawned (initial_spawn (AnimalC Malheureux) 1 s2) s2.

(** The first tick of that world up to the call [self.eat(world, day_time)]
    of the object 2: the updates of the objects 0 and 1, then the
    statements of [Animal.update_state] that come before the call. *)
Definition relay_before_eat : Py unit :=
  for_each [0; 1]%nat (fun i => update_state i "morning") ;;;
  change_active_status Malheureux 2%nat "morning" ;;;
  change_hungry_status 2%nat ;;;
  change_speed_status 2%nat ;;;
  check_self_modification 2%nat ;;;
  call_try_merge_groups 2%nat ;;;
  (_ <- move 2%nat ;; ret tt).

(** The attribute [food] of an object of the store. *)
Definition food_of (s : St) (i : oid) : option Z :=
  match heap s !! i with
  | Some (EAnimal a) => Some (food a)
  | _ => None
  end.

(** ** A Pauvre that starves

    Ticks, one after the other. *)
Fixpoint ticks (n : nat) : Py unit :=
  match n with
  | O => ret tt
  | S n' => process_tick ;;; ticks n'
  end.

(** [World(5, 1, 1000)], then [initial_spawn(Pauvre)] and
    [initial_spawn(Lumiere)], with an oracle that puts the Pauvre, the
    object 0, on (0, 0) and the Lumiere, the object 1, on (0, 4).  In each
    tick of a phase other than night the Pauvre moves: the draw for its
    speed is 1, the one for the row 0, and the draws for the column take it
    to (0, 1) and back to (0, 0) in turn, at most three cells from the
    Lumiere, which its [eat] does not see at that distance.  Each of these
    91 ticks costs one unit of food and ends with the draw 1/2 of
    [try_reproduce].  The last three integers and the draw 1/10 are those
    of the tick that follows. *)
Definition famine_rng : Rng :=
  mkRng (repeat (1 # 2)%Q 91 ++ [(1 # 10)%Q])
        ([0; 0;  0; 4]
         ++ flat_map (fun k => [0; 1; 2 * (k mod 2)]) (range 1 92)
         ++ [0; 1; 2]).

Definition famine_start : St :=
  let w := World 5 1 1000 famine_rng in
  let s1 := spawned (initial_spawn (AnimalC Pauvre) 1 w) w in
  spawned (initial_spawn (PlantC Lumiere) 1 s1) s1.

(** The world after 121 ticks: the phase is day, the Pauvre is on (0, 1),
    hungry, with 9 units of food. *)
Definition famine : St := state_of (ticks 121 famine_start).

(** The next tick up to the call [self.eat(world, day_time)] of the
    Pauvre: the statements of [Animal.update_state] that come before the
    call. *)
Definition famine_before_eat : Py unit :=
  change_active_status Pauvre 0%nat "day" ;;;
  change_hungry_status 0%nat ;;;
  change_speed_status 0%nat ;;;
  check_self_modification 0%nat ;;;
  call_try_merge_groups 0%nat ;;;
  (_ <- move 0%nat ;; ret tt).

(** ** Merging groups *)

(** [member.group = g] on an object of the store. *)
Definition regroup (g : gid) (e : Entity) : Entity :=
  match e with
  | EAnimal a => EAnimal (set_group g a)
  | EPlant p => EPlant p
  end.

(** The body of the loop [for member in entity.group: member.group =
    self.group]. *)
Definition repoint (self member : oid) : Py unit :=
  a' <- load_animal self ;; update_animal member (set_group (group a')).

(** A world of one row and four columns with two Malheureux, the objects 0
    and 1, on (0, 1) and (0, 2).  The oracle of the first tick makes the
    object 0 merge with its neighbour (draw 0) and step to (0, 0); every
    later draw is 0 too. *)
Definition duo : St :=
  let w := World 4 1 40 (mkRng [] [0; 1; 0; 2;  0; 1; 0]) in
  spawned (initial_spawn (AnimalC Malheureux) 2 w) w.

(** The state in which the object 1 takes its turn in that tick. *)
Definition duo_second_turn : St := state_of (update_state 0%nat "morning" duo).

(** The group list an object of the store points to. *)
Definition group_of (s : St) (i : oid) : option gid :=
  match heap s !! i with
  | Some (EAnimal a) => Some (group a)
  | _ => None
  end.

(** * Further definitions: the grid in closed form *)

(** The cells [get_free_adjacent_cells] collects from the offsets [offs]
    around [(x, y)], in the order of the loop. *)
Definition free_cells (s : St) (x y : Z) (offs : list (Z * Z)) : list (Z * Z) :=
  List.filter
    (fun c => is_valid_position s (fst c) (snd c)
              && match cell s (fst c) (snd c) with
                 | Some None => true
                 | _ => false
                 end)
    (map (fun d => (x + fst d, y + snd d))
         (List.filter (fun d => negb ((fst d =? 0) && (snd d =? 0))) offs)).

(** What [get_nearby_objects] appends for one offset. *)
Definition seen_at (s : St) (x y : Z) (d : Z * Z) : list oid :=
  if is_valid_position s (x + fst d) (y + snd d) then
    match cell s (x + fst d) (y + snd d) with
    | Some (Some o) => if negb (fst d =? 0) || negb (snd d =? 0) then [o] else []
    | _ => []
    end
  else [].

(** The objects [get_nearby_objects] collects from the offsets [offs]. *)
Definition seen (s : St) (x y : Z) (offs : list (Z * Z)) : list oid :=
  flat_map (seen_at s x y) offs.

(** [World(3, 2, 1)] and a Lumiere built for [pos], not yet placed: the
    object 0. *)
Definition unplaced (pos : Z * Z) : St :=
  state_of (new_plant Lumiere pos (World 3 2 1 (mkRng [] []))).

(** * Further definitions: updates of one object *)

(** The state after an assignment to attributes of the object [i]. *)
Definition touch (s : St) (i : oid) (e : Entity) : St :=
  set_heap (<[i := e]> (heap s)) s.

(** What [Malheureux.check_self_modification] and
    [Pauvre.check_self_modification] leave of an animal whose group list
    has [len] members. *)
Definition modified (len : nat) (a : Animal) : Animal :=
  match a_cls a with
  | Malheureux =>
      if (5 <? Z.of_nat len) && negb (has_is_predatory a) then set_predatory a else a
  | Pauvre =>
      if is_hungry a && (food a <? 10) && negb (has_is_aggressive a)
      then set_aggressive a else a
  end.

(** What the first four calls of [Animal.update_state] leave of an animal:
    the activity of the phase, the hunger of the food, the speed of the
    hunger, then the self-modification. *)
Definition refreshed (day_time : string) (len : nat) (a : Animal) : Animal :=
  let a1 := set_is_active (str_in day_time (active_times (a_cls a))) a in
  let a2 := set_is_hungry (food a1 <? 30) a1 in
  let a3 := set_speed (if is_hungry a2 then 50 else 100) a2 in
  modified len a3.

(** What one [Plant.update_state] leaves of a plant: the mark of the
    self-modification if three failed ticks were counted, and one more
    failed tick. *)
Definition withered (p : Plant) : Plant :=
  let p1 := if (3 <=? failed_growth_ticks p) && negb (p_has_is_aggressive p)
            then set_p_aggressive p else p in
  set_failed_growth_ticks (failed_growth_ticks p1 + 1) p1.

(** * Further definitions: what holds of every state a computation leaves *)

(** [always R c]: the state [c] leaves, whether it returns or raises, is
    related by [R] to the one it started from. *)
Definition always (R : St -> St -> Prop) {A} (c : Py A) : Prop :=
  forall s, R s (state_of (c s)).

(** The live list has lost entities at most: what is left is in the order
    it was. *)
Definition shrinks (s s' : St) : Prop := entities s' `sublist_of` entities s.

(** The dimensions are kept, and a matrix that has them still has them. *)
Definition same_shape (s s' : St) : Prop :=
  width s' = width s /\ height s' = height s /\ (wf_matrix s -> wf_matrix s').

(** No object is created, none is dropped, none changes its class. *)
Definition same_objects (s s' : St) : Prop :=
  forall i, class_of <$> heap s' !! i = class_of <$> heap s !! i.

(** * Further definitions: the initial population *)

(** The grid and the live list agree both ways: the matrix has the
    dimensions of the world; no entity is twice in the live list; a live
    entity has a position inside the grid and is what the cell of its
    position holds; what a cell of the grid holds is a live entity whose
    position is that cell. *)
Definition populated (s : St) : Prop :=
  wf_matrix s /\
  NoDup (entities s) /\
  (forall i, i ∈ entities s ->
     exists e, heap s !! i = Some e /\
               is_valid_position s (fst (position e)) (snd (position e)) = true /\
               cell s (fst (position e)) (snd (position e)) = Some (Some i)) /\
  (forall x y o, is_valid_position s x y = true -> cell s x y = Some (Some o) ->
     o ∈ entities s /\ exists e, heap s !! o = Some e /\ position e = (x, y)).

(** [World(1, 1, 1)] after [initial_spawn(Lumiere)]: its only cell is
    taken. *)
Definition full_world : St :=
  let w := World 1 1 1 (mkRng [] []) in
  spawned (initial_spawn (PlantC Lumiere) 1 w) w.

(** [World.initial_population], in the order the dict is iterated. *)
Definition initial_population : list (Class * nat) :=
  [(AnimalC Malheureux, 3%nat); (AnimalC Pauvre, 5%nat); (PlantC Lumiere, 10%nat);
   (PlantC Obscurite, 8%nat); (PlantC Demi, 7%nat)].

(** [for entity_class, count in population: self.initial_spawn(entity_class,
    count)]; [None] when a spawn never ends. *)
Fixpoint spawn_population (population : list (Class * nat)) (s : St)
  : option (Outcome St unit) :=
  match population with
  | [] => Some (Done tt s)
  | (entity_class, count) :: rest =>
      match initial_spawn entity_class count s with
      | Some (Done _ s') => spawn_population rest s'
      | other => other
      end
  end.

(** [World.initialize_ecosystem]. *)
Definition initialize_ecosystem (s : St) : option (Outcome St unit) :=
  spawn_population initial_population s.

(** The class of the object [i], if there is one. *)
Definition class_at (s : St) (i : oid) : option Class := class_of <$> heap s !! i.

(** The classes a population asks for, one per entity, in the order of the
    spawns. *)
Definition roll_call (population : list (Class * nat)) : list (option Class) :=
  flat_map (fun cn => repeat (Some (fst cn)) (snd cn)) population.

(** The cells of the grid, row by row. *)
Definition grid_cells (s : St) : list (Z * Z) :=
  flat_map (fun x => map (fun y => (x, y)) (range 0 (width s))) (range 0 (height s)).

(** The position of the object [i]; (0, 0) for a dangling identity. *)
Definition position_at (s : St) (i : oid) : Z * Z :=
  match heap s !! i with Some e => position e | None => (0, 0) end.

(** The world of main.py, [World(width=20, height=15, max_ticks=40)], with
    an oracle whose draws for the initial population are the cells (0, 0),
    (0, 1), ... row by row. *)
Definition main_world : St :=
  World 20 15 40 (mkRng [] (flat_map (fun k => [k / 20; k mod 20]) (range 0 33))).

(** * Further definitions: gui.py, the coordinates of the map *)

(** [EcosystemGUI.canvas_size]. *)
Definition canvas_size : Z * Z := (800, 600).

(** [EcosystemGUI.world_to_canvas_coords]; [cell_size] is the attribute of
    the GUI object, and [//] on integers is the floor division. *)
Definition world_to_canvas_coords (cell_size world_x world_y : Z) : Z * Z :=
  let canvas_x := world_y * cell_size + cell_size / 2 in
  let canvas_y := snd canvas_size - (world_x * cell_size + cell_size / 2) in
  (canvas_x, canvas_y).

(** [EcosystemGUI.canvas_to_world_coords] on integers; [None] is the
    ZeroDivisionError of a cell size of 0. *)
Definition canvas_to_world_coords (cell_size canvas_x canvas_y : Z) : option (Z * Z) :=
  if cell_size =? 0 then None
  else
    let world_y := canvas_x / cell_size in
    let world_x := (snd canvas_size - canvas_y) / cell_size in
    Some (world_x, world_y).

(** * Further definitions: world.py, printing the grid *)

(** The dict [symbols] of [print_world_state], keyed by class: the class
    [Plant] itself is not among its keys. *)
Definition symbol (c : Class) : option string :=
  match c with
  | AnimalC Malheureux => Some "M"
  | AnimalC Pauvre => Some "P"
  | PlantC Lumiere => Some "☀"
  | PlantC Obscurite => Some "🌙"
  | PlantC Demi => Some "🌓"
  | PlantC PlantBase => None
  end.

(** What a lookup in [symbols] gives: a value, or a KeyError for the class
    that is no key; [NoObject] is the outcome of the model for an identity
    that was never allocated. *)
Inductive Shown (A : Type) :=
| Shows (a : A)
| KeyError (c : Class)
| NoObject (o : oid).
Arguments Shows {A}.
Arguments KeyError {A}.
Arguments NoObject {A}.

(** [[symbols[type(obj)] if obj else symbols[None] for obj in row]], built
    from left to right. *)
Fixpoint row_symbols (s : St) (row : list (option oid)) : Shown (list string) :=
  match row with
  | [] => Shows []
  | obj :: rest =>
      match obj with
      | None =>
          match row_symbols s rest with
          | Shows l => Shows ("·" :: l)
          | other => other
          end
      | Some o =>
          match heap s !! o with
          | None => NoObject o
          | Some e =>
              match symbol (class_of e) with
              | None => KeyError (class_of e)
              | Some sym =>
                  match row_symbols s rest with
                  | Shows l => Shows (sym :: l)
                  | other => other
                  end
              end
          end
      end
  end.

Fixpoint print_rows (s : St) (rows : list (list (option oid))) : Shown (list string) :=
  match rows with
  | [] => Shows []
  | row :: rest =>
      match row_symbols s row with
      | Shows syms =>
          match print_rows s rest with
          | Shows lines => Shows (String.concat " " syms :: lines)
          | other => other
          end
      | KeyError c => KeyError c
      | NoObject o => NoObject o
      end
  end.

(** [World.print_world_state]: the lines it prints, one per row of the
    matrix, when it returns; otherwise the KeyError of the first object
    whose class has no symbol (the rows above that object's row have been
    printed by then). *)
Definition print_world_state (s : St) : Shown (list string) :=
  print_rows s (matrix s).

(** What the cells hold is allocated. *)
Definition occupants_allocated (s : St) : bool :=
  forallb (forallb (fun c => match c with Some o => allocated s o | None => true end))
          (matrix s).

(** Some cell holds an instance of the class [Plant] itself. *)
Definition holds_base_plant (s : St) : Prop :=
  exists row o e,
    row ∈ matrix s /\ Some o ∈ row /\
    heap s !! o = Some e /\ class_of e = PlantC PlantBase.

(** * Further definitions: gui.py, saving and restoring the world *)

(** [for x in l: out.append(f(x))]. *)
Fixpoint map_each {A B} (l : list A) (f : A -> Py B) : Py (list B) :=
  match l with
  | [] => ret []
  | x :: rest => y <- f x ;; ys <- map_each rest f ;; ret (y :: ys)
  end.

(** The keys [food], [is_active], [is_hungry] and [speed] of an
    [entity_data], present when the entity has a [food] attribute. *)
Record AnimalData := mkAnimalData {
  ad_food : Z;
  ad_is_active : bool;
  ad_is_hungry : bool;
  ad_speed : Z
}.

(** One [entity_data] of [save_state]. *)
Record EntityData := mkEntityData {
  ed_type : string;
  ed_position : Z * Z;
  ed_class : Class;
  ed_animal : option AnimalData
}.

(** One [state] of the history. *)
Record Snapshot := mkSnapshot {
  sn_tick : Z;
  sn_time : string;
  sn_entities : list EntityData
}.

(** The attributes of [EcosystemGUI] that [save_state] and [restore_state]
    read and write. *)
Record Gui := mkGui {
  current_tick : Z;
  gui_max_ticks : Z;
  simulation_history : list Snapshot
}.

(** The [entity_data] that [save_state] builds for an entity. *)
Definition entity_data (e : Entity) : EntityData :=
  match e with
  | EAnimal a =>
      mkEntityData (class_name (class_of e)) (a_position a) (class_of e)
                   (Some (mkAnimalData (food a) (is_active a) (is_hungry a) (speed a)))
  | EPlant p =>
      mkEntityData (class_name (class_of e)) (p_position p) (class_of e) None
  end.

(** The body of the loop of [save_state]. *)
Definition save_entity (entity : oid) : Py EntityData :=
  e <- load entity ;; ret (entity_data e).

(** The loop of [save_state] over [self.world.entities]. *)
Definition collect_entities : Py (list EntityData) :=
  live <- gets entities ;;
  map_each live save_entity.

(** [EcosystemGUI.save_state]; [pop(0)] of an empty history is an
    IndexError. *)
Definition save_state (g : Gui) : Py Gui :=
  current <- gets (fun s => current_time (time s)) ;;
  data <- collect_entities ;;
  let state := mkSnapshot (current_tick g) current data in
  if gui_max_ticks g <=? Z.of_nat (length (simulation_history g)) then
    match simulation_history g with
    | [] => raise IndexError
    | _ :: rest => ret (mkGui (current_tick g) (gui_max_ticks g) (rest ++ [state]))
    end
  else ret (mkGui (current_tick g) (gui_max_ticks g) (simulation_history g ++ [state])).

(** The body of the loop of [restore_state]: the entity is built by the
    constructor of its class; an animal then gets the four saved
    attributes, or the defaults of the four [get]. *)
Definition restore_entity (d : EntityData) : Py unit :=
  entity <- new_entity (ed_class d) (ed_position d) ;;
  match ed_class d with
  | AnimalC _ =>
      update_animal entity
        (fun a =>
           let saved := match ed_animal d with
                        | Some ad => ad
                        | None => mkAnimalData 100 true false 50
                        end in
           set_speed (ad_speed saved)
             (set_is_hungry (ad_is_hungry saved)
                (set_is_active (ad_is_active saved) (set_food (ad_food saved) a))))
  | PlantC _ => ret tt
  end ;;;
  modify (fun s => set_entities (entities s ++ [entity]) s) ;;;
  e <- load entity ;;
  let '(x, y) := position e in
  inside <- gets (fun s => (0 <=? x) && (x <? height s) && (0 <=? y) && (y <? width s)) ;;
  if inside then matrix_write x y (Some entity) else ret tt.

(** [time_cycle.index(t)]. *)
Fixpoint index_of (t : string) (l : list string) : Z :=
  match l with
  | [] => 0
  | x :: rest => if String.eqb x t then 0 else 1 + index_of t rest
  end.

(** [EcosystemGUI.restore_state]. *)
Definition restore_state (g : Gui) (tick : Z) : Py Gui :=
  if (tick <? 0) || (Z.of_nat (length (simulation_history g)) <=? tick) then ret g
  else
    match simulation_history g !! Z.to_nat tick with
    | None => raise IndexError
    | Some state =>
        modify (set_entities []) ;;;
        modify (fun s => set_matrix (repeat (repeat None (Z.to_nat (width s)))
                                            (Z.to_nat (height s))) s) ;;;
        for_each (sn_entities state) restore_entity ;;;
        (if str_in (sn_time state) cycle then
           modify (set_time (mkTime (sn_time state) (index_of (sn_time state) cycle)))
         else ret tt) ;;;
        ret (mkGui (sn_tick state) (gui_max_ticks g) (simulation_history g))
    end.

(** An object as its constructor leaves it: no mark of a self-modification,
    and for a plant no failed tick. *)
Definition pristine (e : Entity) : bool :=
  match e with
  | EAnimal a =>
      negb (has_is_predatory a) && negb (inst_try_merge_groups a)
      && negb (has_is_aggressive a) && negb (inst_eat a)
  | EPlant p =>
      (failed_growth_ticks p =? 0) && negb (p_has_is_aggressive p)
      && negb (inst_try_spread p)
  end.

(** The group of an animal is a list with the animal as its only member. *)
Definition alone (s : St) (i : oid) (e : Entity) : Prop :=
  match e with
  | EAnimal a => glists s !! group a = Some [i]
  | EPlant _ => True
  end.

(** What [restore_state] makes of an [entity_data]: the name and the class
    of the object it builds, and for an animal the four saved attributes or
    their defaults. *)
Definition restored (d : EntityData) : EntityData :=
  mkEntityData (class_name (ed_class d)) (ed_position d) (ed_class d)
    (match ed_class d with
     | AnimalC _ => Some (match ed_animal d with
                          | Some ad => ad
                          | None => mkAnimalData 100 true false 50
                          end)
     | PlantC _ => None
     end).

(** The [entity_data] of the object [i], if there is one. *)
Definition data_at (s : St) (i : oid) : option EntityData :=
  entity_data <$> heap s !! i.

(** The [entity_data] of the objects of a list, if all of them exist. *)
Fixpoint all_data (s : St) (l : list oid) : option (list EntityData) :=
  match l with
  | [] => Some []
  | i :: rest =>
      match data_at s i, all_data s rest with
      | Some d, Some ds => Some (d :: ds)
      | _, _ => None
      end
  end.

(** * Lemmas and theorems *)

(** ** Grid lemmas *)

Lemma py_index_inrange n i :
  0 <= i < Z.of_nat n -> py_index n i = Some (Z.to_nat i).
Proof.
  intros H. unfold py_index.
  destruct (0 <=? i) eqn:E1; [|lia].
  destruct (i <? Z.of_nat n) eqn:E2; [reflexivity|lia].
Qed.

Lemma py_get_inrange {A} (l : list A) i :
  0 <= i < Z.of_nat (length l) -> py_get l i = l !! Z.to_nat i.
Proof. intros H. unfold py_get. by rewrite py_index_inrange. Qed.

Lemma py_set_inrange {A} (l : list A) i v :
  0 <= i < Z.of_nat (length l) -> py_set l i v = Some (<[Z.to_nat i := v]> l).
Proof. intros H. unfold py_set. by rewrite py_index_inrange. Qed.

Lemma valid_bounds s x y :
  is_valid_position s x y = true <-> (0 <= x < height s /\ 0 <= y < width s).
Proof. unfold is_valid_position. rewrite !andb_true_iff. lia. Qed.

Lemma wf_row s x :
  wf_matrix s -> 0 <= x < height s ->
  exists row, matrix s !! Z.to_nat x = Some row /\ Z.of_nat (length row) = width s.
Proof.
  intros [Hh Hr] Hx.
  destruct (lookup_lt_is_Some_2 (matrix s) (Z.to_nat x)) as [row Hrow]; [lia|].
  exists row. split; [done|].
  rewrite Forall_forall in Hr. apply Hr. eapply list_elem_of_lookup_2. exact Hrow.
Qed.

Lemma cell_valid s x y :
  wf_matrix s -> is_valid_position s x y = true ->
  exists row c, matrix s !! Z.to_nat x = Some row /\ row !! Z.to_nat y = Some c /\
                cell s x y = Some c.
Proof.
  intros Hwf Hv. apply valid_bounds in Hv as [Hx Hy].
  destruct (wf_row s x Hwf Hx) as (row & Hrow & Hlen).
  destruct (lookup_lt_is_Some_2 row (Z.to_nat y)) as [c Hc]; [lia|].
  exists row, c. repeat split; try done.
  unfold cell. rewrite py_get_inrange by (destruct Hwf; lia).
  rewrite Hrow. rewrite py_get_inrange by lia. done.
Qed.

Lemma matrix_read_cell x y s :
  matrix_read x y s = match cell s x y with
                      | Some c => Done c s
                      | None => Raised IndexError s
                      end.
Proof.
  unfold matrix_read, cell. destruct (py_get (matrix s) x); [|done].
  by destruct (py_get l y).
Qed.

Lemma matrix_write_valid x y v s :
  wf_matrix s -> is_valid_position s x y = true ->
  exists m',
    matrix_write x y v s = Done tt (set_matrix m' s) /\
    wf_matrix (set_matrix m' s) /\
    cell (set_matrix m' s) x y = Some v /\
    (forall x' y', is_valid_position s x' y' = true -> (x', y') <> (x, y) ->
                   cell (set_matrix m' s) x' y' = cell s x' y').
Proof.
  intros Hwf Hv.
  destruct (cell_valid s x y Hwf Hv) as (row & c & Hrow & Hc & _).
  apply valid_bounds in Hv as [Hx Hy].
  pose proof Hwf as [Hh Hr].
  assert (Hlen : Z.of_nat (length row) = width s).
  { rewrite Forall_forall in Hr. apply Hr. eapply list_elem_of_lookup_2. exact Hrow. }
  exists (<[Z.to_nat x := <[Z.to_nat y := v]> row]> (matrix s)).
  split; [|split; [|split]].
  - unfold matrix_write. rewrite py_get_inrange by lia. rewrite Hrow.
    rewrite py_set_inrange by lia. rewrite py_set_inrange by lia. done.
  - split; simpl.
    + rewrite length_insert. done.
    + apply Forall_insert; [done|]. rewrite length_insert. done.
  - unfold cell. simpl. rewrite py_get_inrange by (rewrite length_insert; lia).
    rewrite list_lookup_insert_eq by lia.
    rewrite py_get_inrange by (rewrite length_insert; lia).
    rewrite list_lookup_insert_eq by lia. done.
  - intros x' y' Hv' Hne. apply valid_bounds in Hv' as [Hx' Hy'].
    unfold cell. simpl.
    rewrite !py_get_inrange by (rewrite ?length_insert; lia).
    destruct (decide (Z.to_nat x = Z.to_nat x')) as [He|He].
    + rewrite <- He. rewrite list_lookup_insert_eq by lia. rewrite Hrow.
      rewrite !py_get_inrange by (rewrite ?length_insert; lia).
      rewrite list_lookup_insert_ne; [done|].
      intros Hy'e. apply Hne. f_equal; lia.
    + rewrite list_lookup_insert_ne by done. done.
Qed.

Lemma cell_set_heap h s x y : cell (set_heap h s) x y = cell s x y.
Proof. reflexivity. Qed.

Lemma wf_matrix_set_heap h s : wf_matrix s -> wf_matrix (set_heap h s).
Proof. intros H. exact H. Qed.

Lemma valid_set_matrix m s x y :
  is_valid_position (set_matrix m s) x y = is_valid_position s x y.
Proof. reflexivity. Qed.

(** ** Moving on the grid *)

(** C9.  [move_entity] either fails and leaves the whole state as it was
    (target out of bounds or occupied), or succeeds: the target cell then
    holds the entity, the entity's position is the target, and the cell it
    came from is empty. *)
Theorem move_entity_atomic (s : St) (entity : oid) (e : Entity) (new_x new_y : Z) :
  wf_matrix s ->
  heap s !! entity = Some e ->
  is_valid_position s (fst (position e)) (snd (position e)) = true ->
  ((is_valid_position s new_x new_y = false \/
    (exists o, cell s new_x new_y = Some (Some o))) ->
   move_entity entity (new_x, new_y) s = Done false s) /\
  (is_valid_position s new_x new_y = true ->
   cell s new_x new_y = Some None ->
   exists s',
     move_entity entity (new_x, new_y) s = Done true s' /\
     cell s' new_x new_y = Some (Some entity) /\
     position <$> heap s' !! entity = Some (new_x, new_y) /\
     (position e <> (new_x, new_y) ->
      cell s' (fst (position e)) (snd (position e)) = Some None) /\
     (cell s (fst (position e)) (snd (position e)) = Some (Some entity) ->
      cell s' (fst (position e)) (snd (position e)) = Some None)).
Proof.
  intros Hwf Hheap Hold. split.
  - intros Hfail. unfold move_entity, bind, load. rewrite Hheap.
    destruct (position e) as [old_x old_y]. unfold gets.
    destruct (is_valid_position s new_x new_y) eqn:Hv; [|reflexivity].
    destruct Hfail as [Hf|[o Ho]]; [discriminate|].
    rewrite matrix_read_cell, Ho. reflexivity.
  - intros Hv Hfree.
    destruct (position e) as [old_x old_y] eqn:Hpos. simpl in Hold |- *.
    destruct (matrix_write_valid old_x old_y None s Hwf Hold)
      as (m1 & Hw1 & Hwf1 & Hc1 & Hother1).
    set (s1 := set_matrix m1 s) in *.
    set (s2 := set_heap (<[entity := set_position (new_x, new_y) e]> (heap s1)) s1).
    assert (Hwf2 : wf_matrix s2) by exact Hwf1.
    assert (Hv2 : is_valid_position s2 new_x new_y = true) by exact Hv.
    destruct (matrix_write_valid new_x new_y (Some entity) s2 Hwf2 Hv2)
      as (m3 & Hw3 & Hwf3 & Hc3 & Hother3).
    exists (set_matrix m3 s2).
    assert (Hvac : (old_x, old_y) <> (new_x, new_y) ->
                   cell (set_matrix m3 s2) old_x old_y = Some None).
    { intros Hne. rewrite Hother3; [exact Hc1|exact Hold|exact Hne]. }
    split; [|split; [|split; [|split]]].
    + unfold move_entity, bind, load. rewrite Hheap, Hpos. unfold gets.
      rewrite Hv, matrix_read_cell, Hfree. rewrite Hw1.
      unfold update_entity, bind, load. fold s1.
      change (heap s1) with (heap s). rewrite Hheap.
      unfold store, modify. change (set_heap _ s1) with s2. rewrite Hw3. reflexivity.
    + exact Hc3.
    + simpl. rewrite lookup_insert_eq. simpl.
      destruct e; reflexivity.
    + exact Hvac.
    + intros Hocc. apply Hvac. intros Heq. inversion Heq; subst.
      rewrite Hocc in Hfree. discriminate.
Qed.

(** ** Frame rules *)

Section Keeps.
Variable R : St -> St -> Prop.
Hypothesis R_refl : forall s, R s s.
Hypothesis R_trans : forall s1 s2 s3, R s1 s2 -> R s2 s3 -> R s1 s3.

Lemma keeps_ret {A} (a : A) : keeps R (ret a).
Proof. intros s a' s' H. inversion H; subst. apply R_refl. Qed.

Lemma keeps_raise {A} e : keeps R (@raise St A e).
Proof. intros s a s' H. discriminate. Qed.

Lemma keeps_gets {A} (f : St -> A) : keeps R (gets f).
Proof. intros s a s' H. inversion H; subst. apply R_refl. Qed.

Lemma keeps_bind {A B} (c : Py A) (k : A -> Py B) :
  keeps R c -> (forall a, keeps R (k a)) -> keeps R (bind c k).
Proof.
  intros Hc Hk s b s' H. unfold bind in H.
  destruct (c s) as [a s1|] eqn:E; [|discriminate].
  eapply R_trans; [eapply Hc; eauto | eapply Hk; eauto].
Qed.

Lemma keeps_for_each {A} (l : list A) (body : A -> Py unit) :
  (forall x, keeps R (body x)) -> keeps R (for_each l body).
Proof.
  intros Hb. induction l as [|x l IH]; simpl.
  - apply keeps_ret.
  - apply keeps_bind; [apply Hb | intros _; exact IH].
Qed.

Lemma keeps_modify (f : St -> St) :
  (forall s, R s (f s)) -> keeps R (modify f).
Proof. intros Hf s a s' H. inversion H; subst. apply Hf. Qed.

Lemma keeps_call_bound {A} params nargs (body : Py A) :
  keeps R body -> keeps R (call_bound params nargs body).
Proof.
  intros Hb. unfold call_bound. destruct (Nat.eqb params (S nargs)); [exact Hb|].
  apply keeps_raise.
Qed.

End Keeps.

Ltac keeps_step refl trans :=
  match goal with
  | |- keeps _ (bind _ _) => apply (keeps_bind _ trans); [ | intros ?]
  | |- keeps _ (ret _) => apply (keeps_ret _ refl)
  | |- keeps _ (raise _) => apply keeps_raise
  | |- keeps _ (gets _) => apply (keeps_gets _ refl)
  | |- keeps _ (call_bound _ _ _) => apply keeps_call_bound
  | |- keeps _ (for_each _ _) => apply (keeps_for_each _ refl trans); intros ?
  | |- keeps _ (if ?b then _ else _) => destruct b
  | |- keeps _ (match ?x with _ => _ end) => destruct x
  end.

(** ** What an update leaves alone

    The lemmas of this section hold for every relation between states that
    is reflexive and transitive, that no change of the oracle, of the grid,
    of the live list or of a group list breaks, nor the creation of an
    object, nor an assignment to an attribute that keeps the class and the
    marks of the self-modification. *)

Section Frame.
Variable R : St -> St -> Prop.
Hypothesis R_refl : forall s, R s s.
Hypothesis R_trans : forall s1 s2 s3, R s1 s2 -> R s2 s3 -> R s1 s3.
Hypothesis R_rng : forall s v, R s (set_rng v s).
Hypothesis R_matrix : forall s v, R s (set_matrix v s).
Hypothesis R_entities : forall s v, R s (set_entities v s).
Hypothesis R_glists : forall s v, R s (set_glists v s).
Hypothesis R_update : forall s i e e',
  heap s !! i = Some e -> entity_le e e' -> R s (set_heap (<[i := e']> (heap s)) s).
Hypothesis R_alloc : forall s i e,
  heap s !! i = None -> R s (set_heap (<[i := e]> (heap s)) s).

Lemma frame_random : keeps R random.
Proof.
  intros s a s' H. unfold random in H.
  destruct (floats (rng s)); inversion H; subst; auto.
Qed.

Lemma frame_next_int : keeps R next_int.
Proof.
  intros s a s' H. unfold next_int in H.
  destruct (ints (rng s)); inversion H; subst; auto.
Qed.

Lemma frame_move_delta : keeps R move_delta.
Proof.
  intros s a s' H. unfold move_delta in H.
  destruct (delta_loop (ints (rng s))). inversion H; subst. auto.
Qed.

Lemma frame_load i : keeps R (load i).
Proof. intros s a s' H. unfold load in H. destruct (heap s !! i); inversion H; subst. auto. Qed.

Lemma frame_read_list g : keeps R (read_list g).
Proof.
  intros s a s' H. unfold read_list in H.
  destruct (glists s !! g); inversion H; subst. auto.
Qed.

Lemma frame_matrix_read x y : keeps R (matrix_read x y).
Proof.
  intros s a s' H. rewrite matrix_read_cell in H.
  destruct (cell s x y); inversion H; subst. auto.
Qed.

Lemma frame_matrix_write x y v : keeps R (matrix_write x y v).
Proof.
  intros s a s' H. unfold matrix_write in H.
  destruct (py_get (matrix s) x); [|discriminate].
  destruct (py_set l y v); [|discriminate].
  destruct (py_set (matrix s) x l0); inversion H; subst. auto.
Qed.

Lemma fresh_unused (h : gmap oid Entity) : h !! fresh (dom h) = None.
Proof. apply not_elem_of_dom. apply is_fresh. Qed.

Lemma frame_alloc e : keeps R (alloc e).
Proof. intros s a s' H. inversion H; subst. apply R_alloc. apply fresh_unused. Qed.

Lemma frame_write_list g l : keeps R (write_list g l).
Proof. apply keeps_modify. intros s. apply R_glists. Qed.

Lemma frame_set_entities (f : St -> list oid) :
  keeps R (modify (fun s => set_entities (f s) s)).
Proof. apply keeps_modify. intros s. apply R_entities. Qed.

Lemma frame_update_entity i f :
  (forall e, entity_le e (f e)) -> keeps R (update_entity i f).
Proof.
  intros Hf s a s' H. unfold update_entity, bind, load in H.
  destruct (heap s !! i) as [e|] eqn:E; [|discriminate].
  inversion H; subst. eapply R_update; eauto.
Qed.

Lemma frame_update_animal i f :
  (forall a, entity_le (EAnimal a) (EAnimal (f a))) -> keeps R (update_animal i f).
Proof.
  intros Hf s a s' H. unfold update_animal, load_animal, bind, load in H.
  destruct (heap s !! i) as [[an|p]|] eqn:E; try discriminate.
  inversion H; subst. eapply R_update; eauto.
Qed.

Lemma frame_update_plant i f :
  (forall p, entity_le (EPlant p) (EPlant (f p))) -> keeps R (update_plant i f).
Proof.
  intros Hf s a s' H. unfold update_plant, load_plant, bind, load in H.
  destruct (heap s !! i) as [[an|p]|] eqn:E; try discriminate.
  inversion H; subst. eapply R_update; eauto.
Qed.

Lemma frame_new_animal cls pos : keeps R (new_animal cls pos).
Proof.
  intros s a s' H. unfold new_animal, alloc in H. inversion H; subst.
  eapply R_trans; [apply R_alloc; apply fresh_unused | apply R_glists].
Qed.

#[local] Hint Resolve frame_random frame_next_int frame_move_delta frame_load
  frame_read_list frame_matrix_read frame_matrix_write frame_alloc frame_write_list
  frame_set_entities frame_new_animal : core.

Ltac mark_kept :=
  let x := fresh in
  intros x; destruct x; simpl; repeat split; auto.

Ltac frame :=
  repeat (first
    [ keeps_step R_refl R_trans
    | apply frame_update_animal; mark_kept
    | apply frame_update_plant; mark_kept
    | apply frame_update_entity; mark_kept
    | solve [eauto] ]).

Lemma frame_load_animal i : keeps R (load_animal i).
Proof. unfold load_animal. frame. Qed.

Lemma frame_load_plant i : keeps R (load_plant i).
Proof. unfold load_plant. frame. Qed.

Lemma frame_randint a b : keeps R (randint a b).
Proof. unfold randint. frame. Qed.

Lemma frame_choice {A} (l : list A) : keeps R (choice l).
Proof. unfold choice. frame. Qed.

#[local] Hint Resolve frame_load_animal frame_load_plant frame_randint frame_choice : core.

Lemma frame_nearby_loop x y offs acc : keeps R (nearby_loop x y offs acc).
Proof.
  revert acc. induction offs as [|[dx dy] rest IH]; intros acc; simpl; frame.
Qed.

Lemma frame_get_nearby_objects pos r : keeps R (get_nearby_objects pos r).
Proof. destruct pos. apply frame_nearby_loop. Qed.

Lemma frame_free_cells_loop x y offs acc : keeps R (free_cells_loop x y offs acc).
Proof.
  revert acc. induction offs as [|[dx dy] rest IH]; intros acc; simpl; frame.
Qed.

Lemma frame_get_free_adjacent_cells pos : keeps R (get_free_adjacent_cells pos).
Proof. destruct pos. apply frame_free_cells_loop. Qed.

#[local] Hint Resolve frame_get_nearby_objects frame_get_free_adjacent_cells : core.

Lemma frame_add_entity i : keeps R (add_entity i).
Proof. unfold add_entity. frame. Qed.

Lemma frame_delete_unit i : keeps R (delete_unit i).
Proof. unfold delete_unit. frame. Qed.

Lemma frame_remove_group_body i : keeps R (remove_group_body i).
Proof. unfold remove_group_body. frame. Qed.

#[local] Hint Resolve frame_add_entity frame_delete_unit frame_remove_group_body : core.

Lemma frame_remove_group g : keeps R (remove_group g).
Proof. unfold remove_group. frame. Qed.

Lemma frame_move_entity i p : keeps R (move_entity i p).
Proof. unfold move_entity. destruct p. frame. Qed.

#[local] Hint Resolve frame_remove_group frame_move_entity : core.

Lemma frame_eat_loop self b targets : keeps R (eat_loop self b targets).
Proof. induction targets as [|t rest IH]; simpl; frame. Qed.

Lemma frame_eat cls self d : keeps R (eat cls self d).
Proof. unfold eat. frame. apply frame_eat_loop. Qed.

Lemma frame_move self : keeps R (move self).
Proof. unfold move, relocate_unit, decrease_food. frame. Qed.

Lemma frame_absorb self entity : keeps R (absorb self entity).
Proof. unfold absorb. frame. Qed.

#[local] Hint Resolve frame_eat frame_move frame_absorb : core.

Lemma frame_merge_loop self l : keeps R (merge_loop self l).
Proof. induction l as [|e rest IH]; simpl; frame. Qed.

Lemma frame_predatory_loop self l : keeps R (predatory_loop self l).
Proof. induction l as [|e rest IH]; simpl; frame. Qed.

Lemma frame_aggressive_eat_loop self l : keeps R (aggressive_eat_loop self l).
Proof. induction l as [|e rest IH]; simpl; frame. Qed.

#[local] Hint Resolve frame_merge_loop frame_predatory_loop frame_aggressive_eat_loop : core.

Lemma frame_check_self_modification self : keeps R (check_self_modification self).
Proof. unfold check_self_modification. frame. Qed.

Lemma frame_animal_update_state self d : keeps R (animal_update_state self d).
Proof.
  unfold animal_update_state, change_active_status, change_hungry_status,
    change_speed_status, check_self_modification, call_try_merge_groups, call_eat,
    try_reproduce, reproduce, try_merge_groups, predatory_merge, aggressive_eat.
  frame.
Qed.

Lemma frame_new_plant cls pos : keeps R (new_plant cls pos).
Proof. unfold new_plant. frame. Qed.

#[local] Hint Resolve frame_new_plant : core.

Lemma frame_plant_update_state self d : keeps R (plant_update_state self d).
Proof.
  unfold plant_update_state, plant_check_self_modification, grow, try_spread, spread,
    aggressive_spread.
  frame.
Qed.

Lemma frame_update_state i d : keeps R (update_state i d).
Proof.
  unfold update_state. frame.
  - apply frame_animal_update_state.
  - apply frame_plant_update_state.
Qed.

End Frame.

(** ** The clock is only moved by the scheduler *)

Lemma same_clock_refl s : same_clock s s.
Proof. by repeat split. Qed.

Lemma same_clock_trans s1 s2 s3 :
  same_clock s1 s2 -> same_clock s2 s3 -> same_clock s1 s3.
Proof. intros (?&?&?) (?&?&?). repeat split; congruence. Qed.

Lemma clock_update_state i d : keeps same_clock (update_state i d).
Proof.
  apply frame_update_state;
    first [ exact same_clock_refl | exact same_clock_trans | intros; by repeat split ].
Qed.

(** ** The scheduler *)

Lemma for_each_updates d l s s' :
  for_each l (fun entity => update_state entity d) s = Done tt s' <-> updates d l s s'.
Proof.
  revert s. induction l as [|i l IH]; intros s; simpl.
  - split.
    + intros H. inversion H; subst. constructor.
    + intros H. inversion H; subst. reflexivity.
  - unfold bind. split.
    + intros H. destruct (update_state i d s) as [[] s1|] eqn:E; [|discriminate].
      econstructor; [exact E | apply IH; exact H].
    + intros H. inversion H; subst.
      match goal with E : update_state _ _ _ = _ |- _ => rewrite E end.
      apply IH. assumption.
Qed.

Lemma updates_same_clock d l s s' : updates d l s s' -> same_clock s s'.
Proof.
  induction 1 as [s|i l s s1 s2 Hu _ IH].
  - apply same_clock_refl.
  - eapply same_clock_trans; [|exact IH]. eapply clock_update_state; exact Hu.
Qed.

(** C1, as the code has it.  [process_tick] returns exactly when the
    updates of the entities that were live at its start, taken in the order
    of the live list and whether or not they are still live when their turn
    comes, all return; entities added meanwhile are not among them; the
    clock is then advanced once: the counter grows by one and the phase is
    the one the counter designates in the cycle. *)
Theorem process_tick_updates_snapshot (s s' : St) :
  process_tick s = Done tt s' <->
  exists s1,
    updates (current_time (time s)) (entities s) s s1 /\
    s' = set_time (change_time (time s)) s1 /\
    tick_counter (time s') = tick_counter (time s) + 1 /\
    current_time (time s') =
      nth (Z.to_nat ((tick_counter (time s) + 1) mod 4)) cycle "morning".
Proof.
  split.
  - intros H. unfold process_tick, bind, gets, get_time in H.
    destruct (for_each (entities s) _ s) as [[] s1|] eqn:E; [|discriminate].
    apply for_each_updates in E.
    pose proof (updates_same_clock _ _ _ _ E) as (Ht & _ & _).
    unfold modify in H. inversion H; subst s'. rewrite Ht.
    exists s1. repeat split; try assumption.
  - intros (s1 & H & -> & _).
    pose proof (updates_same_clock _ _ _ _ H) as (Ht & _ & _).
    apply for_each_updates in H.
    unfold process_tick, bind, gets, get_time. rewrite H. unfold modify.
    rewrite Ht. reflexivity.
Qed.

(** ** The run on the grid of one row *)

Lemma scenario_spawn :
  exists s1,
    initial_spawn (AnimalC Malheureux) 1 (World 5 1 40 scenario_rng) = Some (Done tt s1) /\
    initial_spawn (AnimalC Pauvre) 2 s1 = Some (Done tt scenario).
Proof.
  exists (spawned (initial_spawn (AnimalC Malheureux) 1 (World 5 1 40 scenario_rng))
                  (World 5 1 40 scenario_rng)).
  split; vm_compute; reflexivity.
Qed.

Lemma scenario_reachable : reachable scenario.
Proof.
  destruct scenario_spawn as (s1 & H1 & H2).
  eapply reach_spawn; [|exact H2]. eapply reach_spawn; [|exact H1]. constructor.
Qed.

Lemma scenario_tick_returns :
  process_tick scenario = Done tt (state_of (process_tick scenario)).
Proof. vm_compute. reflexivity. Qed.

Lemma scenario_consistent : grid_consistent scenario.
Proof.
  split.
  - intros i Hi. change (entities scenario) with [0; 1; 2]%nat in Hi.
    repeat (apply elem_of_cons in Hi as [->|Hi]); [| | |by apply elem_of_nil in Hi];
      eexists; (split; [vm_compute; reflexivity | vm_compute; reflexivity]).
  - intros i j ei ej Hi Hj. change (entities scenario) with [0; 1; 2]%nat in Hi, Hj.
    repeat (apply elem_of_cons in Hi as [->|Hi]); [| | |by apply elem_of_nil in Hi];
      (repeat (apply elem_of_cons in Hj as [->|Hj]); [| | |by apply elem_of_nil in Hj]);
      first [reflexivity
            | vm_compute; intros H1 H2 H3; inversion H1; inversion H2; subst ei ej;
              vm_compute in H3; discriminate].
Qed.

(** C1, as the specification words it, fails.  In the run above the first
    update removes the entity 2 from the live list; two updates later the
    scheduler still updates it: after the tick its position is (0, 4), no
    longer the (0, 3) it had when it was removed, and the grid holds it
    again.  The scheduler of the specification leaves it where it was. *)
Lemma process_tick_updates_removed_entity :
  let s2 := state_of (for_each [0; 1]%nat (fun i => update_state i "morning") scenario) in
  let s3 := state_of (process_tick scenario) in
  let s3' := state_of (spec_process_tick scenario) in
  entities scenario = [0; 1; 2]%nat /\
  py_in 2 (entities s2) = false /\
  position <$> heap s2 !! 2%nat = Some (0, 3) /\
  returned (process_tick scenario) = true /\
  position <$> heap s3 !! 2%nat = Some (0, 4) /\
  cell s3 0 4 = Some (Some 2%nat) /\
  returned (spec_process_tick scenario) = true /\
  position <$> heap s3' !! 2%nat = Some (0, 3) /\
  cell s3' 0 4 = Some None.
Proof. vm_compute. repeat split. Qed.

Lemma process_tick_updates_snapshot_witness :
  process_tick scenario = Done tt (state_of (process_tick scenario)) /\
  tick_counter (time (state_of (process_tick scenario))) = 1 /\
  current_time (time (state_of (process_tick scenario))) = "day".
Proof.
  destruct (proj1 (process_tick_updates_snapshot scenario _) scenario_tick_returns)
    as (s1 & _ & _ & Hc & Hp).
  split; [exact scenario_tick_returns|]. split; [exact Hc | exact Hp].
Defined.

(** C10 fails on the code.  The world of the run above is reachable and
    consistent; the state its first tick leaves is not: the entity 1 is
    live, its position is (0, 3), and that cell is empty.  The entity 2,
    removed earlier in the tick and updated all the same, emptied the cell
    when it moved away from (0, 3), where the entity 1 had arrived. *)
Theorem grid_invariant_broken_by_tick :
  exists s s',
    reachable s /\ grid_consistent s /\
    process_tick s = Done tt s' /\ reachable s' /\
    ~ grid_consistent s'.
Proof.
  exists scenario, (state_of (process_tick scenario)).
  split; [exact scenario_reachable|]. split; [exact scenario_consistent|].
  split; [exact scenario_tick_returns|].
  split; [eapply reach_tick; [exact scenario_reachable | exact scenario_tick_returns]|].
  intros [Hocc _].
  destruct (Hocc 1%nat) as (e & He & Hc).
  - change (entities (state_of (process_tick scenario))) with [0; 1]%nat.
    apply elem_of_cons. right. apply elem_of_cons. by left.
  - vm_compute in He. inversion He; subst e. vm_compute in Hc. discriminate.
Qed.

Lemma move_entity_atomic_witness :
  exists s',
    move_entity 0%nat (0, 1) scenario = Done true s' /\
    cell s' 0 1 = Some (Some 0%nat) /\
    position <$> heap s' !! 0%nat = Some (0, 1) /\
    cell s' 0 0 = Some None.
Proof.
  destruct (move_entity_atomic scenario 0%nat
              (EAnimal (mkAnimal Malheureux (0, 0) 100 100 true false 0%nat
                                 false false false false)) 0 1) as [_ Hs].
  - split; vm_compute; [reflexivity | repeat constructor].
  - vm_compute. reflexivity.
  - reflexivity.
  - destruct Hs as (s' & Hm & Hc & Hp & Hne & _); [reflexivity | vm_compute; reflexivity |].
    exists s'. repeat split; [exact Hm | exact Hc | exact Hp | apply Hne; discriminate].
Defined.

(** ** Placing on the grid *)

(** C3, as the code has it.  [add_entity] tests nothing and returns
    nothing: for an entity whose position lies inside the grid it binds the
    cell to the entity and appends the entity to the live list, whatever the
    cell held before; the other cells, the store and the rest of the live
    list are as they were. *)
Theorem add_entity_binds_unconditionally (s : St) (i : oid) (e : Entity) :
  wf_matrix s ->
  heap s !! i = Some e ->
  is_valid_position s (fst (position e)) (snd (position e)) = true ->
  exists s',
    add_entity i s = Done tt s' /\
    cell s' (fst (position e)) (snd (position e)) = Some (Some i) /\
    entities s' = entities s ++ [i] /\
    heap s' = heap s /\
    (forall x y, is_valid_position s x y = true ->
                 (x, y) <> (fst (position e), snd (position e)) ->
                 cell s' x y = cell s x y).
Proof.
  intros Hwf Hheap Hv.
  destruct (matrix_write_valid _ _ (Some i) s Hwf Hv) as (m' & Hw & _ & Hc & Hother).
  exists (set_entities (entities s ++ [i]) (set_matrix m' s)).
  split; [|repeat split; assumption].
  unfold add_entity, bind, load. rewrite Hheap, Hw. reflexivity.
Qed.

(** C3, as the specification words it, fails: placing on an occupied cell
    is not a refused no-op.  The cell (0, 0) holds the plant 0; [add_entity]
    of the plant 1, built for the same position, returns normally, the cell
    then holds the plant 1 and the live list has both. *)
Lemma add_entity_overwrites_occupied_cell :
  returned (second_plant (World 2 2 1 (mkRng [] []))) = true /\
  position <$> heap occupied_world !! 1%nat = Some (0, 0) /\
  cell occupied_world 0 0 = Some (Some 0%nat) /\
  entities occupied_world = [0%nat] /\
  returned (add_entity 1%nat occupied_world) = true /\
  cell (state_of (add_entity 1%nat occupied_world)) 0 0 = Some (Some 1%nat) /\
  entities (state_of (add_entity 1%nat occupied_world)) = [0; 1]%nat.
Proof. vm_compute. repeat split. Qed.

Lemma add_entity_binds_unconditionally_witness :
  cell occupied_world 0 0 = Some (Some 0%nat) /\
  exists s',
    add_entity 1%nat occupied_world = Done tt s' /\
    cell s' 0 0 = Some (Some 1%nat) /\
    entities s' = [0; 1]%nat.
Proof.
  split; [vm_compute; reflexivity|].
  destruct (add_entity_binds_unconditionally occupied_world 1%nat
              (EPlant (mkPlant Lumiere (0, 0) ["day"] [PlantC Obscurite; PlantC Demi]
                               0 false false)))
    as (s' & Ha & Hc & He & _).
  - split; vm_compute; [reflexivity | repeat constructor].
  - vm_compute. reflexivity.
  - reflexivity.
  - exists s'. repeat split; [exact Ha | exact Hc | exact He].
Defined.

(** ** Self-modification is one-way *)

Lemma entity_le_refl e : entity_le e e.
Proof. destruct e; simpl; repeat split; auto. Qed.

Lemma entity_le_trans e1 e2 e3 : entity_le e1 e2 -> entity_le e2 e3 -> entity_le e1 e3.
Proof.
  destruct e1, e2, e3; simpl; try tauto.
  - intros (?&?&?&?&?) (?&?&?&?&?). repeat split; auto; congruence.
  - intros (?&?&?) (?&?&?). repeat split; auto; congruence.
Qed.

Lemma mutation_kept_refl s : mutation_kept s s.
Proof. intros i e H. exists e. split; [done | apply entity_le_refl]. Qed.

Lemma mutation_kept_trans s1 s2 s3 :
  mutation_kept s1 s2 -> mutation_kept s2 s3 -> mutation_kept s1 s3.
Proof.
  intros H12 H23 i e H. destruct (H12 i e H) as (e2 & H2 & L2).
  destruct (H23 i e2 H2) as (e3 & H3 & L3).
  exists e3. split; [done | eapply entity_le_trans; eauto].
Qed.

Lemma mutation_kept_same_heap s s' : heap s' = heap s -> mutation_kept s s'.
Proof. intros Hh i e H. exists e. rewrite Hh. split; [done | apply entity_le_refl]. Qed.

Lemma mutation_kept_update s i e e' :
  heap s !! i = Some e -> entity_le e e' ->
  mutation_kept s (set_heap (<[i := e']> (heap s)) s).
Proof.
  intros Hi Hle j ej Hj. simpl. destruct (decide (i = j)) as [->|Hne].
  - rewrite lookup_insert_eq. exists e'. split; [done|]. congruence.
  - rewrite lookup_insert_ne by done. exists ej. split; [done | apply entity_le_refl].
Qed.

Lemma mutation_kept_alloc s i e :
  heap s !! i = None -> mutation_kept s (set_heap (<[i := e]> (heap s)) s).
Proof.
  intros Hi j ej Hj. simpl. destruct (decide (i = j)) as [->|Hne]; [congruence|].
  rewrite lookup_insert_ne by done. exists ej. split; [done | apply entity_le_refl].
Qed.

Lemma kept_update_state i d : keeps mutation_kept (update_state i d).
Proof.
  apply frame_update_state;
    first [ exact mutation_kept_refl | exact mutation_kept_trans
          | exact mutation_kept_update | exact mutation_kept_alloc
          | intros; by apply mutation_kept_same_heap ].
Qed.

Lemma kept_process_tick : keeps mutation_kept process_tick.
Proof.
  unfold process_tick.
  repeat (first [ keeps_step mutation_kept_refl mutation_kept_trans
                | apply kept_update_state ]).
  apply keeps_modify. intros s. by apply mutation_kept_same_heap.
Qed.

Lemma check_entity_returns s self e day_time :
  heap s !! self = Some e -> group_known s e ->
  exists s1,
    check_entity self day_time s = Done tt s1 /\
    (is_mutated e = true -> s1 = s) /\
    (s1 = s \/ exists e1, s1 = set_heap (<[self := e1]> (heap s)) s /\
                          is_mutated e1 = true /\ entity_le e e1 /\ group_known s1 e1).
Proof.
  intros Hheap Hg. unfold check_entity, bind, load. rewrite Hheap.
  destruct e as [a|p].
  - unfold check_self_modification, bind, load_animal, bind, load. rewrite Hheap.
    simpl. destruct (a_cls a) eqn:Hcls.
    + destruct Hg as [members Hm]. unfold read_list. rewrite Hm.
      destruct ((5 <? Z.of_nat (length members)) && negb (has_is_predatory a)) eqn:Hc.
      * unfold update_animal, load_animal, bind, load. rewrite Hheap. eexists.
        split; [reflexivity|]. split.
        -- simpl. rewrite ?Hcls. intros Hp. rewrite Hp, andb_false_r in Hc. discriminate.
        -- right. eexists. split; [reflexivity|]. simpl. rewrite ?Hcls.
           repeat split; auto; by exists members.
      * exists s. split; [reflexivity|]. split; [done | by left].
    + destruct (is_hungry a && (food a <? 10) && negb (has_is_aggressive a)) eqn:Hc.
      * unfold update_animal, load_animal, bind, load. rewrite Hheap. eexists.
        split; [reflexivity|]. split.
        -- simpl. rewrite ?Hcls. intros Hp. rewrite Hp, andb_false_r in Hc. discriminate.
        -- right. eexists. split; [reflexivity|]. simpl. rewrite ?Hcls.
           repeat split; auto.
      * exists s. split; [reflexivity|]. split; [done | by left].
  - unfold plant_check_self_modification, bind, load_plant, bind, load. rewrite Hheap.
    simpl.
    destruct ((3 <=? failed_growth_ticks p) && negb (p_has_is_aggressive p)) eqn:Hc.
    + unfold update_plant, load_plant, bind, load. rewrite Hheap. eexists.
      split; [reflexivity|]. split.
      * intros Hp. rewrite Hp, andb_false_r in Hc. discriminate.
      * right. eexists. split; [reflexivity|]. simpl. repeat split; auto.
    + exists s. split; [reflexivity|]. split; [done | by left].
Qed.

Lemma call_eat_of_instance s self a day_time :
  heap s !! self = Some (EAnimal a) -> inst_eat a = true ->
  call_eat self day_time s = call_bound 2 2 (aggressive_eat self day_time) s.
Proof.
  intros Hheap Hi. unfold call_eat, bind, load_animal, bind, load.
  rewrite Hheap. simpl. rewrite Hi. reflexivity.
Qed.

(** ** The starving Pauvre *)

Lemma ticks_reachable n s s' :
  reachable s -> ticks n s = Done tt s' -> reachable s'.
Proof.
  revert s. induction n as [|n IH]; intros s Hs; cbn [ticks].
  - intros H. inversion H; subst s'. exact Hs.
  - unfold bind. destruct (process_tick s) as [[] s1|e s1] eqn:Ht; [|discriminate].
    apply IH. eapply reach_tick; [exact Hs | exact Ht].
Qed.

Lemma famine_spawn :
  exists s1,
    initial_spawn (AnimalC Pauvre) 1 (World 5 1 1000 famine_rng) = Some (Done tt s1) /\
    initial_spawn (PlantC Lumiere) 1 s1 = Some (Done tt famine_start).
Proof.
  exists (spawned (initial_spawn (AnimalC Pauvre) 1 (World 5 1 1000 famine_rng))
                  (World 5 1 1000 famine_rng)).
  split; vm_compute; reflexivity.
Qed.

Lemma famine_reachable : reachable famine.
Proof.
  apply (ticks_reachable 121 famine_start famine).
  - destruct famine_spawn as (s1 & H1 & H2).
    eapply reach_spawn; [|exact H2]. eapply reach_spawn; [|exact H1]. constructor.
  - vm_compute. reflexivity.
Qed.

(** C8 fails on the code.  The world of the starving Pauvre is reachable:
    after 121 ticks the phase is day and the Pauvre, hungry, has 9 units of
    food left and no mark.  In its next update the check marks it and
    replaces its [eat]; a second check changes nothing.  The update then
    calls the replaced [eat], and the call raises TypeError before the body
    of [aggressive_eat] runs: the update raises, and the tick with it.
    Every later call of the [eat] of a marked animal raises in the same
    way, whatever the phase, the state and the hunger of the animal.  The
    body, had it been reached, would have scanned the neighbours without a
    look at the table of the phase, eaten the Lumiere two cells away on the
    draw 1/10 and added 20 units of food. *)
Theorem aggressive_eat_attempt_raises :
  let s := state_of (famine_before_eat famine) in
  reachable famine /\
  current_time (time famine) = "day" /\
  heap famine !! 0%nat
  = Some (EAnimal (mkAnimal Pauvre (0, 1) 50 9 true true 0%nat
                            false false false false)) /\
  returned (famine_before_eat famine) = true /\
  heap s !! 0%nat
  = Some (EAnimal (mkAnimal Pauvre (0, 2) 50 8 true true 0%nat
                            false false true true)) /\
  check_self_modification 0%nat s = Done tt s /\
  call_eat 0%nat "day" s = Raised TypeError s /\
  animal_update_state 0%nat "day" famine = Raised TypeError s /\
  process_tick famine = Raised TypeError s /\
  (forall (d : string) (s' : St) (a' : Animal),
     heap s' !! 0%nat = Some (EAnimal a') -> inst_eat a' = true ->
     call_eat 0%nat d s' = Raised TypeError s') /\
  entities s = [0; 1]%nat /\
  cell s 0 4 = Some (Some 1%nat) /\
  entities (state_of (aggressive_eat 0%nat "day" s)) = [0%nat] /\
  cell (state_of (aggressive_eat 0%nat "day" s)) 0 4 = Some None /\
  food_of (state_of (aggressive_eat 0%nat "day" s)) 0%nat = Some 28.
Proof.
  intros s.
  split; [exact famine_reachable|].
  split; [vm_compute; reflexivity|].
  split; [vm_compute; reflexivity|].
  split; [vm_compute; reflexivity|].
  split; [vm_compute; reflexivity|].
  split; [vm_compute; reflexivity|].
  split; [vm_compute; reflexivity|].
  split; [vm_compute; reflexivity|].
  split; [vm_compute; reflexivity|].
  split.
  { intros d s' a' Hh Hi. rewrite (call_eat_of_instance s' 0%nat a' d Hh Hi). reflexivity. }
  split; [vm_compute; reflexivity|].
  split; [vm_compute; reflexivity|].
  split; [vm_compute; reflexivity|].
  split; vm_compute; reflexivity.
Qed.

(** ** The replaced methods *)

(** An animal that carries its own [try_merge_groups] cannot merge: the call
    raises TypeError before the body of [predatory_merge] runs, and nothing
    has changed. *)
Lemma call_try_merge_groups_raises (s : St) (self : oid) (a : Animal) :
  heap s !! self = Some (EAnimal a) ->
  inst_try_merge_groups a = true ->
  call_try_merge_groups self s = Raised TypeError s.
Proof.
  intros Hheap Hi. unfold call_try_merge_groups, bind, load_animal, bind, load.
  rewrite Hheap. simpl. rewrite Hi. reflexivity.
Qed.

(** C7 fails on the code.  In the world of eight Malheureux the object 0
    has a group of six; its check makes it predatory.  Its neighbour, the
    object 6, has a group of two, so the merge should absorb it without a
    draw.  The merge attempt raises TypeError instead and changes nothing,
    and the whole update of the object 0 raises with it.  The body of
    [predatory_merge], had it been reached, would have extended the group to
    eight members. *)
Theorem predatory_merge_attempt_raises :
  returned (pack_setup (World 10 10 40 (mkRng [] []))) = true /\
  glists pack_world !! 0%nat = Some [0; 1; 2; 3; 4; 5]%nat /\
  glists pack_world !! 6%nat = Some [6; 7]%nat /\
  (has_is_predatory <$> (heap pack_mutated !! 0%nat ≫= fun e =>
     match e with EAnimal a => Some a | EPlant _ => None end)) = Some true /\
  get_nearby_objects (5, 5) 2 pack_mutated = Done [6%nat] pack_mutated /\
  call_try_merge_groups 0%nat pack_mutated = Raised TypeError pack_mutated /\
  animal_update_state 0%nat "morning" pack_world
    = Raised TypeError (state_of (animal_update_state 0%nat "morning" pack_world)) /\
  entities (state_of (animal_update_state 0%nat "morning" pack_world))
    = entities pack_world /\
  glists (state_of (animal_update_state 0%nat "morning" pack_world))
    = glists pack_world /\
  glists (state_of (predatory_merge 0%nat pack_mutated)) !! 0%nat
    = Some [0; 1; 2; 3; 4; 5; 6; 7]%nat.
Proof.
  split; [vm_compute; reflexivity|].
  split; [vm_compute; reflexivity|].
  split; [vm_compute; reflexivity|].
  split; [vm_compute; reflexivity|].
  split; [vm_compute; reflexivity|].
  split.
  { eapply call_try_merge_groups_raises; [vm_compute; reflexivity | reflexivity]. }
  split; [vm_compute; reflexivity|].
  split; [vm_compute; reflexivity|].
  split; [vm_compute; reflexivity|].
  vm_compute; reflexivity.
Qed.

(** ** Reading the grid changes nothing *)

Lemma free_cells_loop_returns x y offs acc s :
  wf_matrix s -> exists cells, free_cells_loop x y offs acc s = Done cells s.
Proof.
  intros Hwf. revert acc. induction offs as [|[dx dy] rest IH]; intros acc; simpl.
  - by exists acc.
  - destruct ((dx =? 0) && (dy =? 0)); [apply IH|].
    unfold bind, gets.
    destruct (is_valid_position s (x + dx) (y + dy)) eqn:Hv; [|apply IH].
    destruct (cell_valid s _ _ Hwf Hv) as (row & c & _ & _ & Hc).
    rewrite matrix_read_cell, Hc. destruct c; apply IH.
Qed.

Lemma get_free_adjacent_cells_returns pos s :
  wf_matrix s -> exists cells, get_free_adjacent_cells pos s = Done cells s.
Proof. destruct pos. apply free_cells_loop_returns. Qed.

Lemma nearby_loop_returns x y offs acc s :
  wf_matrix s -> exists l, nearby_loop x y offs acc s = Done l s.
Proof.
  intros Hwf. revert acc. induction offs as [|[dx dy] rest IH]; intros acc; simpl.
  - by exists acc.
  - unfold bind, gets.
    change ((0 <=? x + dx) && (x + dx <? height s) && (0 <=? y + dy) && (y + dy <? width s))
      with (is_valid_position s (x + dx) (y + dy)).
    destruct (is_valid_position s (x + dx) (y + dy)) eqn:Hv; [|apply IH].
    destruct (cell_valid s _ _ Hwf Hv) as (row & c & _ & _ & Hc).
    rewrite matrix_read_cell, Hc. destruct c; [|apply IH].
    destruct (negb (dx =? 0) || negb (dy =? 0)); apply IH.
Qed.

Lemma get_nearby_objects_returns pos r s :
  wf_matrix s -> exists l, get_nearby_objects pos r s = Done l s.
Proof. destruct pos. apply nearby_loop_returns. Qed.

(** ** The aggressive spread *)

(** The spread of an aggressive plant returns [False] and leaves the grid,
    the live list and the store as they were, whatever the oracle holds:
    [_can_replace] is asked about a position, not about an occupant, and
    the other branch asks whether a non-empty list is [None]. *)
Lemma aggressive_spread_never_spawns (s : St) (self : oid) (p : Plant) :
  wf_matrix s ->
  heap s !! self = Some (EPlant p) ->
  exists s',
    aggressive_spread self s = Done false s' /\
    matrix s' = matrix s /\ entities s' = entities s /\ heap s' = heap s /\
    floats (rng s') = floats (rng s).
Proof.
  intros Hwf Hheap.
  unfold aggressive_spread, bind, load_plant, bind, load. rewrite Hheap. simpl.
  destruct (get_free_adjacent_cells_returns (p_position p) s Hwf) as (cells & Hcells).
  rewrite Hcells. destruct cells as [|c cells].
  - exists s. by repeat split.
  - unfold choice, bind, next_int.
    destruct (ints (rng s)); simpl; eexists; repeat split.
Qed.

Lemma try_spread_of_aggressive (s : St) (self : oid) (p : Plant) :
  heap s !! self = Some (EPlant p) ->
  inst_try_spread p = true ->
  try_spread self s = aggressive_spread self s.
Proof.
  intros Hheap Hi. unfold try_spread, bind, load_plant, bind, load.
  rewrite Hheap. simpl. rewrite Hi. reflexivity.
Qed.

(** C4 fails on the code.  After four ticks the Lumiere in the middle of
    the grid of three by three is aggressive and its eight neighbouring
    cells are free.  Whatever the oracle returns, its spread attempt
    returns [False], the plant stays the only entity and the grid does not
    change: the draw against 0.9 is never made. *)
Theorem aggressive_spread_spawns_nothing :
  returned (four_ticks lone_plant) = true /\
  (inst_try_spread <$> (heap mutated_plant !! 0%nat ≫= fun e =>
     match e with EPlant p => Some p | EAnimal _ => None end)) = Some true /\
  get_free_adjacent_cells (1, 1) mutated_plant
    = Done [(0, 0); (0, 1); (0, 2); (1, 0); (1, 2); (2, 0); (2, 1); (2, 2)] mutated_plant /\
  forall r : Rng,
    exists s',
      try_spread 0%nat (set_rng r mutated_plant) = Done false s' /\
      entities s' = [0%nat] /\
      matrix s' = matrix mutated_plant /\
      floats (rng s') = floats r.
Proof.
  split; [vm_compute; reflexivity|].
  split; [vm_compute; reflexivity|].
  split; [vm_compute; reflexivity|].
  intros r.
  assert (Hheap : heap (set_rng r mutated_plant) !! 0%nat
                  = Some (EPlant (mkPlant Lumiere (1, 1) ["day"]
                                          [PlantC Obscurite; PlantC Demi] 4 true true))).
  { vm_compute. reflexivity. }
  assert (Hwf : wf_matrix (set_rng r mutated_plant)).
  { split; vm_compute; [reflexivity | repeat constructor]. }
  assert (He : entities (set_rng r mutated_plant) = [0%nat]).
  { vm_compute. reflexivity. }
  assert (Hm : matrix (set_rng r mutated_plant) = matrix mutated_plant).
  { reflexivity. }
  assert (Hf : floats (rng (set_rng r mutated_plant)) = floats r).
  { reflexivity. }
  rewrite (try_spread_of_aggressive _ _ _ Hheap eq_refl).
  destruct (aggressive_spread_never_spawns _ _ _ Hwf Hheap) as (s' & Hs & H1 & H2 & _ & H4).
  exists s'. split; [exact Hs|]. split; [congruence|]. split; congruence.
Qed.

(** ** Lists of identities *)

Lemma py_in_elem x l : py_in x l = true <-> x ∈ l.
Proof.
  unfold py_in. rewrite existsb_exists. split.
  - intros (y & Hy & He). apply Nat.eqb_eq in He. subst. by apply list_elem_of_In.
  - intros H. exists x. split; [by apply list_elem_of_In | apply Nat.eqb_refl].
Qed.

Lemma py_in_not_elem x l : py_in x l = false <-> x ∉ l.
Proof.
  rewrite <- py_in_elem. destruct (py_in x l); split; intros H; try done.
Qed.

Lemma py_remove_subset x y l : y ∈ py_remove x l -> y ∈ l.
Proof.
  induction l as [|z l IH]; simpl; [done|].
  destruct (Nat.eqb x z).
  - intros H. by apply elem_of_cons; right.
  - intros H. apply elem_of_cons in H as [->|H]; [by left | right; auto].
Qed.

Lemma py_remove_absent x l : x ∉ l -> py_remove x l = l.
Proof.
  induction l as [|z l IH]; simpl; [done|].
  intros H. apply not_elem_of_cons in H as [Hne Hl].
  destruct (Nat.eqb x z) eqn:E; [apply Nat.eqb_eq in E; congruence|].
  by rewrite IH.
Qed.

Lemma py_remove_NoDup x l : NoDup l -> NoDup (py_remove x l) /\ x ∉ py_remove x l.
Proof.
  induction 1 as [|z l Hz Hl IH]; simpl.
  - split; [constructor | apply not_elem_of_nil].
  - destruct (Nat.eqb x z) eqn:E.
    + apply Nat.eqb_eq in E. subst. by split.
    + apply Nat.eqb_neq in E. destruct IH as [IH1 IH2]. split.
      * constructor; [|done]. intros H. apply Hz. eapply py_remove_subset; eauto.
      * apply not_elem_of_cons. by split.
Qed.

Lemma py_remove_other x y l : y <> x -> y ∈ l -> y ∈ py_remove x l.
Proof.
  intros Hne. induction l as [|z l IH]; simpl; [done|].
  intros H. destruct (Nat.eqb x z) eqn:E.
  - apply Nat.eqb_eq in E. subst. apply elem_of_cons in H as [->|H]; [done|exact H].
  - apply elem_of_cons in H as [->|H]; [by left | right; auto].
Qed.

(** ** What a well-formed state gives *)

Lemma wf_state_matrix s : wf_state s = true -> wf_matrix s.
Proof.
  unfold wf_state, wf_matrixb. rewrite !andb_true_iff.
  intros [[[[[[Hh Hr] _] _] _] _] _]. split; [lia|].
  apply Forall_forall. intros row Hrow.
  rewrite forallb_forall in Hr. apply list_elem_of_In in Hrow.
  specialize (Hr row Hrow). lia.
Qed.

Lemma wf_state_NoDup s : wf_state s = true -> NoDup (entities s).
Proof.
  unfold wf_state. rewrite !andb_true_iff.
  intros [[[[[_ Hn] _] _] _] _]. by apply bool_decide_eq_true in Hn.
Qed.

Lemma wf_state_live s i :
  wf_state s = true -> i ∈ entities s ->
  exists e, heap s !! i = Some e /\
            is_valid_position s (fst (position e)) (snd (position e)) = true.
Proof.
  unfold wf_state. rewrite !andb_true_iff.
  intros [[[[_ Hl] _] _] _] Hi.
  rewrite forallb_forall in Hl. apply list_elem_of_In in Hi.
  specialize (Hl i Hi). unfold live_placed in Hl.
  destruct (heap s !! i) as [e|]; [|discriminate]. by exists e.
Qed.

Lemma py_get_elem {A} (l : list A) i v : py_get l i = Some v -> v ∈ l.
Proof.
  unfold py_get. destruct (py_index (length l) i); [|discriminate].
  apply list_elem_of_lookup_2.
Qed.

Lemma wf_state_occupant s x y o :
  wf_state s = true -> cell s x y = Some (Some o) ->
  exists e, heap s !! o = Some e.
Proof.
  unfold wf_state. rewrite !andb_true_iff.
  intros [[[_ Ho] _] _] Hc. unfold cell in Hc.
  destruct (py_get (matrix s) x) as [row|] eqn:Hrow; [|discriminate].
  apply py_get_elem in Hrow. apply py_get_elem in Hc.
  rewrite forallb_forall in Ho. apply list_elem_of_In in Hrow.
  specialize (Ho row Hrow). rewrite forallb_forall in Ho.
  apply list_elem_of_In in Hc. specialize (Ho _ Hc). simpl in Ho.
  unfold allocated in Ho. destruct (heap s !! o) as [e|]; [|discriminate]. by exists e.
Qed.

Lemma wf_state_group s i a :
  wf_state s = true -> heap s !! i = Some (EAnimal a) ->
  exists l, glists s !! group a = Some l /\ i ∈ l.
Proof.
  unfold wf_state. rewrite !andb_true_iff.
  intros [[_ Hg] _] Hi. rewrite forallb_forall in Hg.
  apply elem_of_map_to_list in Hi. apply list_elem_of_In in Hi.
  specialize (Hg _ Hi). simpl in Hg.
  destruct (glists s !! group a) as [l|]; [|discriminate].
  exists l. split; [reflexivity | by apply py_in_elem].
Qed.

Lemma wf_state_member s g l m :
  wf_state s = true -> glists s !! g = Some l -> m ∈ l ->
  exists am, heap s !! m = Some (EAnimal am).
Proof.
  unfold wf_state. rewrite !andb_true_iff.
  intros [_ Hm] Hg Hin. rewrite forallb_forall in Hm.
  apply elem_of_map_to_list in Hg. apply list_elem_of_In in Hg.
  specialize (Hm _ Hg). simpl in Hm. rewrite forallb_forall in Hm.
  apply list_elem_of_In in Hin. specialize (Hm _ Hin). unfold is_animal in Hm.
  destruct (heap s !! m) as [[am|]|]; try discriminate. by exists am.
Qed.

(** ** Draws *)

Lemma random_drop_floats k s :
  random (drop_floats k s) = Done (draw_at s k) (drop_floats (S k) s).
Proof.
  unfold random, drop_floats, draw_at. cbn [rng set_rng floats ints].
  destruct (drop k (floats (rng s))) as [|q rest] eqn:E.
  - assert (Hlen : (length (floats (rng s)) <= k)%nat).
    { apply (f_equal length) in E. rewrite length_drop in E. simpl in E. lia. }
    rewrite nth_overflow by exact Hlen.
    rewrite (drop_ge _ (S k)) by lia. reflexivity.
  - assert (Hk : floats (rng s) !! k = Some q).
    { rewrite <- (Nat.add_0_r k), <- lookup_drop, E. reflexivity. }
    rewrite (drop_S _ _ _ Hk) in E. inversion E; subst rest.
    rewrite (nth_lookup_Some _ _ _ _ Hk). reflexivity.
Qed.

Lemma drop_floats_0 s : drop_floats 0 s = s.
Proof. unfold drop_floats. destruct s as [? ? ? ? ? ? ? ? [? ?]]. reflexivity. Qed.

Lemma drop_floats_heap k s : heap (drop_floats k s) = heap s.
Proof. reflexivity. Qed.

(** ** The neighbours *)

Lemma nearby_loop_occupied x y offs acc s l s' :
  wf_matrix s ->
  nearby_loop x y offs acc s = Done l s' ->
  forall o, o ∈ l ->
    o ∈ acc \/ exists x' y', is_valid_position s x' y' = true /\
                             cell s x' y' = Some (Some o).
Proof.
  intros Hwf. revert acc. induction offs as [|[dx dy] rest IH]; intros acc; simpl.
  - intros H o Ho. inversion H; subst. by left.
  - unfold bind, gets.
    change ((0 <=? x + dx) && (x + dx <? height s) && (0 <=? y + dy) && (y + dy <? width s))
      with (is_valid_position s (x + dx) (y + dy)).
    destruct (is_valid_position s (x + dx) (y + dy)) eqn:Hv; [|apply IH].
    destruct (cell_valid s _ _ Hwf Hv) as (row & c & _ & _ & Hc).
    rewrite matrix_read_cell, Hc. destruct c as [o'|]; [|apply IH].
    destruct (negb (dx =? 0) || negb (dy =? 0)); [|apply IH].
    intros H o Ho. destruct (IH _ H o Ho) as [Hacc|Hocc]; [|by right].
    apply elem_of_app in Hacc as [Hacc|Hnew]; [by left|].
    apply list_elem_of_singleton in Hnew. subst. right. eauto.
Qed.

Lemma nearby_spec s pos r :
  wf_matrix s -> get_nearby_objects pos r s = Done (nearby s pos r) s.
Proof.
  intros Hwf. destruct (get_nearby_objects_returns pos r s Hwf) as (l & Hl).
  unfold nearby. rewrite Hl. reflexivity.
Qed.

Lemma nearby_occupied s pos r o :
  wf_matrix s -> o ∈ nearby s pos r ->
  exists x y, is_valid_position s x y = true /\ cell s x y = Some (Some o).
Proof.
  intros Hwf Ho. pose proof (nearby_spec s pos r Hwf) as Hs.
  destruct pos as [x y]. unfold get_nearby_objects in Hs.
  destruct (nearby_loop_occupied _ _ _ _ _ _ _ Hwf Hs o Ho) as [Hnil|H]; [|exact H].
  by apply elem_of_nil in Hnil.
Qed.

Lemma nearby_allocated s pos r o :
  wf_state s = true -> o ∈ nearby s pos r -> exists e, heap s !! o = Some e.
Proof.
  intros Hwf Ho.
  destruct (nearby_occupied s pos r o (wf_state_matrix s Hwf) Ho) as (x & y & _ & Hc).
  eapply wf_state_occupant; eauto.
Qed.

Lemma In_range a b x : a <= x < b -> In x (range a b).
Proof.
  intros H. unfold range. apply in_map_iff. exists (Z.to_nat (x - a)).
  split; [lia|]. apply in_seq. lia.
Qed.

Lemma grid_sound_spec s x y o :
  grid_sound s = true ->
  is_valid_position s x y = true ->
  cell s x y = Some (Some o) ->
  o ∈ entities s /\ exists e, heap s !! o = Some e /\ position e = (x, y).
Proof.
  unfold grid_sound. intros Hg Hv Hc. apply valid_bounds in Hv as [Hx Hy].
  rewrite forallb_forall in Hg. specialize (Hg x (In_range 0 _ x Hx)).
  rewrite forallb_forall in Hg. specialize (Hg y (In_range 0 _ y Hy)).
  rewrite Hc in Hg. apply andb_true_iff in Hg as [Hin Hpos].
  split; [by apply py_in_elem|].
  destruct (heap s !! o) as [e|]; [|discriminate]. exists e. split; [reflexivity|].
  unfold pos_eqb in Hpos. apply andb_true_iff in Hpos as [H1 H2].
  destruct (position e) as [px py]. simpl in H1, H2. f_equal; lia.
Qed.

(** ** Removing from the world *)

Lemma delete_unit_spec s t :
  wf_matrix s ->
  (t ∈ entities s ->
   exists e, heap s !! t = Some e /\
             is_valid_position s (fst (position e)) (snd (position e)) = true) ->
  exists s',
    delete_unit t s = Done tt s' /\
    entities s' = py_remove t (entities s) /\
    heap s' = heap s /\ glists s' = glists s /\ rng s' = rng s /\ time s' = time s /\
    wf_matrix s' /\
    (forall e, t ∈ entities s -> heap s !! t = Some e ->
               cell s' (fst (position e)) (snd (position e)) = Some None) /\
    (forall x y, is_valid_position s x y = true ->
                 cell s' x y = cell s x y \/ cell s' x y = Some None).
Proof.
  intros Hwf Hlive. unfold delete_unit, bind, gets.
  destruct (py_in t (entities s)) eqn:Hin.
  - apply py_in_elem in Hin. destruct (Hlive Hin) as (e & He & Hv).
    unfold load. rewrite He.
    destruct (matrix_write_valid _ _ None s Hwf Hv) as (m' & Hw & Hwf' & Hc & Hother).
    rewrite Hw. eexists. split; [reflexivity|].
    repeat split; try reflexivity; try apply Hwf'.
    + intros e' _ He'. rewrite ?He in He'. inversion He'; subst e'. exact Hc.
    + intros x y Hxy.
      destruct (decide ((x, y) = (fst (position e), snd (position e)))) as [Heq|Hne].
      * right. inversion Heq; subst. exact Hc.
      * left. exact (Hother x y Hxy Hne).
  - apply py_in_not_elem in Hin. exists s. split; [reflexivity|].
    rewrite (py_remove_absent _ _ Hin). repeat split; try reflexivity; try apply Hwf.
    + intros e Ht. contradiction.
    + intros x y _. by left.
Qed.

(** ** Eating *)

Lemma eat_loop_skip s self b t et rest :
  heap s !! t = Some et ->
  existsb (isinstance (class_of et)) (rule_targets b) = false ->
  eat_loop self b (t :: rest) s = eat_loop self b rest s.
Proof.
  intros Het Hp. cbn [eat_loop]. unfold bind, load. rewrite Het, Hp. reflexivity.
Qed.

Lemma eat_loop_draw s self a b t et rest :
  heap s !! t = Some et ->
  existsb (isinstance (class_of et)) (rule_targets b) = true ->
  heap s !! self = Some (EAnimal a) ->
  eat_loop self b (t :: rest) s =
  match random s with
  | Done draw s1 =>
      if Qltb draw (eat_chance b (is_hungry a))
      then swallow self b t et s1
      else eat_loop self b rest s1
  | Raised e s1 => Raised e s1
  end.
Proof.
  intros Het Hp Hself. cbn [eat_loop]. unfold bind at 1. unfold load at 1.
  rewrite Het, Hp. unfold bind at 1. unfold load_animal, bind, load.
  rewrite Hself. cbn [ret].
  destruct (random s) as [draw s1|]; [|reflexivity].
  destruct (Qltb draw (eat_chance b (is_hungry a))); reflexivity.
Qed.

Lemma eat_loop_select s self a b targets :
  heap s !! self = Some (EAnimal a) ->
  (forall t, t ∈ targets -> exists e, heap s !! t = Some e) ->
  forall j,
    match first_success (eat_chance b (is_hungry a)) (draw_at s) j
                        (length (List.filter (is_prey s b) targets)) with
    | None =>
        eat_loop self b targets (drop_floats j s)
        = Done false (drop_floats (j + length (List.filter (is_prey s b) targets)) s)
    | Some k =>
        exists t et,
          List.filter (is_prey s b) targets !! k = Some t /\
          heap s !! t = Some et /\
          eat_loop self b targets (drop_floats j s)
          = swallow self b t et (drop_floats (j + S k) s)
    end.
Proof.
  intros Hself. induction targets as [|t rest IH]; intros Hall j.
  - simpl. rewrite Nat.add_0_r. reflexivity.
  - assert (Hrest : forall t', t' ∈ rest -> exists e, heap s !! t' = Some e).
    { intros t' Ht'. apply Hall. by apply elem_of_cons; right. }
    destruct (Hall t) as [et Het]; [by apply elem_of_cons; left|].
    assert (Hp : is_prey s b t = existsb (isinstance (class_of et)) (rule_targets b)).
    { unfold is_prey. rewrite Het. reflexivity. }
    cbn [List.filter]. rewrite Hp.
    destruct (existsb (isinstance (class_of et)) (rule_targets b)) eqn:Hprey.
    + rewrite (eat_loop_draw (drop_floats j s) self a b t et rest Het Hprey Hself).
      rewrite random_drop_floats. cbn [length first_success].
      destruct (Qltb (draw_at s j) (eat_chance b (is_hungry a))) eqn:Hd.
      * exists t, et. split; [reflexivity|]. split; [exact Het|].
        rewrite Nat.add_1_r. reflexivity.
      * specialize (IH Hrest (S j)).
        destruct (first_success _ _ (S j) _) as [k|]; cbn [option_map].
        -- destruct IH as (t' & et' & Hk & Het' & Heq).
           exists t', et'. split; [exact Hk|]. split; [exact Het'|].
           rewrite Heq. f_equal. f_equal. lia.
        -- rewrite IH. f_equal. f_equal. lia.
    + rewrite (eat_loop_skip (drop_floats j s) self b t et rest Het Hprey).
      apply IH. exact Hrest.
Qed.

Lemma first_success_spec chance draw from n k :
  first_success chance draw from n = Some k <->
  (k < n)%nat /\ Qltb (draw (from + k)%nat) chance = true /\
  forall j, (j < k)%nat -> Qltb (draw (from + j)%nat) chance = false.
Proof.
  revert from k. induction n as [|n IH]; intros from k; simpl.
  - split; [discriminate | intros [H _]; lia].
  - destruct (Qltb (draw from) chance) eqn:Hd.
    + split.
      * intros H. inversion H; subst. rewrite Nat.add_0_r.
        split; [lia|]. split; [exact Hd|]. intros j Hj. lia.
      * intros (Hk & Hs & Hbefore). destruct k as [|k]; [reflexivity|].
        specialize (Hbefore O ltac:(lia)). rewrite Nat.add_0_r in Hbefore. congruence.
    + destruct (first_success chance draw (S from) n) as [k'|] eqn:E; simpl.
      * apply IH in E as (Hk & Hs & Hbefore). split.
        -- intros H. inversion H; subst. split; [lia|].
           replace (from + S k')%nat with (S from + k')%nat by lia.
           split; [exact Hs|]. intros j Hj. destruct j as [|j].
           ++ rewrite Nat.add_0_r. exact Hd.
           ++ replace (from + S j)%nat with (S from + j)%nat by lia.
              apply Hbefore. lia.
        -- intros (Hk2 & Hs2 & Hb2). destruct k as [|k].
           ++ rewrite Nat.add_0_r in Hs2. congruence.
           ++ f_equal. f_equal.
              destruct (Nat.lt_trichotomy k k') as [Hlt|[Heq|Hgt]]; [|exact (eq_sym Heq)|].
              ** specialize (Hbefore k Hlt).
                 replace (S from + k)%nat with (from + S k)%nat in Hbefore by lia.
                 congruence.
              ** specialize (Hb2 (S k') ltac:(lia)).
                 replace (from + S k')%nat with (S from + k')%nat in Hb2 by lia.
                 congruence.
      * split; [discriminate|]. intros (Hk & Hs & Hbefore).
        destruct k as [|k].
        -- rewrite Nat.add_0_r in Hs. congruence.
        -- assert (Hsome : first_success chance draw (S from) n = Some k).
           { apply IH. split; [lia|].
             replace (S from + k)%nat with (from + S k)%nat by lia.
             split; [exact Hs|]. intros j Hj.
             replace (S from + j)%nat with (from + S j)%nat by lia.
             apply Hbefore. lia. }
           congruence.
Qed.

Lemma swallow_spec s self a b t et :
  wf_matrix s ->
  heap s !! self = Some (EAnimal a) ->
  (t ∈ entities s ->
   exists e, heap s !! t = Some e /\
             is_valid_position s (fst (position e)) (snd (position e)) = true) ->
  exists s',
    swallow self b t et s = Done true s' /\
    entities s' = py_remove t (entities s) /\
    heap s' = <[self := EAnimal (set_food (food a + rule_food_value b
                                             (class_name (class_of et))) a)]> (heap s) /\
    glists s' = glists s /\ rng s' = rng s /\
    (forall e, t ∈ entities s -> heap s !! t = Some e ->
               cell s' (fst (position e)) (snd (position e)) = Some None) /\
    (forall x y, is_valid_position s x y = true ->
                 cell s' x y = cell s x y \/ cell s' x y = Some None).
Proof.
  intros Hwf Hself Hlive.
  destruct (delete_unit_spec s t Hwf Hlive)
    as (s1 & Hd & He & Hh & Hg & Hr & _ & _ & Hc & Hcells).
  unfold swallow, bind. rewrite Hd.
  unfold update_animal, bind, load_animal, bind, load. rewrite Hh, Hself.
  cbn [ret store modify]. eexists. split; [reflexivity|].
  cbn [entities heap glists rng set_heap]. rewrite Hh.
  repeat split; try assumption.
Qed.

Lemma swallow_absent s self a b t et :
  heap s !! self = Some (EAnimal a) ->
  t ∉ entities s ->
  swallow self b t et s
  = Done true (set_heap (<[self := EAnimal (set_food (food a + rule_food_value b
                                              (class_name (class_of et))) a)]> (heap s)) s).
Proof.
  intros Hself Habs. apply py_in_not_elem in Habs.
  unfold swallow, bind, delete_unit, bind, gets. rewrite Habs. cbn [ret].
  unfold update_animal, bind, load_animal, bind, load. rewrite Hself. reflexivity.
Qed.

Lemma eat_rule_found cls day_time :
  exists r, eat_rule cls day_time = Some r /\
            match eat_behavior cls !! day_time with
            | Some b => r = b
            | None => eat_behavior cls !! "default" = Some r
            end.
Proof.
  unfold eat_rule. destruct (eat_behavior cls !! day_time) as [b|].
  - exists b. by split.
  - destruct cls; eexists; split; vm_compute; reflexivity.
Qed.

(** C5.  In Normal mode the eat step of an active animal is the [eat] of
    its class.  Its rule is the entry of the phase in the table of the
    class, the entry ["default"] when the phase has none.  The neighbours
    within the radius of the rule are taken in scan order, and among them
    those whose class the rule lists as prey: one draw is made per prey, in
    order, against the probability of the rule, multiplied by the hunger
    multiplier of the rule when the animal is hungry, until a draw
    succeeds.  If none does, nothing but the oracle has changed.  At the
    first success the food value the rule gives for the class of the prey
    (30 when it gives none) is added to the food of the animal and no later
    neighbour is looked at.  A prey that is in the live list is removed
    from it and the cell of its position is cleared; where the grid held
    nothing but live entities at their positions, no cell holds the prey
    any more.  C5 fails on the code for a prey that is not in the live
    list, an entity removed before that the grid holds again: the food
    value is added all the same and the prey is left where it is, the live
    list and the grid are unchanged. *)
Theorem eat_first_success (s : St) (self : oid) (a : Animal) (day_time : string) :
  wf_state s = true ->
  heap s !! self = Some (EAnimal a) ->
  is_active a = true ->
  inst_eat a = false ->
  exists r : EatRule,
    match eat_behavior (a_cls a) !! day_time with
    | Some b => r = b
    | None => eat_behavior (a_cls a) !! "default" = Some r
    end /\
    let prey :=
      List.filter
        (fun t => match heap s !! t with
                  | Some e => existsb (isinstance (class_of e)) (target_classes r)
                  | None => false
                  end)
        (nearby s (a_position a) (radius r)) in
    let chance :=
      if is_hungry a then (probability r * hungry_multiplier r)%Q else probability r in
    call_eat self day_time s = bind (eat (a_cls a) self day_time) (fun _ => ret tt) s /\
    (first_success chance (draw_at s) 0 (length prey) = None ->
     eat (a_cls a) self day_time s = Done false (drop_floats (length prey) s)) /\
    (forall k,
       first_success chance (draw_at s) 0 (length prey) = Some k ->
       exists t et s',
         prey !! k = Some t /\
         heap s !! t = Some et /\
         eat (a_cls a) self day_time s = Done true s' /\
         heap s' = <[self := EAnimal (set_food
                       (food a + match food_values r !! class_name (class_of et) with
                                 | Some v => v
                                 | None => 30
                                 end) a)]>
                     (heap s) /\
         glists s' = glists s /\
         rng s' = rng (drop_floats (S k) s) /\
         (t ∈ entities s ->
          entities s' = py_remove t (entities s) /\
          (t ∉ entities s') /\
          cell s' (fst (position et)) (snd (position et)) = Some None /\
          (grid_sound s = true ->
           forall x y, is_valid_position s x y = true -> cell s' x y <> Some (Some t))) /\
         (t ∉ entities s ->
          entities s' = entities s /\ matrix s' = matrix s)).
Proof.
  intros Hwf Hself Hact Hinst.
  destruct (eat_rule_found (a_cls a) day_time) as (r & Hrule & Hr).
  exists r. split; [exact Hr|]. intros prey chance.
  pose proof (wf_state_matrix s Hwf) as Hm.
  assert (Heat : eat (a_cls a) self day_time s
                 = eat_loop self (Some r) (nearby s (a_position a) (radius r)) s).
  { unfold eat, bind, load_animal, bind, load. rewrite Hself. cbn [ret].
    rewrite Hact. cbn [negb]. rewrite Hrule. cbn [rule_radius].
    rewrite (nearby_spec s _ _ Hm). reflexivity. }
  assert (Hall : forall t, t ∈ nearby s (a_position a) (radius r) ->
                           exists e, heap s !! t = Some e).
  { intros t Ht. eapply nearby_allocated; eauto. }
  pose proof (eat_loop_select s self a (Some r) _ Hself Hall 0%nat) as Hsel.
  change (List.filter (is_prey s (Some r)) (nearby s (a_position a) (radius r)))
    with prey in Hsel.
  change (eat_chance (Some r) (is_hungry a)) with chance in Hsel.
  rewrite drop_floats_0 in Hsel.
  split; [|split].
  - unfold call_eat, bind, load_animal, bind, load. rewrite Hself. cbn [ret].
    rewrite Hinst. reflexivity.
  - intros Hnone. rewrite Hnone in Hsel. rewrite Heat. exact Hsel.
  - intros k Hk. rewrite Hk in Hsel. destruct Hsel as (t & et & Hpk & Het & Hloop).
    change (0 + S k)%nat with (S k) in Hloop.
    destruct (decide (t ∈ entities s)) as [Hlive_t|Habs].
    + assert (Hlive : t ∈ entities (drop_floats (S k) s) ->
                exists e, heap (drop_floats (S k) s) !! t = Some e /\
                    is_valid_position (drop_floats (S k) s)
                      (fst (position e)) (snd (position e)) = true).
      { intros Hin. exact (wf_state_live s t Hwf Hin). }
      destruct (swallow_spec (drop_floats (S k) s) self a (Some r) t et Hm Hself Hlive)
        as (s' & Hsw & He & Hh & Hg & Hrng & Hc & Hcells).
      assert (Hcleared : cell s' (fst (position et)) (snd (position et)) = Some None).
      { apply Hc; [exact Hlive_t | exact Het]. }
      exists t, et, s'. split; [exact Hpk|]. split; [exact Het|].
      split; [rewrite Heat, Hloop; exact Hsw|].
      split; [exact Hh|]. split; [exact Hg|]. split; [exact Hrng|].
      split; [|intros Hn; contradiction].
      intros _. split; [exact He|].
      split.
      { rewrite He. apply (py_remove_NoDup t (entities s)). by apply wf_state_NoDup. }
      split; [exact Hcleared|].
      intros Hsound x y Hxy Hhold.
      destruct (Hcells x y Hxy) as [Hsame|Hnone]; [|congruence].
      change (cell (drop_floats (S k) s) x y) with (cell s x y) in Hsame.
      rewrite Hhold in Hsame. symmetry in Hsame.
      destruct (grid_sound_spec s x y t Hsound Hxy Hsame) as (_ & e1 & He1 & Hpos1).
      rewrite Het in He1. inversion He1; subst e1.
      rewrite Hpos1 in Hcleared. cbn [fst snd] in Hcleared. congruence.
    + eexists t, et, _. split; [exact Hpk|]. split; [exact Het|].
      split.
      { rewrite Heat, Hloop.
        apply (swallow_absent (drop_floats (S k) s) self a (Some r) t et Hself Habs). }
      split; [reflexivity|]. split; [reflexivity|]. split; [reflexivity|].
      split; [intros Hin; contradiction|].
      intros _. split; reflexivity.
Qed.

Lemma relay_spawn :
  exists s1 s2,
    initial_spawn (AnimalC Malheureux) 1 (World 7 1 40 relay_rng) = Some (Done tt s1) /\
    initial_spawn (AnimalC Pauvre) 1 s1 = Some (Done tt s2) /\
    initial_spawn (AnimalC Malheureux) 1 s2 = Some (Done tt relay).
Proof.
  exists (spawned (initial_spawn (AnimalC Malheureux) 1 (World 7 1 40 relay_rng))
                  (World 7 1 40 relay_rng)).
  eexists. split; [vm_compute; reflexivity|]. split; vm_compute; reflexivity.
Qed.

Lemma relay_reachable : reachable relay.
Proof.
  destruct relay_spawn as (s1 & s2 & H1 & H2 & H3).
  eapply reach_spawn; [|exact H3]. eapply reach_spawn; [|exact H2].
  eapply reach_spawn; [|exact H1]. constructor.
Qed.

Lemma cell_same_matrix s s' x y :
  matrix s' = matrix s -> cell s' x y = cell s x y.
Proof. unfold cell. intros ->. reflexivity. Qed.

(** The tick with two hunters.  The world is reachable, and before the
    tick its grid holds nothing but live entities at their positions.  When
    the object 2 calls its [eat], the Pauvre 1 is no longer live and the
    cell (0, 3) holds it.  The call returns [True] and the food of the
    object 2 goes from 100 to 160; the live list is as it was and the cell
    (0, 3) still holds the Pauvre, also when the tick has returned. *)
Lemma eat_first_success_witness :
  let s := state_of (relay_before_eat relay) in
  reachable relay /\ grid_sound relay = true /\
  returned (relay_before_eat relay) = true /\
  entities s = [0; 2]%nat /\
  cell s 0 3 = Some (Some 1%nat) /\
  food_of s 2%nat = Some 100 /\
  (exists s',
     eat Malheureux 2%nat "morning" s = Done true s' /\
     food_of s' 2%nat = Some 160 /\
     entities s' = [0; 2]%nat /\
     cell s' 0 3 = Some (Some 1%nat)) /\
  returned (process_tick relay) = true /\
  cell (state_of (process_tick relay)) 0 3 = Some (Some 1%nat) /\
  entities (state_of (process_tick relay)) = [0; 2]%nat /\
  food_of (state_of (process_tick relay)) 2%nat = Some 160.
Proof.
  intros s.
  assert (Hent : entities s = [0; 2]%nat) by (vm_compute; reflexivity).
  assert (Hcell : cell s 0 3 = Some (Some 1%nat)) by (vm_compute; reflexivity).
  split; [exact relay_reachable|].
  split; [vm_compute; reflexivity|].
  split; [vm_compute; reflexivity|].
  split; [exact Hent|]. split; [exact Hcell|].
  split; [vm_compute; reflexivity|].
  split;
    [|split; [vm_compute; reflexivity|];
      split; [vm_compute; reflexivity|];
      split; vm_compute; reflexivity].
  destruct (eat_first_success s 2%nat
              (mkAnimal Malheureux (0, 5) 100 100 true false 2%nat
                        false false false false) "morning")
    as (r & Hr & H).
  - vm_compute. reflexivity.
  - vm_compute. reflexivity.
  - reflexivity.
  - reflexivity.
  - assert (Hr' : r = mkEatRule 2 Malheureux_targets (25 # 100) (2 # 1)
                               Malheureux_food_values).
    { vm_compute in Hr. rewrite Hr. vm_compute. reflexivity. }
    subst r. cbv zeta in H. destruct H as (_ & _ & Hs).
    destruct (Hs 0%nat) as (t & et & s' & Hpk & Het & Heat & Hh & _ & _ & _ & Habs).
    + vm_compute. reflexivity.
    + assert (Ht : t = 1%nat).
      { match type of Hpk with
        | ?l !! _ = _ =>
            assert (Hp0 : l !! 0%nat = Some 1%nat) by (vm_compute; reflexivity)
        end.
        congruence. }
      subst t.
      assert (Het1 : heap s !! 1%nat
                     = Some (EAnimal (mkAnimal Pauvre (0, 3) 100 99 true false 1%nat
                                               false false false false)))
        by (vm_compute; reflexivity).
      assert (Het2 : et = EAnimal (mkAnimal Pauvre (0, 3) 100 99 true false 1%nat
                                            false false false false)) by congruence.
      subst et.
      destruct Habs as [He' Hm'].
      { rewrite Hent. intros Hin.
        repeat (apply elem_of_cons in Hin as [Hin|Hin]; [discriminate|]).
        by apply elem_of_nil in Hin. }
      exists s'. split; [exact Heat|].
      split; [unfold food_of; rewrite Hh, lookup_insert_eq; vm_compute; reflexivity|].
      split; [rewrite He'; exact Hent|].
      rewrite (cell_same_matrix s s' 0 3 Hm'). exact Hcell.
Defined.

(** ** Merging: re-pointing the members *)

Lemma regroup_position g e : position (regroup g e) = position e.
Proof. by destruct e. Qed.

Lemma regroup_idem g e : regroup g (regroup g e) = regroup g e.
Proof. by destruct e. Qed.

Lemma repoint_loop_spec self g members :
  forall s,
    (exists a, heap s !! self = Some (EAnimal a) /\ group a = g) ->
    (forall m, m ∈ members -> exists am, heap s !! m = Some (EAnimal am)) ->
    exists s',
      for_each members (repoint self) s = Done tt s' /\
      matrix s' = matrix s /\ entities s' = entities s /\ glists s' = glists s /\
      rng s' = rng s /\ width s' = width s /\ height s' = height s /\
      (forall i e, heap s !! i = Some e ->
                   heap s' !! i = Some (if bool_decide (i ∈ members)
                                        then regroup g e else e)) /\
      (forall i, heap s !! i = None -> heap s' !! i = None).
Proof.
  induction members as [|m rest IH]; intros s Hself Hmem.
  - exists s. split; [reflexivity|]. repeat split; try reflexivity; [|done].
    intros i e Hi. rewrite Hi. rewrite bool_decide_eq_false_2; [reflexivity|].
    apply not_elem_of_nil.
  - destruct Hself as (a & Ha & Hg).
    destruct (Hmem m) as (am & Ham); [by apply elem_of_cons; left|].
    set (s1 := set_heap (<[m := EAnimal (set_group g am)]> (heap s)) s).
    assert (Hstep : repoint self m s = Done tt s1).
    { unfold repoint, bind, load_animal, bind, load. rewrite Ha. cbn [ret].
      unfold update_animal, bind, load_animal, bind, load. rewrite Ham. cbn [ret].
      rewrite Hg. reflexivity. }
    assert (Hlook : forall i e, heap s !! i = Some e ->
              heap s1 !! i = Some (if bool_decide (i = m) then regroup g e else e)).
    { intros i e Hi. unfold s1. cbn [heap set_heap]. case_bool_decide as Him.
      - subst i. rewrite lookup_insert_eq. rewrite Ham in Hi. inversion Hi. reflexivity.
      - rewrite lookup_insert_ne by done. exact Hi. }
    assert (Hnone : forall i, heap s !! i = None -> heap s1 !! i = None).
    { intros i Hi. unfold s1. cbn [heap set_heap].
      rewrite lookup_insert_ne; [exact Hi | congruence]. }
    destruct (IH s1)
      as (s' & Hrun & Hm' & He' & Hgl' & Hr' & Hw' & Hh' & Hheap' & Hnone').
    + pose proof (Hlook self _ Ha) as Hs1.
      destruct (bool_decide (self = m)); cbn [regroup] in Hs1;
        eexists; (split; [exact Hs1|]); [reflexivity | exact Hg].
    + intros m' Hm'. destruct (Hmem m') as (am' & Ham'); [by apply elem_of_cons; right|].
      rewrite (Hlook m' _ Ham'). destruct (bool_decide (m' = m)); eexists; reflexivity.
    + exists s'. split; [cbn [for_each]; unfold bind; rewrite Hstep; exact Hrun|].
      repeat split; try assumption; [|by auto].
      intros i e Hi. rewrite (Hheap' i _ (Hlook i e Hi)). f_equal.
      destruct (decide (i = m)) as [->|Hne].
      * rewrite (bool_decide_eq_true_2 (m = m)) by reflexivity.
        rewrite (bool_decide_eq_true_2 (m ∈ m :: rest)) by (by apply elem_of_cons; left).
        destruct (bool_decide (m ∈ rest)); [apply regroup_idem | reflexivity].
      * rewrite (bool_decide_eq_false_2 (i = m)) by exact Hne.
        destruct (decide (i ∈ rest)) as [Hin|Hnin].
        -- rewrite (bool_decide_eq_true_2 (i ∈ rest)) by exact Hin.
           rewrite (bool_decide_eq_true_2 (i ∈ m :: rest))
             by (by apply elem_of_cons; right).
           reflexivity.
        -- rewrite (bool_decide_eq_false_2 (i ∈ rest)) by exact Hnin.
           rewrite (bool_decide_eq_false_2 (i ∈ m :: rest)); [reflexivity|].
           intros H. apply elem_of_cons in H as [?|?]; done.
Qed.

(** ** Merging: removing a group from the world *)

Lemma valid_same_dims s s' x y :
  width s' = width s -> height s' = height s ->
  is_valid_position s' x y = is_valid_position s x y.
Proof. intros Hw Hh. unfold is_valid_position. by rewrite Hw, Hh. Qed.

Lemma remove_group_body_spec s m :
  wf_matrix s ->
  (forall i, i ∈ entities s ->
     exists e, heap s !! i = Some e /\
               is_valid_position s (fst (position e)) (snd (position e)) = true) ->
  exists s',
    remove_group_body m s = Done tt s' /\
    heap s' = heap s /\ glists s' = glists s /\ rng s' = rng s /\
    width s' = width s /\ height s' = height s /\
    wf_matrix s' /\
    entities s' = py_remove m (entities s) /\
    (forall x y, is_valid_position s x y = true ->
                 cell s x y = Some None -> cell s' x y = Some None) /\
    (forall e, m ∈ entities s -> heap s !! m = Some e ->
               cell s' (fst (position e)) (snd (position e)) = Some None).
Proof.
  intros Hwf Hlive. unfold remove_group_body, bind, gets.
  destruct (py_in m (entities s)) eqn:Hin.
  - apply py_in_elem in Hin. destruct (Hlive m Hin) as (e & He & Hv).
    cbn [modify]. unfold load. cbn [heap set_entities]. rewrite He.
    set (s0 := set_entities (py_remove m (entities s)) s).
    assert (Hwf0 : wf_matrix s0) by exact Hwf.
    assert (Hv0 : is_valid_position s0 (fst (position e)) (snd (position e)) = true)
      by exact Hv.
    destruct (matrix_write_valid _ _ None s0 Hwf0 Hv0) as (m' & Hw & Hwf' & Hc & Hother).
    rewrite Hw. eexists. split; [reflexivity|].
    repeat split; try reflexivity; try apply Hwf'.
    + intros x y Hxy Hnone.
      destruct (decide ((x, y) = (fst (position e), snd (position e)))) as [Heq|Hne].
      * inversion Heq; subst. exact Hc.
      * rewrite (Hother x y Hxy Hne). exact Hnone.
    + intros e' _ He'. rewrite ?He in He'. inversion He'; subst e'. exact Hc.
  - apply py_in_not_elem in Hin. exists s. split; [reflexivity|].
    rewrite (py_remove_absent _ _ Hin). repeat split; try reflexivity; try apply Hwf.
    + intros x y _ H. exact H.
    + intros e Ht. contradiction.
Qed.

Lemma remove_group_loop_spec members :
  forall s,
    wf_matrix s ->
    NoDup (entities s) ->
    (forall i, i ∈ entities s ->
       exists e, heap s !! i = Some e /\
                 is_valid_position s (fst (position e)) (snd (position e)) = true) ->
    exists s',
      for_each members remove_group_body s = Done tt s' /\
      heap s' = heap s /\ glists s' = glists s /\ rng s' = rng s /\
      width s' = width s /\ height s' = height s /\
      wf_matrix s' /\ NoDup (entities s') /\
      (forall i, i ∈ entities s' -> i ∈ entities s) /\
      (forall m, m ∈ members -> m ∉ entities s') /\
      (forall x y, is_valid_position s x y = true ->
                   cell s x y = Some None -> cell s' x y = Some None) /\
      (forall m e, m ∈ members -> m ∈ entities s -> heap s !! m = Some e ->
                   cell s' (fst (position e)) (snd (position e)) = Some None).
Proof.
  induction members as [|m rest IH]; intros s Hwf Hnd Hlive.
  - exists s. split; [reflexivity|]. repeat split; try done; try apply Hwf.
    + intros m Hm. by apply elem_of_nil in Hm.
    + intros m e Hm. by apply elem_of_nil in Hm.
  - destruct (remove_group_body_spec s m Hwf Hlive)
      as (s1 & Hstep & Hh1 & Hg1 & Hr1 & Hw1 & Hht1 & Hwf1 & He1 & Hnone1 & Hc1).
    assert (Hnd1 : NoDup (entities s1)).
    { rewrite He1. by apply py_remove_NoDup. }
    assert (Hsub1 : forall i, i ∈ entities s1 -> i ∈ entities s).
    { intros i Hi. rewrite He1 in Hi. eapply py_remove_subset; eauto. }
    assert (Hlive1 : forall i, i ∈ entities s1 ->
              exists e, heap s1 !! i = Some e /\
                is_valid_position s1 (fst (position e)) (snd (position e)) = true).
    { intros i Hi. destruct (Hlive i (Hsub1 i Hi)) as (e & He & Hv).
      exists e. rewrite Hh1, (valid_same_dims s s1) by assumption. by split. }
    destruct (IH s1 Hwf1 Hnd1 Hlive1)
      as (s' & Hrun & Hh' & Hg' & Hr' & Hw' & Hht' & Hwf' & Hnd' & Hsub' & Hgone'
          & Hnone' & Hc').
    exists s'. split; [cbn [for_each]; unfold bind; rewrite Hstep; exact Hrun|].
    split; [congruence|]. split; [congruence|]. split; [congruence|].
    split; [congruence|]. split; [congruence|]. split; [exact Hwf'|].
    split; [exact Hnd'|]. split; [auto|]. split; [|split].
    + intros m' Hm' Hin. apply elem_of_cons in Hm' as [->|Hm'].
      * apply Hsub' in Hin. rewrite He1 in Hin.
        by apply (py_remove_NoDup m (entities s) Hnd).
      * by apply (Hgone' m').
    + intros x y Hxy Hnone. apply Hnone'.
      * by rewrite (valid_same_dims s s1).
      * by apply Hnone1.
    + intros m' e Hm' Hin He.
      destruct (Hlive m' Hin) as (e0 & He0 & Hv0).
      rewrite He in He0. inversion He0; subst e0.
      destruct (decide (m' = m)) as [->|Hne].
      * apply Hnone'; [by rewrite (valid_same_dims s s1) | by apply Hc1].
      * apply elem_of_cons in Hm' as [?|Hm']; [done|].
        apply (Hc' m' e Hm').
        -- rewrite He1. by apply py_remove_other.
        -- by rewrite Hh1.
Qed.

(** ** Merging: the absorption *)

Lemma bind_Done {A B} (c : Py A) (k : A -> Py B) s a s' :
  c s = Done a s' -> bind c k s = k a s'.
Proof. intros H. unfold bind. rewrite H. reflexivity. Qed.

Lemma load_animal_Some s i a :
  heap s !! i = Some (EAnimal a) -> load_animal i s = Done a s.
Proof. intros H. unfold load_animal, bind, load. rewrite H. reflexivity. Qed.

Lemma load_Some s i e : heap s !! i = Some e -> load i s = Done e s.
Proof. intros H. unfold load. rewrite H. reflexivity. Qed.

Lemma read_list_Some s g l : glists s !! g = Some l -> read_list g s = Done l s.
Proof. intros H. unfold read_list. rewrite H. reflexivity. Qed.

Lemma wf_matrix_same s s' :
  matrix s' = matrix s -> width s' = width s -> height s' = height s ->
  wf_matrix s -> wf_matrix s'.
Proof. intros Hm Hw Hh [H1 H2]. split; rewrite Hm; [by rewrite Hh | by rewrite Hw]. Qed.

Lemma absorb_spec s self entity a e :
  wf_state s = true ->
  heap s !! self = Some (EAnimal a) ->
  heap s !! entity = Some (EAnimal e) ->
  exists mine theirs s',
    glists s !! group a = Some mine /\
    glists s !! group e = Some theirs /\
    absorb self entity s = Done tt s' /\
    glists s' = <[group a := mine ++ theirs]> (glists s) /\
    rng s' = rng s /\
    (forall m, m ∈ theirs ->
       exists am, heap s !! m = Some (EAnimal am) /\
                  heap s' !! m = Some (EAnimal (set_group (group a) am))) /\
    (forall m, m ∈ theirs -> m ∉ entities s') /\
    (forall m em, m ∈ theirs -> m ∈ entities s -> heap s !! m = Some em ->
       cell s' (fst (position em)) (snd (position em)) = Some None) /\
    (forall i x, heap s' !! i = Some (EAnimal x) -> group x = group e ->
       group e = group a).
Proof.
  intros Hwf Hself Hentity.
  destruct (wf_state_group s self a Hwf Hself) as (mine & Hmine & Hself_in).
  destruct (wf_state_group s entity e Hwf Hentity) as (theirs & Htheirs & Hentity_in).
  exists mine, theirs.
  set (g := group a).
  set (s1 := set_glists (<[g := mine ++ theirs]> (glists s)) s).
  set (members := if decide (group e = g) then mine ++ theirs else theirs).
  assert (Hread : glists s1 !! group e = Some members).
  { unfold s1, members. cbn [glists set_glists]. destruct (decide (group e = g)) as [Heq|Hne].
    - rewrite Heq. apply lookup_insert_eq.
    - rewrite lookup_insert_ne by congruence. exact Htheirs. }
  assert (Hsub : forall m, m ∈ theirs -> m ∈ members).
  { intros m Hm. unfold members. destruct (decide (group e = g)); [|exact Hm].
    apply elem_of_app. by right. }
  assert (Hanimals : forall m, m ∈ members -> exists am, heap s1 !! m = Some (EAnimal am)).
  { intros m Hm. change (heap s1) with (heap s). unfold members in Hm.
    destruct (decide (group e = g)).
    - apply elem_of_app in Hm as [Hm|Hm].
      + exact (wf_state_member s _ _ m Hwf Hmine Hm).
      + exact (wf_state_member s _ _ m Hwf Htheirs Hm).
    - exact (wf_state_member s _ _ m Hwf Htheirs Hm). }
  destruct (repoint_loop_spec self g members s1)
    as (s2 & Hloop & Hm2 & He2 & Hg2 & Hr2 & Hw2 & Hh2 & Hheap2 & Hnone2).
  { exists a. by split. }
  { exact Hanimals. }
  assert (Hentity2 : heap s2 !! entity = Some (EAnimal (set_group g e))).
  { rewrite (Hheap2 entity _ Hentity).
    rewrite bool_decide_eq_true_2 by (apply Hsub; exact Hentity_in). reflexivity. }
  assert (Hwf2 : wf_matrix s2).
  { apply (wf_matrix_same s s2); try assumption. exact (wf_state_matrix s Hwf). }
  assert (Hnd2 : NoDup (entities s2)).
  { rewrite He2. exact (wf_state_NoDup s Hwf). }
  assert (Hlive2 : forall i, i ∈ entities s2 ->
            exists e0, heap s2 !! i = Some e0 /\
              is_valid_position s2 (fst (position e0)) (snd (position e0)) = true).
  { intros i Hi. rewrite He2 in Hi. destruct (wf_state_live s i Hwf Hi) as (e0 & He0 & Hv0).
    eexists. split; [apply (Hheap2 i e0 He0)|].
    rewrite (valid_same_dims s s2) by assumption.
    destruct (bool_decide (i ∈ members)); rewrite ?regroup_position; exact Hv0. }
  destruct (remove_group_loop_spec (mine ++ theirs) s2 Hwf2 Hnd2 Hlive2)
    as (s' & Hrun & Hh' & Hg' & Hr' & _ & _ & _ & _ & _ & Hgone & _ & Hcleared).
  exists s'.
  split; [exact Hmine|]. split; [exact Htheirs|].
  split.
  { unfold absorb.
    rewrite (bind_Done _ _ _ _ _ (load_animal_Some s self a Hself)).
    rewrite (bind_Done _ _ _ _ _ (load_animal_Some s entity e Hentity)).
    rewrite (bind_Done _ _ _ _ _ (read_list_Some s _ mine Hmine)).
    rewrite (bind_Done _ _ _ _ _ (read_list_Some s _ theirs Htheirs)).
    rewrite (bind_Done (write_list (group a) (mine ++ theirs)) _ s tt s1 eq_refl).
    rewrite (bind_Done _ _ _ _ _ (read_list_Some s1 _ members Hread)).
    change (fun member => bind (load_animal self)
                            (fun a' => update_animal member (set_group (group a'))))
      with (repoint self).
    rewrite (bind_Done _ _ _ _ _ Hloop).
    rewrite (bind_Done _ _ _ _ _ (load_animal_Some s2 entity _ Hentity2)).
    cbn [group set_group]. unfold remove_group.
    assert (Hl : glists s2 !! g = Some (mine ++ theirs)).
    { rewrite Hg2. unfold s1. cbn [glists set_glists]. apply lookup_insert_eq. }
    rewrite (bind_Done _ _ _ _ _ (read_list_Some s2 _ _ Hl)). exact Hrun. }
  split; [rewrite Hg', Hg2; reflexivity|].
  split; [rewrite Hr', Hr2; reflexivity|].
  split; [|split; [|split]].
  - intros m Hm. destruct (wf_state_member s _ _ m Hwf Htheirs Hm) as (am & Ham).
    exists am. split; [exact Ham|]. rewrite Hh', (Hheap2 m _ Ham).
    rewrite bool_decide_eq_true_2 by (by apply Hsub). reflexivity.
  - intros m Hm. apply Hgone. apply elem_of_app. by right.
  - intros m em Hm Hin Hem.
    rewrite <- (regroup_position g em).
    apply (Hcleared m (regroup g em)).
    + apply elem_of_app. by right.
    + by rewrite He2.
    + rewrite (Hheap2 m _ Hem). rewrite bool_decide_eq_true_2 by (by apply Hsub).
      reflexivity.
  - intros i x Hi Hgx. rewrite Hh' in Hi.
    destruct (heap s !! i) as [ei|] eqn:Hei.
    + rewrite (Hheap2 i _ Hei) in Hi.
      destruct (bool_decide (i ∈ members)) eqn:Hmem.
      * destruct ei as [ai|pi]; inversion Hi; subst x. cbn [group set_group] in Hgx.
        by symmetry.
      * apply bool_decide_eq_false in Hmem. inversion Hi; subst ei.
        destruct (wf_state_group s i x Hwf Hei) as (l & Hl & Hil).
        rewrite Hgx, Htheirs in Hl. inversion Hl; subst l.
        exfalso. apply Hmem. by apply Hsub.
    + rewrite (Hnone2 i Hei) in Hi. discriminate.
Qed.

(** ** Merging: which neighbour is picked *)

Lemma merge_loop_skip s (self : oid) a (entity : oid) e (rest : list oid) :
  heap s !! self = Some (EAnimal a) ->
  heap s !! entity = Some e ->
  isinstance (class_of e) (AnimalC (a_cls a)) && negb (Nat.eqb entity self) = false ->
  merge_loop self (entity :: rest) s = merge_loop self rest s.
Proof.
  intros Hself He Hc. cbn [merge_loop].
  rewrite (bind_Done _ _ _ _ _ (load_animal_Some s self a Hself)).
  rewrite (bind_Done _ _ _ _ _ (load_Some s entity e He)).
  rewrite Hc. reflexivity.
Qed.

Lemma merge_loop_draw s (self : oid) a (entity : oid) e (rest : list oid) :
  heap s !! self = Some (EAnimal a) ->
  heap s !! entity = Some e ->
  isinstance (class_of e) (AnimalC (a_cls a)) && negb (Nat.eqb entity self) = true ->
  merge_loop self (entity :: rest) s =
  match random s with
  | Done draw s1 =>
      if Qltb draw (25 # 100) then absorb self entity s1 else merge_loop self rest s1
  | Raised x s1 => Raised x s1
  end.
Proof.
  intros Hself He Hc. cbn [merge_loop].
  rewrite (bind_Done _ _ _ _ _ (load_animal_Some s self a Hself)).
  rewrite (bind_Done _ _ _ _ _ (load_Some s entity e He)).
  rewrite Hc. unfold bind.
  destruct (random s) as [draw s1|]; [|reflexivity].
  destruct (Qltb draw (25 # 100)); reflexivity.
Qed.

Lemma merge_candidate_inv s self cls t :
  merge_candidate s self cls t = true ->
  t <> self /\ exists e, heap s !! t = Some (EAnimal e) /\ a_cls e = cls.
Proof.
  unfold merge_candidate. destruct (heap s !! t) as [[e|p]|]; try discriminate.
  - rewrite andb_true_iff. intros [Hc Hne]. split.
    + apply negb_true_iff, Nat.eqb_neq in Hne. exact Hne.
    + exists e. split; [reflexivity|]. simpl in Hc.
      destruct (a_cls e), cls; try discriminate; reflexivity.
Qed.

Lemma merge_loop_select s self a l :
  heap s !! self = Some (EAnimal a) ->
  (forall t, t ∈ l -> exists e, heap s !! t = Some e) ->
  forall j,
    match first_success (25 # 100) (draw_at s) j
                        (length (List.filter (merge_candidate s self (a_cls a)) l)) with
    | None =>
        merge_loop self l (drop_floats j s)
        = Done tt (drop_floats
                     (j + length (List.filter (merge_candidate s self (a_cls a)) l)) s)
    | Some k =>
        exists entity,
          List.filter (merge_candidate s self (a_cls a)) l !! k = Some entity /\
          merge_loop self l (drop_floats j s)
          = absorb self entity (drop_floats (j + S k) s)
    end.
Proof.
  intros Hself. induction l as [|t rest IH]; intros Hall j.
  - simpl. rewrite Nat.add_0_r. reflexivity.
  - assert (Hrest : forall t', t' ∈ rest -> exists e, heap s !! t' = Some e).
    { intros t' Ht'. apply Hall. by apply elem_of_cons; right. }
    destruct (Hall t) as [et Het]; [by apply elem_of_cons; left|].
    assert (Hc : merge_candidate s self (a_cls a) t
                 = isinstance (class_of et) (AnimalC (a_cls a)) && negb (Nat.eqb t self)).
    { unfold merge_candidate. rewrite Het. reflexivity. }
    cbn [List.filter]. rewrite Hc.
    destruct (isinstance (class_of et) (AnimalC (a_cls a)) && negb (Nat.eqb t self))
      eqn:Hcand.
    + rewrite (merge_loop_draw (drop_floats j s) self a t et rest Hself Het Hcand).
      rewrite random_drop_floats. cbn [length first_success].
      destruct (Qltb (draw_at s j) (25 # 100)) eqn:Hd.
      * exists t. split; [reflexivity|]. rewrite Nat.add_1_r. reflexivity.
      * specialize (IH Hrest (S j)).
        destruct (first_success _ _ (S j) _) as [k|]; cbn [option_map].
        -- destruct IH as (t' & Hk & Heq).
           exists t'. split; [exact Hk|]. rewrite Heq. f_equal. f_equal. lia.
        -- rewrite IH. f_equal. f_equal. lia.
    + rewrite (merge_loop_skip (drop_floats j s) self a t et rest Hself Het Hcand).
      apply IH. exact Hrest.
Qed.

Lemma try_merge_groups_select s self a :
  wf_state s = true ->
  heap s !! self = Some (EAnimal a) ->
  match first_success (25 # 100) (draw_at s) 0
          (length (List.filter (merge_candidate s self (a_cls a))
                               (nearby s (a_position a) 2))) with
  | None =>
      try_merge_groups self s
      = Done tt (drop_floats
                   (length (List.filter (merge_candidate s self (a_cls a))
                                        (nearby s (a_position a) 2))) s)
  | Some k =>
      exists entity,
        List.filter (merge_candidate s self (a_cls a)) (nearby s (a_position a) 2) !! k
        = Some entity /\
        try_merge_groups self s = absorb self entity (drop_floats (S k) s)
  end.
Proof.
  intros Hwf Hself.
  assert (Hrun : try_merge_groups self s = merge_loop self (nearby s (a_position a) 2) s).
  { unfold try_merge_groups.
    rewrite (bind_Done _ _ _ _ _ (load_animal_Some s self a Hself)).
    rewrite (bind_Done _ _ _ _ _ (nearby_spec s _ _ (wf_state_matrix s Hwf))).
    reflexivity. }
  assert (Hall : forall t, t ∈ nearby s (a_position a) 2 -> exists e, heap s !! t = Some e).
  { intros t Ht. eapply nearby_allocated; eauto. }
  pose proof (merge_loop_select s self a _ Hself Hall 0%nat) as Hsel.
  rewrite drop_floats_0 in Hsel. rewrite Hrun. exact Hsel.
Qed.

Lemma wf_state_drop_floats n s : wf_state (drop_floats n s) = wf_state s.
Proof. reflexivity. Qed.

Lemma call_try_merge_groups_of_class s self a :
  heap s !! self = Some (EAnimal a) ->
  inst_try_merge_groups a = false ->
  call_try_merge_groups self s = try_merge_groups self s.
Proof.
  intros Hself Hi. unfold call_try_merge_groups.
  rewrite (bind_Done _ _ _ _ _ (load_animal_Some s self a Hself)).
  rewrite Hi. reflexivity.
Qed.

(** C6, as the code has it.  In Normal mode the merge step of an animal is
    [try_merge_groups].  Among the neighbours within radius 2, in scan
    order, those of the animal's class other than the animal itself get one
    draw each against 0.25, whether or not their group is the animal's own,
    until a draw succeeds.  If none does, nothing but the oracle has
    changed.  At the first success the members of the other's group list
    are appended to the animal's group list, each of them is re-pointed to
    that list, no animal refers to the other list any more unless it is the
    animal's own, and no later neighbour gets a draw. *)
Theorem merge_first_success (s : St) (self : oid) (a : Animal) :
  wf_state s = true ->
  heap s !! self = Some (EAnimal a) ->
  inst_try_merge_groups a = false ->
  let candidates :=
    List.filter (merge_candidate s self (a_cls a)) (nearby s (a_position a) 2) in
  call_try_merge_groups self s = try_merge_groups self s /\
  (first_success (25 # 100) (draw_at s) 0 (length candidates) = None ->
   try_merge_groups self s = Done tt (drop_floats (length candidates) s)) /\
  (forall k,
     first_success (25 # 100) (draw_at s) 0 (length candidates) = Some k ->
     exists entity e mine theirs s',
       candidates !! k = Some entity /\
       entity <> self /\
       heap s !! entity = Some (EAnimal e) /\
       a_cls e = a_cls a /\
       glists s !! group a = Some mine /\
       glists s !! group e = Some theirs /\
       try_merge_groups self s = Done tt s' /\
       glists s' = <[group a := mine ++ theirs]> (glists s) /\
       (forall m, m ∈ theirs ->
          exists am, heap s !! m = Some (EAnimal am) /\
                     heap s' !! m = Some (EAnimal (set_group (group a) am))) /\
       (forall i x, heap s' !! i = Some (EAnimal x) -> group x = group e ->
          group e = group a) /\
       rng s' = rng (drop_floats (S k) s)).
Proof.
  intros Hwf Hself Hinst candidates.
  pose proof (try_merge_groups_select s self a Hwf Hself) as Hsel.
  fold candidates in Hsel.
  split; [by apply (call_try_merge_groups_of_class s self a)|]. split.
  - intros Hnone. rewrite Hnone in Hsel. exact Hsel.
  - intros k Hk. rewrite Hk in Hsel. destruct Hsel as (entity & Hcand & Hrun).
    assert (Hin : In entity candidates).
    { apply list_elem_of_In. eapply list_elem_of_lookup_2. exact Hcand. }
    apply filter_In in Hin as [_ Hc].
    apply merge_candidate_inv in Hc as (Hne & e & He & Hcls).
    destruct (absorb_spec (drop_floats (S k) s) self entity a e Hwf Hself He)
      as (mine & theirs & s' & Hmine & Htheirs & Habs & Hg & Hr & Hre & _ & _ & Hdisc).
    exists entity, e, mine, theirs, s'.
    split; [exact Hcand|]. split; [exact Hne|]. split; [exact He|]. split; [exact Hcls|].
    split; [exact Hmine|]. split; [exact Htheirs|].
    split; [rewrite Hrun; exact Habs|].
    split; [exact Hg|]. split; [exact Hre|]. split; [exact Hdisc | exact Hr].
Qed.

(** C2, as the code has it.  [try_merge_groups] returns, and either
    nothing but the oracle has changed, or the merge with one neighbour is
    complete: the members of the neighbour's group list are appended to the
    group list of the animal, every one of them is re-pointed to that list,
    none of them is in the live list any more, and the cell of every one of
    them that was live is empty. *)
Theorem merge_all_or_nothing (s : St) (self : oid) (a : Animal) :
  wf_state s = true ->
  heap s !! self = Some (EAnimal a) ->
  exists s',
    try_merge_groups self s = Done tt s' /\
    ((matrix s' = matrix s /\ entities s' = entities s /\
      heap s' = heap s /\ glists s' = glists s) \/
     (exists entity e mine theirs,
        entity ∈ nearby s (a_position a) 2 /\
        heap s !! entity = Some (EAnimal e) /\
        glists s !! group a = Some mine /\
        glists s !! group e = Some theirs /\
        glists s' !! group a = Some (mine ++ theirs) /\
        (forall m, m ∈ theirs ->
           exists am, heap s !! m = Some (EAnimal am) /\
                      heap s' !! m = Some (EAnimal (set_group (group a) am))) /\
        (forall m, m ∈ theirs -> m ∉ entities s') /\
        (forall m em, m ∈ theirs -> m ∈ entities s -> heap s !! m = Some em ->
           cell s' (fst (position em)) (snd (position em)) = Some None))).
Proof.
  intros Hwf Hself.
  pose proof (try_merge_groups_select s self a Hwf Hself) as Hsel.
  destruct (first_success _ _ _ _) as [k|].
  - destruct Hsel as (entity & Hcand & Hrun).
    assert (Hin : In entity (List.filter (merge_candidate s self (a_cls a))
                                         (nearby s (a_position a) 2))).
    { apply list_elem_of_In. eapply list_elem_of_lookup_2. exact Hcand. }
    apply filter_In in Hin as [Hnear Hc].
    apply merge_candidate_inv in Hc as (Hne & e & He & Hcls).
    destruct (absorb_spec (drop_floats (S k) s) self entity a e Hwf Hself He)
      as (mine & theirs & s' & Hmine & Htheirs & Habs & Hg & _ & Hre & Hgone & Hcell & _).
    exists s'. split; [rewrite Hrun; exact Habs|]. right.
    exists entity, e, mine, theirs.
    split; [by apply list_elem_of_In|]. split; [exact He|].
    split; [exact Hmine|]. split; [exact Htheirs|].
    split; [rewrite Hg; apply lookup_insert_eq|].
    split; [exact Hre|]. split; [exact Hgone | exact Hcell].
  - eexists. split; [exact Hsel|]. left. by repeat split.
Qed.

(** ** The run of the two Malheureux *)

Lemma duo_spawn :
  initial_spawn (AnimalC Malheureux) 2
                (World 4 1 40 (mkRng [] [0; 1; 0; 2; 0; 1; 0])) = Some (Done tt duo).
Proof. vm_compute. reflexivity. Qed.

Lemma duo_reachable : reachable duo.
Proof. eapply reach_spawn; [constructor | exact duo_spawn]. Qed.

(** C2, as the specification words it, fails.  The object 0 merges with its
    neighbour, the object 1: the member of the absorbed group is re-pointed
    to the group list of the object 0, but it is no longer live and its
    cell is empty. *)
Lemma merge_removes_absorbed_members :
  let s' := state_of (try_merge_groups 0%nat duo) in
  wf_state duo = true /\
  entities duo = [0; 1]%nat /\
  cell duo 0 2 = Some (Some 1%nat) /\
  glists duo !! 1%nat = Some [1%nat] /\
  returned (try_merge_groups 0%nat duo) = true /\
  glists s' !! 0%nat = Some [0; 1]%nat /\
  group_of s' 1%nat = Some 0%nat /\
  py_in 1%nat (entities s') = false /\
  cell s' 0 2 = Some None.
Proof. vm_compute. repeat split. Qed.

Lemma merge_all_or_nothing_witness :
  wf_state duo = true /\
  exists s', try_merge_groups 0%nat duo = Done tt s'.
Proof.
  split; [vm_compute; reflexivity|].
  destruct (merge_all_or_nothing duo 0%nat
              (mkAnimal Malheureux (0, 1) 100 100 true false 0%nat
                        false false false false))
    as (s' & Hrun & _).
  - vm_compute. reflexivity.
  - vm_compute. reflexivity.
  - exists s'. exact Hrun.
Defined.

(** C6, as the specification words it, fails.  When the object 1 takes its
    turn in the first tick, it is in the group of the object 0, its only
    neighbour, so no neighbour has a group that differs from its own.  The
    draw is made all the same, and the merge of the group list with itself
    doubles it. *)
Lemma merge_with_own_group :
  let s1 := state_of (try_merge_groups 1%nat duo_second_turn) in
  returned (update_state 0%nat "morning" duo) = true /\
  group_of duo_second_turn 0%nat = Some 0%nat /\
  group_of duo_second_turn 1%nat = Some 0%nat /\
  glists duo_second_turn !! 0%nat = Some [0; 1]%nat /\
  nearby duo_second_turn (0, 2) 2 = [0%nat] /\
  returned (try_merge_groups 1%nat duo_second_turn) = true /\
  glists s1 !! 0%nat = Some [0; 1; 0; 1]%nat /\
  returned (process_tick duo) = true /\
  glists (state_of (process_tick duo)) !! 0%nat = Some [0; 1; 0; 1]%nat.
Proof. vm_compute. repeat split. Qed.

Lemma merge_first_success_witness :
  exists s',
    try_merge_groups 0%nat duo = Done tt s' /\
    glists s' !! 0%nat = Some [0; 1]%nat.
Proof.
  pose proof (merge_first_success duo 0%nat
                (mkAnimal Malheureux (0, 1) 100 100 true false 0%nat
                          false false false false)) as H.
  cbv zeta in H. destruct H as (_ & _ & Hs).
  - vm_compute. reflexivity.
  - vm_compute. reflexivity.
  - reflexivity.
  - destruct (Hs 0%nat)
      as (entity & e & mine & theirs & s' & Hc & _ & He & _ & Hm & Ht & Hrun & Hg & _).
    + vm_compute. reflexivity.
    + vm_compute in Hc. inversion Hc; subst entity.
      vm_compute in He. inversion He; subst e.
      vm_compute in Hm. inversion Hm; subst mine.
      vm_compute in Ht. inversion Ht; subst theirs.
      exists s'. split; [exact Hrun|]. rewrite Hg. vm_compute. reflexivity.
Defined.

(** * Further properties of the code *)

(** ** The grid, cell by cell *)

(** Two matrices of the same dimensions that agree on every cell inside the
    grid are the same matrix. *)
Lemma matrix_ext s s' :
  wf_matrix s -> wf_matrix s' ->
  height s' = height s -> width s' = width s ->
  (forall x y, is_valid_position s x y = true -> cell s' x y = cell s x y) ->
  matrix s' = matrix s.
Proof.
  intros Hwf Hwf' Hh Hw Hc. apply list_eq. intros k.
  destruct (decide (Z.of_nat k < height s)) as [Hk|Hk].
  - destruct (wf_row s (Z.of_nat k) Hwf ltac:(lia)) as (row & Hrow & Hlen).
    destruct (wf_row s' (Z.of_nat k) Hwf' ltac:(lia)) as (row' & Hrow' & Hlen').
    rewrite Nat2Z.id in Hrow, Hrow'. rewrite Hrow, Hrow'. f_equal.
    apply list_eq. intros j.
    destruct (decide (Z.of_nat j < width s)) as [Hj|Hj].
    + assert (Hv : is_valid_position s (Z.of_nat k) (Z.of_nat j) = true)
        by (apply valid_bounds; lia).
      specialize (Hc _ _ Hv). unfold cell in Hc.
      rewrite !py_get_inrange in Hc by (destruct Hwf, Hwf'; lia).
      rewrite Nat2Z.id in Hc. rewrite Hrow, Hrow' in Hc.
      rewrite !py_get_inrange in Hc by lia. rewrite Nat2Z.id in Hc. exact Hc.
    + rewrite !lookup_ge_None_2 by lia. reflexivity.
  - destruct Hwf as [Hl _], Hwf' as [Hl' _].
    rewrite !lookup_ge_None_2 by lia. reflexivity.
Qed.

(** ** Free cells around a position *)

Lemma List_filter_sublist {A} (f : A -> bool) (l : list A) :
  List.filter f l `sublist_of` l.
Proof.
  induction l as [|a l IH]; simpl; [constructor|].
  destruct (f a); by constructor.
Qed.

Lemma NoDup_List_filter {A} (f : A -> bool) (l : list A) :
  NoDup l -> NoDup (List.filter f l).
Proof. intros H. exact (sublist_NoDup _ _ H (List_filter_sublist f l)). Qed.

Lemma free_cells_loop_closed x y offs acc s :
  wf_matrix s ->
  free_cells_loop x y offs acc s = Done (acc ++ free_cells s x y offs) s.
Proof.
  intros Hwf. revert acc. induction offs as [|[dx dy] rest IH]; intros acc.
  - simpl. unfold free_cells. simpl. rewrite app_nil_r. reflexivity.
  - cbn [free_cells_loop]. unfold free_cells. cbn [List.filter fst snd].
    destruct ((dx =? 0) && (dy =? 0)) eqn:Hz; cbn [negb].
    + apply IH.
    + unfold bind, gets. cbn [map List.filter fst snd].
      destruct (is_valid_position s (x + dx) (y + dy)) eqn:Hv; cbn [andb].
      * destruct (cell_valid s _ _ Hwf Hv) as (row & c & _ & _ & Hc).
        rewrite matrix_read_cell, Hc. destruct c as [o|].
        -- apply IH.
        -- rewrite IH. unfold free_cells. rewrite <- app_assoc. reflexivity.
      * apply IH.
Qed.

Lemma moore_offsets_spec dx dy :
  In (dx, dy) moore_offsets <-> (-1 <= dx <= 1 /\ -1 <= dy <= 1).
Proof.
  unfold moore_offsets. simpl. split.
  - intros H. repeat (destruct H as [H|H]; [inversion H; lia|]). contradiction.
  - intros [Hx Hy].
    assert (Hdx : dx = -1 \/ dx = 0 \/ dx = 1) by lia.
    assert (Hdy : dy = -1 \/ dy = 0 \/ dy = 1) by lia.
    destruct Hdx as [-> | [-> | ->]], Hdy as [-> | [-> | ->]]; tauto.
Qed.

(** [get_free_adjacent_cells] only reads the world.  The list it returns has
    no cell twice, and a cell is in it exactly when it lies inside the grid,
    is empty, is at most one step away from the position in each
    coordinate, and is not the position itself. *)
Theorem get_free_adjacent_cells_spec (s : St) (x y : Z) :
  wf_matrix s ->
  exists cells,
    get_free_adjacent_cells (x, y) s = Done cells s /\
    NoDup cells /\
    forall nx ny,
      (nx, ny) ∈ cells <->
      (is_valid_position s nx ny = true /\ cell s nx ny = Some None /\
       Z.abs (nx - x) <= 1 /\ Z.abs (ny - y) <= 1 /\ (nx, ny) <> (x, y)).
Proof.
  intros Hwf. exists (free_cells s x y moore_offsets).
  split; [|split].
  - unfold get_free_adjacent_cells. rewrite free_cells_loop_closed by exact Hwf.
    reflexivity.
  - unfold free_cells. apply NoDup_List_filter.
    assert (Hinj : Inj (=) (=) (fun d : Z * Z => (x + fst d, y + snd d))).
    { intros [a b] [c d] H. simpl in H. inversion H. f_equal; lia. }
    apply (NoDup_fmap_2 (fun d : Z * Z => (x + fst d, y + snd d))).
    apply (bool_decide_unpack _). vm_compute. exact I.
  - intros nx ny. rewrite list_elem_of_In. unfold free_cells.
    rewrite filter_In, in_map_iff. cbn [fst snd]. split.
    + intros [([dx dy] & Heq & Hin) Hc]. cbn [fst snd] in Heq. inversion Heq; subst.
      apply filter_In in Hin as [Hin Hnz]. apply moore_offsets_spec in Hin.
      apply andb_true_iff in Hc as [Hv Hc].
      cbn [fst snd] in Hnz. apply negb_true_iff, andb_false_iff in Hnz.
      split; [exact Hv|]. split.
      { destruct (cell s (x + dx) (y + dy)) as [[o|]|]; [discriminate|reflexivity|discriminate]. }
      split; [lia|]. split; [lia|].
      intros H. inversion H. destruct Hnz as [Hnz|Hnz]; apply Z.eqb_neq in Hnz; lia.
    + intros (Hv & Hc & Hx & Hy & Hne). split.
      * exists (nx - x, ny - y). cbn [fst snd]. split; [f_equal; lia|].
        apply filter_In. split; [apply moore_offsets_spec; lia|].
        cbn [fst snd]. apply negb_true_iff, andb_false_iff.
        destruct (decide (nx - x = 0)) as [H0|H0].
        -- right. apply Z.eqb_neq. intros H1. apply Hne. f_equal; lia.
        -- left. apply Z.eqb_neq. exact H0.
      * rewrite Hv, Hc. reflexivity.
Qed.

Lemma scenario_wf : wf_state scenario = true.
Proof. vm_compute. reflexivity. Qed.

Lemma scenario_wf_matrix : wf_matrix scenario.
Proof. apply wf_state_matrix. exact scenario_wf. Qed.

Lemma get_free_adjacent_cells_spec_witness :
  exists cells,
    get_free_adjacent_cells (0, 2) scenario = Done cells scenario /\
    (0, 1) ∈ cells /\ (0, 3) ∉ cells.
Proof.
  destruct (get_free_adjacent_cells_spec scenario 0 2 scenario_wf_matrix)
    as (cells & Hret & _ & Hiff).
  exists cells. split; [exact Hret|]. split.
  - apply Hiff. split; [vm_compute; reflexivity|]. split; [vm_compute; reflexivity|].
    split; [lia|]. split; [lia|]. discriminate.
  - intros Hin. apply Hiff in Hin as (_ & Hc & _). vm_compute in Hc. discriminate.
Defined.

(** ** Objects around a position *)

Lemma nearby_loop_closed x y offs acc s :
  wf_matrix s ->
  nearby_loop x y offs acc s = Done (acc ++ seen s x y offs) s.
Proof.
  intros Hwf. revert acc. induction offs as [|[dx dy] rest IH]; intros acc.
  - simpl. rewrite app_nil_r. reflexivity.
  - cbn [nearby_loop seen flat_map]. unfold seen_at. cbn [fst snd].
    unfold bind, gets.
    change ((0 <=? x + dx) && (x + dx <? height s) && (0 <=? y + dy) && (y + dy <? width s))
      with (is_valid_position s (x + dx) (y + dy)).
    destruct (is_valid_position s (x + dx) (y + dy)) eqn:Hv.
    + destruct (cell_valid s _ _ Hwf Hv) as (row & c & _ & _ & Hc).
      rewrite matrix_read_cell, Hc. destruct c as [o|].
      * destruct (negb (dx =? 0) || negb (dy =? 0)).
        -- rewrite IH. fold (seen s x y rest). rewrite <- app_assoc. reflexivity.
        -- apply IH.
      * apply IH.
    + apply IH.
Qed.

Lemma In_range_iff a b x : In x (range a b) <-> a <= x < b.
Proof.
  unfold range. rewrite in_map_iff. split.
  - intros (k & <- & Hk). apply in_seq in Hk. lia.
  - intros H. exists (Z.to_nat (x - a)). split; [lia|]. apply in_seq. lia.
Qed.

Lemma offsets_spec r dx dy :
  In (dx, dy) (offsets r) <-> (- r <= dx <= r /\ - r <= dy <= r).
Proof.
  unfold offsets. rewrite in_flat_map. split.
  - intros (a & Ha & Hin). apply in_map_iff in Hin as (b & Heq & Hb).
    inversion Heq; subst. apply In_range_iff in Ha, Hb. lia.
  - intros [Hx Hy]. exists dx. split; [apply In_range_iff; lia|].
    apply in_map_iff. exists dy. split; [reflexivity|apply In_range_iff; lia].
Qed.

Lemma seen_spec s x y r o :
  o ∈ seen s x y (offsets r) <->
  exists dx dy,
    - r <= dx <= r /\ - r <= dy <= r /\ (dx <> 0 \/ dy <> 0) /\
    is_valid_position s (x + dx) (y + dy) = true /\
    cell s (x + dx) (y + dy) = Some (Some o).
Proof.
  rewrite list_elem_of_In. unfold seen. rewrite in_flat_map. split.
  - intros ([dx dy] & Hin & Ho). apply offsets_spec in Hin.
    unfold seen_at in Ho. cbn [fst snd] in Ho.
    destruct (is_valid_position s (x + dx) (y + dy)) eqn:Hv; [|contradiction].
    destruct (cell s (x + dx) (y + dy)) as [[o'|]|] eqn:Hc; try contradiction.
    destruct (negb (dx =? 0) || negb (dy =? 0)) eqn:Hnz; [|contradiction].
    destruct Ho as [->|[]]. exists dx, dy.
    apply orb_true_iff in Hnz. rewrite !negb_true_iff, !Z.eqb_neq in Hnz.
    repeat split; try lia; try assumption.
  - intros (dx & dy & Hx & Hy & Hnz & Hv & Hc). exists (dx, dy).
    split; [apply offsets_spec; lia|].
    unfold seen_at. cbn [fst snd]. rewrite Hv, Hc.
    assert (Hb : negb (dx =? 0) || negb (dy =? 0) = true).
    { apply orb_true_iff. rewrite !negb_true_iff, !Z.eqb_neq. exact Hnz. }
    rewrite Hb. by left.
Qed.

Lemma get_nearby_objects_seen s x y r :
  wf_matrix s -> get_nearby_objects (x, y) r s = Done (seen s x y (offsets r)) s.
Proof.
  intros Hwf. unfold get_nearby_objects. rewrite nearby_loop_closed by exact Hwf.
  reflexivity.
Qed.

(** [get_nearby_objects] only reads the world.  An object is in the list it
    returns exactly when it is held by a cell inside the grid that is at
    most [radius] away from the position in each coordinate and is not the
    cell of the position itself; with a radius of 0 or less the list is
    empty. *)
Theorem get_nearby_objects_spec (s : St) (x y r : Z) :
  wf_matrix s ->
  exists l,
    get_nearby_objects (x, y) r s = Done l s /\
    (forall o,
       o ∈ l <->
       exists dx dy,
         - r <= dx <= r /\ - r <= dy <= r /\ (dx <> 0 \/ dy <> 0) /\
         is_valid_position s (x + dx) (y + dy) = true /\
         cell s (x + dx) (y + dy) = Some (Some o)) /\
    (r <= 0 -> l = []).
Proof.
  intros Hwf. exists (seen s x y (offsets r)).
  split; [by apply get_nearby_objects_seen|]. split; [intros o; apply seen_spec|].
  intros Hr. destruct (seen s x y (offsets r)) as [|o l] eqn:E; [reflexivity|].
  exfalso. destruct (proj1 (seen_spec s x y r o)) as (dx & dy & Hx & Hy & Hnz & _).
  - rewrite E. apply elem_of_cons. by left.
  - lia.
Qed.

(** ** Indices outside the grid *)

Lemma py_index_out n i :
  ~ (- Z.of_nat n <= i < Z.of_nat n) -> py_index n i = None.
Proof.
  intros H. unfold py_index.
  destruct ((0 <=? i) && (i <? Z.of_nat n)) eqn:E1.
  { apply andb_true_iff in E1. lia. }
  destruct ((- Z.of_nat n <=? i) && (i <? 0)) eqn:E2; [|reflexivity].
  apply andb_true_iff in E2. lia.
Qed.

Lemma py_index_wrap n i :
  - Z.of_nat n <= i < Z.of_nat n -> py_index n i = Some (Z.to_nat (i mod Z.of_nat n)).
Proof.
  intros H. unfold py_index.
  destruct ((0 <=? i) && (i <? Z.of_nat n)) eqn:E1.
  { apply andb_true_iff in E1. rewrite Z.mod_small by lia. reflexivity. }
  apply andb_false_iff in E1.
  destruct ((- Z.of_nat n <=? i) && (i <? 0)) eqn:E2.
  - f_equal. f_equal.
    rewrite <- (Z.mod_small (Z.of_nat n + i) (Z.of_nat n)) by lia.
    rewrite <- (Z_mod_plus_full i 1 (Z.of_nat n)). f_equal. lia.
  - apply andb_false_iff in E2. lia.
Qed.

Lemma matrix_write_out x y v s :
  wf_matrix s ->
  ~ (- height s <= x < height s /\ - width s <= y < width s) ->
  matrix_write x y v s = Raised IndexError s.
Proof.
  intros [Hh Hr] Hout. unfold matrix_write, py_get.
  destruct (decide (- height s <= x < height s)) as [Hx|Hx].
  - rewrite py_index_wrap by lia.
    destruct (matrix s !! Z.to_nat (x mod Z.of_nat (length (matrix s)))) as [row|] eqn:Hrow;
      [|reflexivity].
    assert (Hlen : Z.of_nat (length row) = width s).
    { rewrite Forall_forall in Hr. apply Hr. eapply list_elem_of_lookup_2. exact Hrow. }
    unfold py_set. rewrite py_index_out by lia. reflexivity.
  - rewrite py_index_out by lia. reflexivity.
Qed.

Lemma matrix_write_wrap x y v s :
  wf_matrix s ->
  - height s <= x < height s -> - width s <= y < width s ->
  matrix_write x y v s = matrix_write (x mod height s) (y mod width s) v s.
Proof.
  intros [Hh Hr] Hx Hy. unfold matrix_write, py_get, py_set.
  assert (Hmx : 0 <= x mod height s < height s) by (apply Z.mod_pos_bound; lia).
  assert (Hmy : 0 <= y mod width s < width s) by (apply Z.mod_pos_bound; lia).
  rewrite (py_index_wrap _ x) by lia.
  rewrite (py_index_inrange _ (x mod height s)) by lia.
  rewrite Hh.
  destruct (matrix s !! Z.to_nat (x mod height s)) as [row|] eqn:Hrow; [|reflexivity].
  assert (Hlen : Z.of_nat (length row) = width s).
  { rewrite Forall_forall in Hr. apply Hr. eapply list_elem_of_lookup_2. exact Hrow. }
  rewrite (py_index_wrap _ y) by lia.
  rewrite (py_index_inrange _ (y mod width s)) by lia.
  rewrite Hlen. reflexivity.
Qed.

(** [add_entity] of an entity whose position is not an index of the matrix
    (a row outside [-height, height) or a column outside [-width, width))
    raises IndexError and changes nothing: the entity is not appended to
    the live list. *)
Theorem add_entity_out_of_range (s : St) (i : oid) (e : Entity) :
  wf_matrix s ->
  heap s !! i = Some e ->
  ~ (- height s <= fst (position e) < height s /\
     - width s <= snd (position e) < width s) ->
  add_entity i s = Raised IndexError s.
Proof.
  intros Hwf Hheap Hout. unfold add_entity, bind, load. rewrite Hheap.
  rewrite matrix_write_out by assumption. reflexivity.
Qed.

Lemma unplaced_wf pos : wf_matrix (unplaced pos).
Proof. split; [reflexivity|]. repeat constructor. Qed.

Lemma add_entity_out_of_range_witness :
  add_entity 0%nat (unplaced (2, 0)) = Raised IndexError (unplaced (2, 0)) /\
  entities (unplaced (2, 0)) = [].
Proof.
  split; [|reflexivity].
  apply (add_entity_out_of_range (unplaced (2, 0)) 0%nat
           (EPlant (mkPlant Lumiere (2, 0) ["day"] [PlantC Obscurite; PlantC Demi]
                            0 false false))).
  - apply unplaced_wf.
  - vm_compute. reflexivity.
  - change (height (unplaced (2, 0))) with 2. cbn [position p_position fst snd]. lia.
Defined.

(** A negative coordinate counts from the end, as a Python index does: for
    a position whose row lies in [-height, height) and whose column lies in
    [-width, width), [add_entity] returns, binds the cell in the row
    [x mod height] and the column [y mod width] to the entity, and appends
    the entity to the live list; the position of the entity and the other
    cells are as they were. *)
Theorem add_entity_negative_index (s : St) (i : oid) (e : Entity) :
  wf_matrix s ->
  heap s !! i = Some e ->
  - height s <= fst (position e) < height s ->
  - width s <= snd (position e) < width s ->
  exists s',
    add_entity i s = Done tt s' /\
    cell s' (fst (position e) mod height s) (snd (position e) mod width s) = Some (Some i) /\
    entities s' = entities s ++ [i] /\
    heap s' = heap s /\
    (forall x y, is_valid_position s x y = true ->
                 (x, y) <> (fst (position e) mod height s, snd (position e) mod width s) ->
                 cell s' x y = cell s x y).
Proof.
  intros Hwf Hheap Hx Hy.
  assert (Hv : is_valid_position s (fst (position e) mod height s)
                                   (snd (position e) mod width s) = true).
  { apply valid_bounds. split; apply Z.mod_pos_bound; lia. }
  destruct (matrix_write_valid _ _ (Some i) s Hwf Hv) as (m' & Hw & _ & Hc & Hother).
  exists (set_entities (entities s ++ [i]) (set_matrix m' s)).
  split; [|repeat split; assumption].
  unfold add_entity, bind, load. rewrite Hheap.
  rewrite matrix_write_wrap by assumption. rewrite Hw. reflexivity.
Qed.

Lemma add_entity_negative_index_witness :
  exists s',
    add_entity 0%nat (unplaced (-1, -1)) = Done tt s' /\
    cell s' 1 2 = Some (Some 0%nat) /\
    position <$> heap s' !! 0%nat = Some (-1, -1).
Proof.
  destruct (add_entity_negative_index (unplaced (-1, -1)) 0%nat
              (EPlant (mkPlant Lumiere (-1, -1) ["day"] [PlantC Obscurite; PlantC Demi]
                               0 false false)))
    as (s' & Ha & Hc & _ & Hh & _).
  - apply unplaced_wf.
  - vm_compute. reflexivity.
  - change (height (unplaced (-1, -1))) with 2. cbn [position p_position fst snd]. lia.
  - change (width (unplaced (-1, -1))) with 3. cbn [position p_position fst snd]. lia.
  - exists s'. split; [exact Ha|]. split; [exact Hc|]. rewrite Hh. vm_compute. reflexivity.
Defined.

Lemma get_nearby_objects_spec_witness :
  exists l,
    get_nearby_objects (0, 2) 1 scenario = Done l scenario /\ 2%nat ∈ l.
Proof.
  destruct (get_nearby_objects_spec scenario 0 2 1 scenario_wf_matrix)
    as (l & Hret & Hiff & _).
  exists l. split; [exact Hret|].
  apply Hiff. exists 0, 1. split; [lia|]. split; [lia|]. split; [right; lia|].
  split; vm_compute; reflexivity.
Defined.

(** ** Round trips on the grid *)

Lemma St_eq s s' :
  width s' = width s -> height s' = height s -> max_ticks s' = max_ticks s ->
  matrix s' = matrix s -> entities s' = entities s -> time s' = time s ->
  heap s' = heap s -> glists s' = glists s -> rng s' = rng s -> s' = s.
Proof. destruct s, s'. simpl. intros. subst. reflexivity. Qed.

Lemma py_remove_last x l : x ∉ l -> py_remove x (l ++ [x]) = l.
Proof.
  induction l as [|y l IH]; intros Hx; simpl.
  - by rewrite Nat.eqb_refl.
  - apply not_elem_of_cons in Hx as [Hne Hx].
    destruct (Nat.eqb x y) eqn:E; [apply Nat.eqb_eq in E; contradiction|].
    by rewrite IH.
Qed.

Lemma py_in_last x l : py_in x (l ++ [x]) = true.
Proof. apply py_in_elem, elem_of_app. right. by apply list_elem_of_singleton. Qed.

(** Placing an entity that is not live on the empty cell of its position and
    deleting it again gives back the world as it was, field by field. *)
Theorem add_then_delete_restores (s : St) (i : oid) (e : Entity) :
  wf_matrix s ->
  heap s !! i = Some e ->
  is_valid_position s (fst (position e)) (snd (position e)) = true ->
  cell s (fst (position e)) (snd (position e)) = Some None ->
  i ∉ entities s ->
  bind (add_entity i) (fun _ => delete_unit i) s = Done tt s.
Proof.
  intros Hwf Hheap Hv Hfree Hdead.
  destruct (matrix_write_valid _ _ (Some i) s Hwf Hv) as (m1 & Hw1 & Hwf1 & Hc1 & Ho1).
  set (s2 := set_entities (entities s ++ [i]) (set_matrix m1 s)).
  assert (Hwf2 : wf_matrix s2) by exact Hwf1.
  assert (Hv2 : is_valid_position s2 (fst (position e)) (snd (position e)) = true)
    by exact Hv.
  destruct (matrix_write_valid _ _ None s2 Hwf2 Hv2) as (m3 & Hw3 & Hwf3 & Hc3 & Ho3).
  assert (Hrun : bind (add_entity i) (fun _ => delete_unit i) s
                 = Done tt (set_entities (py_remove i (entities s ++ [i]))
                                         (set_matrix m3 s2))).
  { unfold bind at 1. unfold add_entity, bind, load. rewrite Hheap, Hw1.
    unfold modify. change (set_entities _ (set_matrix m1 s)) with s2.
    unfold delete_unit, bind, gets.
    change (entities s2) with (entities s ++ [i]). rewrite py_in_last.
    unfold load. change (heap s2) with (heap s). rewrite Hheap, Hw3. reflexivity. }
  rewrite Hrun. f_equal. apply St_eq; try reflexivity.
  - apply (matrix_ext s (set_matrix m3 s2) Hwf Hwf3); try reflexivity.
    intros x y Hxy.
    destruct (decide ((x, y) = (fst (position e), snd (position e)))) as [Heq|Hne].
    + inversion Heq; subst x y. rewrite Hc3. symmetry. exact Hfree.
    + rewrite (Ho3 x y Hxy Hne). exact (Ho1 x y Hxy Hne).
  - simpl. apply py_remove_last. exact Hdead.
Qed.

Lemma add_then_delete_restores_witness :
  bind (add_entity 0%nat) (fun _ => delete_unit 0%nat) (unplaced (1, 2))
  = Done tt (unplaced (1, 2)).
Proof.
  apply (add_then_delete_restores (unplaced (1, 2)) 0%nat
           (EPlant (mkPlant Lumiere (1, 2) ["day"] [PlantC Obscurite; PlantC Demi]
                            0 false false))).
  - apply unplaced_wf.
  - vm_compute. reflexivity.
  - vm_compute. reflexivity.
  - vm_compute. reflexivity.
  - intros H. by apply elem_of_nil in H.
Defined.

(** [delete_unit] of an entity that is not in the live list changes
    nothing, whatever the grid and the store hold.  On a live list without
    duplicates it is idempotent: after one [delete_unit] that returns, the
    entity is not live and a second one changes nothing. *)
Theorem delete_unit_idempotent (s : St) (i : oid) :
  NoDup (entities s) ->
  (i ∉ entities s -> delete_unit i s = Done tt s) /\
  (forall s', delete_unit i s = Done tt s' ->
              (i ∉ entities s') /\ delete_unit i s' = Done tt s').
Proof.
  intros Hnd.
  assert (Hnoop : forall t, i ∉ entities t -> delete_unit i t = Done tt t).
  { intros t Ht. unfold delete_unit, bind, gets.
    apply py_in_not_elem in Ht. rewrite Ht. reflexivity. }
  split; [apply Hnoop|].
  intros s' H.
  assert (Hgone : i ∉ entities s').
  { unfold delete_unit, bind, gets in H.
    destruct (py_in i (entities s)) eqn:Hin.
    - unfold load in H. destruct (heap s !! i) as [e|]; [|discriminate].
      destruct (matrix_write _ _ None s) as [[] s1|] eqn:Hw; [|discriminate].
      unfold modify in H. inversion H; subst s'. simpl.
      assert (He : entities s1 = entities s).
      { unfold matrix_write in Hw.
        destruct (py_get (matrix s) (fst (position e))); [|discriminate].
        destruct (py_set l (snd (position e)) None); [|discriminate].
        destruct (py_set (matrix s) (fst (position e)) l0); inversion Hw; reflexivity. }
      rewrite He. apply py_remove_NoDup. exact Hnd.
    - inversion H; subst s'. by apply py_in_not_elem. }
  split; [exact Hgone|]. apply Hnoop. exact Hgone.
Qed.

Lemma delete_unit_idempotent_witness :
  delete_unit 2%nat (state_of (delete_unit 2%nat scenario))
  = Done tt (state_of (delete_unit 2%nat scenario)).
Proof.
  destruct (delete_unit_idempotent scenario 2%nat (wf_state_NoDup _ scenario_wf))
    as [_ H].
  apply H. vm_compute. reflexivity.
Defined.

(** The state a successful [move_entity] leaves. *)
Lemma move_entity_moves s i e nx ny :
  wf_matrix s ->
  heap s !! i = Some e ->
  is_valid_position s (fst (position e)) (snd (position e)) = true ->
  is_valid_position s nx ny = true ->
  cell s nx ny = Some None ->
  exists s',
    move_entity i (nx, ny) s = Done true s' /\
    wf_matrix s' /\
    width s' = width s /\ height s' = height s /\ max_ticks s' = max_ticks s /\
    entities s' = entities s /\ time s' = time s /\
    glists s' = glists s /\ rng s' = rng s /\
    heap s' = <[i := set_position (nx, ny) e]> (heap s) /\
    cell s' nx ny = Some (Some i) /\
    (position e <> (nx, ny) ->
     cell s' (fst (position e)) (snd (position e)) = Some None) /\
    (forall x y, is_valid_position s x y = true ->
                 (x, y) <> position e -> (x, y) <> (nx, ny) ->
                 cell s' x y = cell s x y).
Proof.
  intros Hwf Hheap Hold Hv Hfree.
  destruct (position e) as [ox oy] eqn:Hpos. cbn [fst snd] in *.
  destruct (matrix_write_valid ox oy None s Hwf Hold) as (m1 & Hw1 & Hwf1 & Hc1 & Ho1).
  set (s1 := set_matrix m1 s) in *.
  set (s2 := set_heap (<[i := set_position (nx, ny) e]> (heap s1)) s1).
  assert (Hwf2 : wf_matrix s2) by exact Hwf1.
  assert (Hv2 : is_valid_position s2 nx ny = true) by exact Hv.
  destruct (matrix_write_valid nx ny (Some i) s2 Hwf2 Hv2) as (m3 & Hw3 & Hwf3 & Hc3 & Ho3).
  exists (set_matrix m3 s2).
  split.
  { unfold move_entity, bind, load. rewrite Hheap, Hpos. unfold gets.
    rewrite Hv, matrix_read_cell, Hfree. rewrite Hw1.
    unfold update_entity, bind, load. fold s1.
    change (heap s1) with (heap s). rewrite Hheap.
    unfold store, modify. change (set_heap _ s1) with s2. rewrite Hw3. reflexivity. }
  split; [exact Hwf3|].
  do 8 (split; [reflexivity|]).
  split; [exact Hc3|]. split.
  - intros Hne. rewrite Ho3; [exact Hc1 | exact Hold | exact Hne].
  - intros x y Hxy Hno Hnn. rewrite (Ho3 x y Hxy Hnn). exact (Ho1 x y Hxy Hno).
Qed.

Lemma set_position_back e p :
  set_position (position e) (set_position p e) = e.
Proof. destruct e as [[]|[]]; reflexivity. Qed.

Lemma position_set_position e p : position (set_position p e) = p.
Proof. destruct e; reflexivity. Qed.

(** Moving an entity that sits on the cell of its position to a free cell
    and back again gives back the world as it was, field by field; both
    moves return True. *)
Theorem move_there_and_back (s : St) (i : oid) (e : Entity) (nx ny : Z) :
  wf_matrix s ->
  heap s !! i = Some e ->
  is_valid_position s (fst (position e)) (snd (position e)) = true ->
  cell s (fst (position e)) (snd (position e)) = Some (Some i) ->
  is_valid_position s nx ny = true ->
  cell s nx ny = Some None ->
  exists s1,
    move_entity i (nx, ny) s = Done true s1 /\
    move_entity i (position e) s1 = Done true s.
Proof.
  intros Hwf Hheap Hold Hocc Hv Hfree.
  assert (Hne : position e <> (nx, ny)).
  { intros Heq. rewrite Heq in Hocc. cbn [fst snd] in Hocc. congruence. }
  destruct (move_entity_moves s i e nx ny Hwf Hheap Hold Hv Hfree)
    as (s1 & Hm1 & Hwf1 & Hw1 & Hh1 & Hmt1 & He1 & Ht1 & Hg1 & Hr1 & Hheap1 & Hc1 & Hvac1 & Ho1).
  exists s1. split; [exact Hm1|].
  set (e1 := set_position (nx, ny) e).
  assert (Hl1 : heap s1 !! i = Some e1) by (rewrite Hheap1; apply lookup_insert_eq).
  assert (Hp1 : position e1 = (nx, ny)) by apply position_set_position.
  assert (Hv1 : is_valid_position s1 (fst (position e1)) (snd (position e1)) = true).
  { rewrite Hp1. unfold is_valid_position. rewrite Hw1, Hh1. exact Hv. }
  assert (Hold1 : is_valid_position s1 (fst (position e)) (snd (position e)) = true).
  { unfold is_valid_position. rewrite Hw1, Hh1. exact Hold. }
  destruct (move_entity_moves s1 i e1 _ _ Hwf1 Hl1 Hv1 Hold1 (Hvac1 Hne))
    as (s2 & Hm2 & Hwf2 & Hw2 & Hh2 & Hmt2 & He2 & Ht2 & Hg2 & Hr2 & Hheap2 & Hc2 & Hvac2 & Ho2).
  assert (Hsurj : position e = (fst (position e), snd (position e)))
    by (destruct (position e); reflexivity).
  rewrite <- Hsurj in Hm2, Hheap2, Hvac2, Ho2.
  assert (Hs2 : s2 = s).
  { apply St_eq; try congruence.
    - apply (matrix_ext s s2 Hwf Hwf2); try congruence.
      intros x y Hxy.
      destruct (decide ((x, y) = position e)) as [Heq|Hno].
      + rewrite <- Heq in Hc2, Hocc. cbn [fst snd] in Hc2, Hocc. congruence.
      + destruct (decide ((x, y) = (nx, ny))) as [Heq|Hnn].
        * inversion Heq; subst x y. rewrite Hfree.
          rewrite Hp1 in Hvac2. cbn [fst snd] in Hvac2. apply Hvac2.
          intros H. apply Hne. symmetry. exact H.
        * rewrite Ho2.
          -- apply Ho1; assumption.
          -- unfold is_valid_position. rewrite Hw1, Hh1. exact Hxy.
          -- rewrite Hp1. exact Hnn.
          -- exact Hno.
    - rewrite Hheap2, Hheap1. rewrite insert_insert_eq.
      unfold e1. rewrite set_position_back. apply insert_id. exact Hheap. }
  rewrite <- Hs2. exact Hm2.
Qed.

Lemma move_there_and_back_witness :
  exists s1,
    move_entity 1%nat (0, 1) scenario = Done true s1 /\
    move_entity 1%nat (0, 2) s1 = Done true scenario.
Proof.
  apply (move_there_and_back scenario 1%nat
           (EAnimal (mkAnimal Pauvre (0, 2) 50 100 true false 1%nat
                              false false false false)) 0 1).
  - exact scenario_wf_matrix.
  - vm_compute. reflexivity.
  - vm_compute. reflexivity.
  - vm_compute. reflexivity.
  - vm_compute. reflexivity.
  - vm_compute. reflexivity.
Defined.

(** ** The clock *)

Lemma change_time_phase t :
  current_time (change_time t)
  = nth (Z.to_nat ((tick_counter t + 1) mod 4)) cycle "morning" /\
  tick_counter (change_time t) = tick_counter t + 1.
Proof. split; reflexivity. Qed.

Lemma phase_in_cycle k : In (nth (Z.to_nat (k mod 4)) cycle "morning") cycle.
Proof.
  apply nth_In. simpl.
  pose proof (Z.mod_pos_bound k 4 ltac:(lia)). lia.
Qed.

(** [change_time] called [n + 1] times on a clock whose counter is [c]
    leaves the counter at [c + n + 1] and the phase at the entry
    [(c + n + 1) mod 4] of the cycle, whatever the phase was before: the
    phase is one of the four of the cycle, and four more calls give the same
    phase again. *)
Theorem change_time_period (t : Time) (n : nat) :
  let t' := Nat.iter (S n) change_time t in
  tick_counter t' = tick_counter t + Z.of_nat n + 1 /\
  current_time t' =
    nth (Z.to_nat ((tick_counter t + Z.of_nat n + 1) mod 4)) cycle "morning" /\
  In (current_time t') cycle /\
  current_time (Nat.iter 4 change_time t') = current_time t'.
Proof.
  cbv zeta.
  assert (Hiter : forall k,
    tick_counter (Nat.iter (S k) change_time t) = tick_counter t + Z.of_nat k + 1 /\
    current_time (Nat.iter (S k) change_time t) =
      nth (Z.to_nat ((tick_counter t + Z.of_nat k + 1) mod 4)) cycle "morning").
  { induction k as [|k [IHc IHp]].
    - change (Nat.iter 1 change_time t) with (change_time t).
      destruct (change_time_phase t) as [Hp Hc].
      rewrite Hp, Hc. split; [lia|]. do 3 f_equal. lia.
    - change (Nat.iter (S (S k)) change_time t)
        with (change_time (Nat.iter (S k) change_time t)).
      destruct (change_time_phase (Nat.iter (S k) change_time t)) as [Hp Hc].
      rewrite Hp, Hc, IHc. split; [lia|]. do 3 f_equal. lia. }
  destruct (Hiter n) as [Hc Hp]. split; [exact Hc|]. split; [exact Hp|]. split.
  - rewrite Hp. apply phase_in_cycle.
  - change (Nat.iter 4 change_time (Nat.iter (S n) change_time t))
      with (Nat.iter (S (3 + S n)) change_time t).
    destruct (Hiter (3 + S n)%nat) as [_ Hp4]. rewrite Hp4, Hp. do 2 f_equal.
    replace (tick_counter t + Z.of_nat (3 + S n) + 1)
      with (tick_counter t + Z.of_nat n + 1 + 1 * 4) by lia.
    apply Z_mod_plus_full.
Qed.

Lemma initial_spawn_one_clock cls s s' :
  initial_spawn_one cls s = Some (Done tt s') -> same_clock s s'.
Proof.
  unfold initial_spawn_one.
  destruct (height s <? 1); [discriminate|].
  destruct (width s <? 1); [unfold bind; destruct (next_int s); discriminate|].
  destruct (spawn_search (height s) (width s) (matrix s) (ints (rng s)))
    as [x y rest|e rest|]; [|discriminate|discriminate].
  intros H. inversion H as [H1]. clear H.
  set (s1 := set_rng (mkRng (floats (rng s)) rest) s) in *.
  apply (same_clock_trans s s1); [by repeat split|].
  revert H1. generalize s1. clear s1. intros s1 H1.
  assert (Hk : keeps same_clock
                 (entity <- new_entity cls (x, y) ;;
                  matrix_write x y (Some entity) ;;;
                  modify (fun s' => set_entities (entities s' ++ [entity]) s'))).
  { apply (keeps_bind _ same_clock_trans).
    - destruct cls as [c|c]; simpl.
      + apply frame_new_animal;
          first [exact same_clock_refl | exact same_clock_trans | intros; by repeat split].
      + apply frame_new_plant;
          first [exact same_clock_refl | exact same_clock_trans | intros; by repeat split].
    - intros entity. apply (keeps_bind _ same_clock_trans).
      + apply frame_matrix_write;
          first [exact same_clock_refl | exact same_clock_trans | intros; by repeat split].
      + intros _. apply keeps_modify. intros t. by repeat split. }
  eapply Hk. exact H1.
Qed.

Lemma initial_spawn_clock cls n s s' :
  initial_spawn cls n s = Some (Done tt s') -> same_clock s s'.
Proof.
  revert s. induction n as [|n IH]; intros s; simpl.
  - intros H. inversion H. apply same_clock_refl.
  - destruct (initial_spawn_one cls s) as [[[] s1|e s1]|] eqn:E; try discriminate.
    intros H. eapply same_clock_trans; [eapply initial_spawn_one_clock; exact E|].
    apply IH. exact H.
Qed.

Lemma process_tick_clock s s' :
  process_tick s = Done tt s' ->
  time s' = change_time (time s) /\ width s' = width s /\ height s' = height s.
Proof.
  intros H. unfold process_tick, bind, gets, get_time in H.
  destruct (for_each (entities s) _ s) as [[] s1|] eqn:E; [|discriminate].
  apply for_each_updates in E.
  pose proof (updates_same_clock _ _ _ _ E) as (Ht & Hw & Hh).
  unfold modify in H. inversion H; subst s'. simpl. rewrite Ht. by repeat split.
Qed.

(** In every state of a simulation (a fresh world, then initial spawns and
    ticks that return) the counter of the clock is not negative and the
    phase is the entry of the cycle the counter designates: morning, day,
    evening, night, and morning again. *)
Theorem reachable_clock (s : St) :
  reachable s ->
  0 <= tick_counter (time s) /\
  current_time (time s) = nth (Z.to_nat (tick_counter (time s) mod 4)) cycle "morning".
Proof.
  induction 1 as [w h mt r|s cls n s' _ IH Hs|s s' _ IH Ht].
  - split; [simpl; lia | reflexivity].
  - apply initial_spawn_clock in Hs as (Htime & _). rewrite Htime. exact IH.
  - apply process_tick_clock in Ht as (Htime & _). rewrite Htime.
    destruct (change_time_phase (time s)) as [Hp Hc]. rewrite Hp, Hc.
    split; [lia | reflexivity].
Qed.

Lemma reachable_clock_witness :
  tick_counter (time (state_of (process_tick scenario))) = 1 /\
  current_time (time (state_of (process_tick scenario))) = "day".
Proof.
  assert (Hr : reachable (state_of (process_tick scenario))).
  { eapply reach_tick; [exact scenario_reachable | exact scenario_tick_returns]. }
  destruct (reachable_clock _ Hr) as [_ Hp].
  split; [vm_compute; reflexivity|].
  rewrite Hp. vm_compute. reflexivity.
Defined.

(** ** Assignments to one object *)

Lemma touch_id s i e : heap s !! i = Some e -> touch s i e = s.
Proof.
  intros H. unfold touch. rewrite (insert_id _ _ _ H). by destruct s.
Qed.

Lemma touch_touch s i e1 e2 : touch (touch s i e1) i e2 = touch s i e2.
Proof. unfold touch. simpl. by rewrite insert_insert_eq. Qed.

Lemma touch_lookup s i e : heap (touch s i e) !! i = Some e.
Proof. apply lookup_insert_eq. Qed.

Lemma touch_frame s i e :
  matrix (touch s i e) = matrix s /\ entities (touch s i e) = entities s /\
  rng (touch s i e) = rng s /\ glists (touch s i e) = glists s /\
  time (touch s i e) = time s.
Proof. by repeat split. Qed.

Lemma update_animal_touch s i a f :
  heap s !! i = Some (EAnimal a) ->
  update_animal i f s = Done tt (touch s i (EAnimal (f a))).
Proof.
  intros H. unfold update_animal, bind, load_animal, bind, load. by rewrite H.
Qed.

Lemma update_plant_touch s i p f :
  heap s !! i = Some (EPlant p) ->
  update_plant i f s = Done tt (touch s i (EPlant (f p))).
Proof.
  intros H. unfold update_plant, bind, load_plant, bind, load. by rewrite H.
Qed.

Lemma set_is_active_same a : set_is_active (is_active a) a = a.
Proof. by destruct a. Qed.

Lemma set_is_hungry_same a : set_is_hungry (is_hungry a) a = a.
Proof. by destruct a. Qed.

Lemma eqb_true_eq (b c : bool) : Bool.eqb b c = true -> b = c.
Proof. by destruct b, c. Qed.

Lemma change_active_status_touch s self a d :
  heap s !! self = Some (EAnimal a) ->
  change_active_status (a_cls a) self d s
  = Done tt (touch s self (EAnimal (set_is_active (str_in d (active_times (a_cls a))) a))).
Proof.
  intros H. unfold change_active_status, bind, load_animal, bind, load. rewrite H.
  cbn [ret].
  assert (Ht : match active_times (a_cls a) with
               | [] => ["morning"; "day"; "evening"]
               | ts => ts
               end = active_times (a_cls a)) by (by destruct (a_cls a)).
  rewrite Ht.
  destruct (Bool.eqb (str_in d (active_times (a_cls a))) (is_active a)) eqn:E; cbn [negb].
  - apply eqb_true_eq in E. rewrite E, set_is_active_same, (touch_id _ _ _ H).
    reflexivity.
  - apply update_animal_touch. exact H.
Qed.

Lemma change_hungry_status_touch s self a :
  heap s !! self = Some (EAnimal a) ->
  change_hungry_status self s
  = Done tt (touch s self (EAnimal (set_is_hungry (food a <? 30) a))).
Proof.
  intros H. unfold change_hungry_status, bind, load_animal, bind, load. rewrite H.
  cbn [ret].
  destruct (Bool.eqb (food a <? 30) (is_hungry a)) eqn:E; cbn [negb].
  - apply eqb_true_eq in E. rewrite E, set_is_hungry_same, (touch_id _ _ _ H).
    reflexivity.
  - apply update_animal_touch. exact H.
Qed.

Lemma check_self_modification_touch s self a l :
  heap s !! self = Some (EAnimal a) ->
  glists s !! group a = Some l ->
  check_self_modification self s
  = Done tt (touch s self (EAnimal (modified (length l) a))).
Proof.
  intros H Hg. unfold check_self_modification, modified, bind, load_animal, bind, load.
  rewrite H. cbn [ret]. destruct (a_cls a).
  - unfold read_list. rewrite Hg.
    destruct ((5 <? Z.of_nat (length l)) && negb (has_is_predatory a)).
    + apply update_animal_touch. exact H.
    + rewrite (touch_id _ _ _ H). reflexivity.
  - destruct (is_hungry a && (food a <? 10) && negb (has_is_aggressive a)).
    + apply update_animal_touch. exact H.
    + rewrite (touch_id _ _ _ H). reflexivity.
Qed.

(** ** Hunger and speed *)

(** [change_hungry_status] followed by [change_speed_status]: the animal is
    hungry exactly when its food is under 30, and its speed is 50 when it
    is hungry and 100 when it is not, whatever the speed its class gave it
    when it was built; nothing else changes. *)
Theorem hunger_sets_speed (s : St) (self : oid) (a : Animal) :
  heap s !! self = Some (EAnimal a) ->
  bind (change_hungry_status self) (fun _ => change_speed_status self) s
  = Done tt (touch s self
               (EAnimal (set_speed (if food a <? 30 then 50 else 100)
                                   (set_is_hungry (food a <? 30) a)))).
Proof.
  intros H. unfold bind at 1. rewrite (change_hungry_status_touch s self a H).
  unfold change_speed_status.
  rewrite (update_animal_touch _ _ _ _ (touch_lookup _ _ _)).
  rewrite touch_touch. reflexivity.
Qed.

Lemma hunger_sets_speed_witness :
  speed <$> (heap (state_of (bind (change_hungry_status 1%nat)
                                  (fun _ => change_speed_status 1%nat) scenario))
             !! 1%nat ≫= fun e => match e with EAnimal a => Some a | EPlant _ => None end)
  = Some 100.
Proof.
  rewrite (hunger_sets_speed scenario 1%nat
             (mkAnimal Pauvre (0, 2) 50 100 true false 1%nat false false false false)).
  - vm_compute. reflexivity.
  - vm_compute. reflexivity.
Defined.

(** ** The update of an animal *)

Lemma modified_fields len a :
  a_cls (modified len a) = a_cls a /\ a_position (modified len a) = a_position a /\
  speed (modified len a) = speed a /\ food (modified len a) = food a /\
  is_active (modified len a) = is_active a /\ is_hungry (modified len a) = is_hungry a /\
  group (modified len a) = group a.
Proof.
  unfold modified. destruct (a_cls a) eqn:E.
  - destruct ((5 <? Z.of_nat len) && negb (has_is_predatory a)); by repeat split.
  - destruct (is_hungry a && (food a <? 10) && negb (has_is_aggressive a)); by repeat split.
Qed.

Lemma refreshed_fields d len a :
  a_cls (refreshed d len a) = a_cls a /\
  a_position (refreshed d len a) = a_position a /\
  food (refreshed d len a) = food a /\
  group (refreshed d len a) = group a /\
  is_active (refreshed d len a) = str_in d (active_times (a_cls a)) /\
  is_hungry (refreshed d len a) = (food a <? 30) /\
  speed (refreshed d len a) = (if food a <? 30 then 50 else 100).
Proof.
  unfold refreshed. cbv zeta.
  match goal with |- context [modified len ?x] =>
    destruct (modified_fields len x) as (-> & -> & -> & -> & -> & -> & ->) end.
  by repeat split.
Qed.

(** [Animal.update_state] up to the test of [is_active]. *)
Lemma animal_update_state_refreshes s self a l d :
  heap s !! self = Some (EAnimal a) ->
  glists s !! group a = Some l ->
  animal_update_state self d s
  = (if is_active (refreshed d (length l) a) then
       call_try_merge_groups self ;;;
       _ <- move self ;;
       call_eat self d ;;;
       try_reproduce self
     else ret tt) (touch s self (EAnimal (refreshed d (length l) a))).
Proof.
  intros H Hg. unfold animal_update_state.
  unfold bind at 1. unfold load_animal at 1. unfold bind at 1. unfold load at 1.
  rewrite H. cbn [ret].
  unfold bind at 1. rewrite (change_active_status_touch s self a d H).
  set (a1 := set_is_active (str_in d (active_times (a_cls a))) a).
  unfold bind at 1.
  rewrite (change_hungry_status_touch _ self a1 (touch_lookup _ _ _)), touch_touch.
  set (a2 := set_is_hungry (food a1 <? 30) a1).
  unfold bind at 1. unfold change_speed_status.
  rewrite (update_animal_touch _ self a2 _ (touch_lookup _ _ _)), touch_touch.
  set (a3 := set_speed (if is_hungry a2 then 50 else 100) a2).
  unfold bind at 1.
  rewrite (check_self_modification_touch _ self a3 l (touch_lookup _ _ _) Hg), touch_touch.
  change (modified (length l) a3) with (refreshed d (length l) a).
  unfold bind at 1. unfold load_animal at 1. unfold bind at 1. unfold load at 1.
  rewrite touch_lookup. cbn [ret]. reflexivity.
Qed.

(** At a phase that is not among the active times of its class (the night
    for both classes, the day as well for Malheureux), [update_state] of an
    animal whose group list exists returns and only assigns to attributes of
    the animal itself: it is then inactive, hungry exactly when its food is
    under 30, with the speed of its hunger and, if the conditions held, the
    marks of the self-modification.  The animal neither merges, moves, eats
    nor tries to reproduce: the grid, the live list, the group lists, every
    other object and the oracle are as they were. *)
Theorem inactive_animal_keeps_still
  (s : St) (self : oid) (a : Animal) (l : list oid) (d : string) :
  heap s !! self = Some (EAnimal a) ->
  glists s !! group a = Some l ->
  str_in d (active_times (a_cls a)) = false ->
  let a' := refreshed d (length l) a in
  animal_update_state self d s = Done tt (touch s self (EAnimal a')) /\
  is_active a' = false /\
  is_hungry a' = (food a <? 30) /\
  speed a' = (if food a <? 30 then 50 else 100) /\
  a_position a' = a_position a /\ food a' = food a /\ group a' = group a.
Proof.
  intros H Hg Hd. cbv zeta.
  destruct (refreshed_fields d (length l) a) as (_ & Hp & Hf & Hgr & Ha & Hh & Hs).
  rewrite Hd in Ha.
  split; [|by repeat split].
  rewrite (animal_update_state_refreshes s self a l d H Hg), Ha. reflexivity.
Qed.

Lemma inactive_animal_keeps_still_witness :
  matrix (state_of (update_state 0%nat "night" scenario)) = matrix scenario /\
  rng (state_of (update_state 0%nat "night" scenario)) = rng scenario /\
  entities (state_of (update_state 0%nat "night" scenario)) = entities scenario.
Proof.
  destruct (inactive_animal_keeps_still scenario 0%nat
              (mkAnimal Malheureux (0, 0) 100 100 true false 0%nat false false false false)
              [0%nat] "night") as (Hu & _).
  - vm_compute. reflexivity.
  - vm_compute. reflexivity.
  - reflexivity.
  - assert (He : update_state 0%nat "night" scenario
                 = animal_update_state 0%nat "night" scenario) by (vm_compute; reflexivity).
    rewrite He, Hu. cbn [state_of].
    match goal with |- context [touch ?t ?i ?e] =>
      destruct (touch_frame t i e) as (Hm & Hl & Hr & _) end.
    split; [exact Hm|]. split; [exact Hr | exact Hl].
Defined.

(** ** Reproduction *)

(** [try_reproduce] makes one draw and nothing else: whatever the draw and
    the size of the group, no object is created and no cell is bound,
    because the [reproduce] it calls is the one of the class body, whose
    body is [pass].  The world it leaves is the one it found, one draw
    further in the oracle. *)
Theorem try_reproduce_only_draws (s : St) (self : oid) (a : Animal) (l : list oid) :
  heap s !! self = Some (EAnimal a) ->
  glists s !! group a = Some l ->
  try_reproduce self s = Done tt (drop_floats 1 s).
Proof.
  intros H Hg. unfold try_reproduce. unfold bind at 1.
  rewrite <- (drop_floats_0 s) at 1. rewrite random_drop_floats.
  unfold bind, load_animal, bind, load. rewrite drop_floats_heap, H. cbn [ret].
  unfold read_list. change (glists (drop_floats 1 s)) with (glists s). rewrite Hg.
  destruct (Qltb _ _); reflexivity.
Qed.

Lemma try_reproduce_only_draws_witness :
  try_reproduce 0%nat scenario_lucky = Done tt (drop_floats 1 scenario_lucky).
Proof.
  apply (try_reproduce_only_draws scenario_lucky 0%nat
           (mkAnimal Malheureux (0, 0) 100 100 true false 0%nat false false false false)
           [0%nat]).
  - vm_compute. reflexivity.
  - vm_compute. reflexivity.
Defined.

(** ** Moving an animal *)

Lemma set_rng_same s : set_rng (rng s) s = s.
Proof. by destruct s. Qed.

Lemma next_int_rng s :
  exists z r, next_int s = Done z (set_rng r s) /\ floats r = floats (rng s).
Proof.
  unfold next_int. destruct (ints (rng s)) as [|z rest].
  - exists 0, (rng s). by rewrite set_rng_same.
  - exists z, (mkRng (floats (rng s)) rest). by split.
Qed.

Lemma delta_loop_spec l :
  -1 <= fst (fst (delta_loop l)) <= 1 /\ -1 <= snd (fst (delta_loop l)) <= 1 /\
  (fst (fst (delta_loop l)) <> 0 \/ snd (fst (delta_loop l)) <> 0).
Proof.
  assert (H : forall n l, (length l <= n)%nat ->
    -1 <= fst (fst (delta_loop l)) <= 1 /\ -1 <= snd (fst (delta_loop l)) <= 1 /\
    (fst (fst (delta_loop l)) <> 0 \/ snd (fst (delta_loop l)) <> 0)).
  { clear l. induction n as [|n IH]; intros l Hl.
    - destruct l; [|simpl in Hl; lia]. simpl. lia.
    - destruct l as [|a [|b rest]].
      + simpl. lia.
      + cbn [delta_loop fst snd]. pose proof (Z.mod_pos_bound a 3 ltac:(lia)). lia.
      + cbn [delta_loop].
        pose proof (Z.mod_pos_bound a 3 ltac:(lia)).
        pose proof (Z.mod_pos_bound b 3 ltac:(lia)).
        destruct (negb (-1 + a mod 3 =? 0) || negb (-1 + b mod 3 =? 0)) eqn:E.
        * cbn [fst snd]. apply orb_true_iff in E.
          rewrite !negb_true_iff, !Z.eqb_neq in E. lia.
        * apply IH. simpl in Hl. lia. }
  apply (H (length l)). lia.
Qed.

Lemma move_entity_blocked s i e nx ny o :
  heap s !! i = Some e ->
  cell s nx ny = Some (Some o) ->
  move_entity i (nx, ny) s = Done false s.
Proof.
  intros H Hc. unfold move_entity, bind, load. rewrite H.
  destruct (position e) as [ox oy]. unfold gets.
  destruct (is_valid_position s nx ny); [|reflexivity].
  rewrite matrix_read_cell, Hc. reflexivity.
Qed.

(** [move] of an animal that stands inside the grid always returns.  It
    leaves the live list, the group lists, the clock and the draws of
    [random.random()] alone.  When it returns False the grid and the store
    are as they were; an inactive animal does not even consume an integer
    of the oracle.  When it returns True the animal was active and has gone
    one step, to a cell of the grid that differs from its own by at most one
    in each coordinate and was empty: that cell now holds it, the cell it
    left is empty, its position is the new cell and its food is one less,
    but not less than 0. *)
Theorem move_one_step (s : St) (self : oid) (a : Animal) :
  wf_matrix s ->
  heap s !! self = Some (EAnimal a) ->
  is_valid_position s (fst (a_position a)) (snd (a_position a)) = true ->
  exists b s',
    move self s = Done b s' /\
    entities s' = entities s /\ glists s' = glists s /\ time s' = time s /\
    floats (rng s') = floats (rng s) /\
    (is_active a = false -> b = false /\ s' = s) /\
    (b = false -> matrix s' = matrix s /\ heap s' = heap s) /\
    (b = true ->
     is_active a = true /\
     exists dx dy,
       -1 <= dx <= 1 /\ -1 <= dy <= 1 /\ (dx <> 0 \/ dy <> 0) /\
       let x' := fst (a_position a) + dx in
       let y' := snd (a_position a) + dy in
       is_valid_position s x' y' = true /\
       cell s x' y' = Some None /\
       cell s' x' y' = Some (Some self) /\
       cell s' (fst (a_position a)) (snd (a_position a)) = Some None /\
       heap s' = <[self := EAnimal (set_food (Z.max 0 (food a - 1))
                                             (set_a_position (x', y') a))]> (heap s)).
Proof.
  intros Hwf H Hpos. unfold move, bind, load_animal, bind, load. rewrite H. cbn [ret].
  destruct (is_active a) eqn:Hact; cbn [negb].
  2:{ exists false, s. split; [reflexivity|]. do 4 (split; [reflexivity|]).
      split; [by split|]. split; [by split|]. discriminate. }
  unfold randint. cbn [Z.ltb Z.compare Pos.compare Pos.compare_cont]. unfold bind.
  destruct (next_int_rng s) as (z & r1 & -> & Hf1). cbn [ret].
  set (s1 := set_rng r1 s).
  destruct (speed a <? 1 + z mod (100 - 1 + 1)).
  { exists false, s1. split; [reflexivity|]. do 3 (split; [reflexivity|]).
    split; [exact Hf1|]. split; [discriminate|]. split; [by split|]. discriminate. }
  unfold move_delta.
  pose proof (delta_loop_spec (ints (rng s1))) as (Hdx & Hdy & Hnz).
  destruct (delta_loop (ints (rng s1))) as [[dx dy] rest]. cbn [fst snd] in *.
  set (s2 := set_rng (mkRng (floats (rng s1)) rest) s1).
  unfold gets.
  change (is_valid_position s2 (fst (a_position a) + dx) (snd (a_position a) + dy))
    with (is_valid_position s (fst (a_position a) + dx) (snd (a_position a) + dy)).
  destruct (is_valid_position s (fst (a_position a) + dx) (snd (a_position a) + dy)) eqn:Hv.
  2:{ exists false, s2. split; [reflexivity|]. do 3 (split; [reflexivity|]).
      split; [exact Hf1|]. split; [discriminate|]. split; [by split|]. discriminate. }
  assert (Hwf2 : wf_matrix s2) by exact Hwf.
  assert (H2 : heap s2 !! self = Some (EAnimal a)) by exact H.
  destruct (cell_valid s _ _ Hwf Hv) as (row & c & _ & _ & Hc).
  unfold relocate_unit.
  destruct c as [o|].
  - rewrite (move_entity_blocked s2 self (EAnimal a) _ _ o H2 Hc).
    exists false, s2. split; [reflexivity|]. do 3 (split; [reflexivity|]).
    split; [exact Hf1|]. split; [discriminate|]. split; [by split|]. discriminate.
  - destruct (move_entity_moves s2 self (EAnimal a) _ _ Hwf2 H2 Hpos Hv Hc)
      as (s3 & Hm & _ & _ & _ & _ & He3 & Ht3 & Hg3 & Hr3 & Hh3 & Hc3 & Hvac & _).
    rewrite Hm.
    assert (H3 : heap s3 !! self
                 = Some (EAnimal (set_a_position (fst (a_position a) + dx,
                                                  snd (a_position a) + dy) a))).
    { rewrite Hh3. apply lookup_insert_eq. }
    unfold decrease_food. rewrite (update_animal_touch _ _ _ _ H3).
    eexists true, _. split; [reflexivity|].
    split; [exact He3|]. split; [exact Hg3|]. split; [exact Ht3|].
    split; [cbn [touch set_heap rng]; rewrite Hr3; exact Hf1|].
    split; [discriminate|]. split; [discriminate|].
    intros _. split; [reflexivity|]. exists dx, dy.
    split; [exact Hdx|]. split; [exact Hdy|]. split; [exact Hnz|]. cbv zeta.
    split; [exact Hv|]. split; [exact Hc|]. split; [exact Hc3|]. split.
    + apply Hvac. cbn [position]. destruct (a_position a) as [x y]. cbn [fst snd].
      intros Heq. inversion Heq. lia.
    + unfold touch. cbn [heap set_heap]. rewrite Hh3, insert_insert_eq. reflexivity.
Qed.

Lemma move_one_step_witness :
  exists b s',
    move 0%nat scenario = Done b s' /\
    entities s' = entities scenario /\
    (b = false -> matrix s' = matrix scenario /\ heap s' = heap scenario).
Proof.
  destruct (move_one_step scenario 0%nat
              (mkAnimal Malheureux (0, 0) 100 100 true false 0%nat false false false false)
              scenario_wf_matrix) as (b & s' & Hm & He & _ & _ & _ & _ & Hf & _).
  - vm_compute. reflexivity.
  - vm_compute. reflexivity.
  - exists b, s'. split; [exact Hm|]. split; [exact He | exact Hf].
Defined.

(** ** The update of a plant *)

Lemma plant_update_state_withers s self p d :
  heap s !! self = Some (EPlant p) ->
  plant_update_state self d s = Done tt (touch s self (EPlant (withered p))).
Proof.
  intros H. unfold plant_update_state, plant_check_self_modification, withered.
  unfold bind at 1. unfold bind at 1. unfold load_plant at 1. unfold bind at 1.
  unfold load at 1. rewrite H. cbn [ret].
  destruct ((3 <=? failed_growth_ticks p) && negb (p_has_is_aggressive p)).
  - rewrite (update_plant_touch _ _ _ _ H).
    unfold grow, bind, load_plant, bind, load. rewrite touch_lookup. cbn [ret].
    cbn [can_grow truthy].
    rewrite (update_plant_touch _ _ _ _ (touch_lookup _ _ _)), touch_touch.
    reflexivity.
  - cbn [ret]. unfold grow, bind, load_plant, bind, load. rewrite H. cbn [ret].
    cbn [can_grow truthy].
    rewrite (update_plant_touch _ _ _ _ H). reflexivity.
Qed.

Lemma withered_fields p :
  failed_growth_ticks (withered p) = failed_growth_ticks p + 1 /\
  p_has_is_aggressive (withered p)
  = p_has_is_aggressive p || (3 <=? failed_growth_ticks p) /\
  inst_try_spread (withered p)
  = inst_try_spread p || ((3 <=? failed_growth_ticks p) && negb (p_has_is_aggressive p)) /\
  p_position (withered p) = p_position p /\ p_cls (withered p) = p_cls p.
Proof.
  unfold withered.
  destruct (3 <=? failed_growth_ticks p) eqn:E1, (p_has_is_aggressive p) eqn:E2;
    simpl; rewrite ?E2, ?orb_false_r, ?orb_true_r; by repeat split.
Qed.

(** [update_state] of a plant never spreads it.  [can_grow] is the method of
    the class body of [Plant], which returns None at every phase, so [grow]
    takes its else branch: the counter of failed ticks grows by one, after
    the self-modification check has marked the plant if the counter had
    reached 3.  The grid, the live list, every other object and the oracle
    are as they were, whatever the phase and the growth time of the
    plant. *)
Theorem plant_update_only_counts (s : St) (self : oid) (p : Plant) (d : string) :
  heap s !! self = Some (EPlant p) ->
  plant_update_state self d s = Done tt (touch s self (EPlant (withered p))) /\
  failed_growth_ticks (withered p) = failed_growth_ticks p + 1 /\
  p_has_is_aggressive (withered p)
  = p_has_is_aggressive p || (3 <=? failed_growth_ticks p) /\
  p_position (withered p) = p_position p /\ p_cls (withered p) = p_cls p.
Proof.
  intros H. split; [by apply plant_update_state_withers|].
  destruct (withered_fields p) as (Hf & Ha & _ & Hp & Hc). by repeat split.
Qed.

Lemma plant_update_only_counts_witness :
  update_state 0%nat "day" lone_plant
  = Done tt (touch lone_plant 0%nat
               (EPlant (mkPlant Lumiere (1, 1) ["day"] [PlantC Obscurite; PlantC Demi]
                                1 false false))).
Proof.
  destruct (plant_update_only_counts lone_plant 0%nat
              (mkPlant Lumiere (1, 1) ["day"] [PlantC Obscurite; PlantC Demi] 0 false false)
              "day") as (Hu & _).
  - vm_compute. reflexivity.
  - assert (He : update_state 0%nat "day" lone_plant
                 = plant_update_state 0%nat "day" lone_plant) by (vm_compute; reflexivity).
    rewrite He. exact Hu.
Defined.

(** ** Spreading a plant *)

Lemma free_cells_valid_empty s x y offs c :
  c ∈ free_cells s x y offs ->
  is_valid_position s (fst c) (snd c) = true /\ cell s (fst c) (snd c) = Some None.
Proof.
  rewrite list_elem_of_In. unfold free_cells. rewrite filter_In.
  intros [_ Hc]. apply andb_true_iff in Hc as [Hv Hc]. split; [exact Hv|].
  destruct (cell s (fst c) (snd c)) as [[o|]|]; [discriminate|reflexivity|discriminate].
Qed.

Lemma choice_picks {A} (l : list A) s :
  l <> [] ->
  exists x r, choice l s = Done x (set_rng r s) /\ x ∈ l /\ floats r = floats (rng s).
Proof.
  intros Hl. destruct l as [|c l]; [contradiction|]. unfold choice, bind.
  destruct (next_int_rng s) as (z & r & -> & Hf). cbn [ret].
  eexists _, r. split; [reflexivity|]. split; [|exact Hf].
  apply list_elem_of_In, nth_In.
  pose proof (Z.mod_pos_bound z (Z.of_nat (length (c :: l))) ltac:(simpl; lia)). lia.
Qed.

(** The [try_spread] of the classes, the [spread] the metaclass installs on
    [Plant].  It returns False without a draw when no cell next to the
    plant is free.  Otherwise it picks one of the free cells and makes one
    draw against 0.5, whatever the species: the chance is never 0.25, since
    the cell picked is a pair of integers and no competitor, and never the
    [default_spread_chance] of the species.  When the draw fails nothing
    but the oracle has changed.  When it succeeds a new object is created
    at the cell picked, placed there and appended to the live list, and this
    object is an instance of [Plant] itself, with no growth time and no
    competitors, not of the species of the plant that spread. *)
Theorem spread_spawns_base_plant (s : St) (self : oid) (p : Plant) :
  wf_matrix s ->
  heap s !! self = Some (EPlant p) ->
  exists cells,
    get_free_adjacent_cells (p_position p) s = Done cells s /\
    (cells = [] -> spread self s = Done false s) /\
    (cells <> [] ->
     exists new_pos s1 draw s2,
       choice cells s = Done new_pos s1 /\ new_pos ∈ cells /\
       random s1 = Done draw s2 /\
       (Qltb draw (5 # 10) = false -> spread self s = Done false s2) /\
       (Qltb draw (5 # 10) = true ->
        exists s',
          spread self s = Done true s' /\
          let i := fresh (dom (heap s)) in
          heap s' = <[i := EPlant (mkPlant PlantBase new_pos [] [] 0 false false)]> (heap s) /\
          entities s' = entities s ++ [i] /\
          cell s' (fst new_pos) (snd new_pos) = Some (Some i) /\
          (forall x y, is_valid_position s x y = true -> (x, y) <> new_pos ->
                       cell s' x y = cell s x y))).
Proof.
  intros Hwf H. destruct (p_position p) as [x y] eqn:Hpos.
  exists (free_cells s x y moore_offsets).
  assert (Hget : get_free_adjacent_cells (x, y) s
                 = Done (free_cells s x y moore_offsets) s).
  { unfold get_free_adjacent_cells. by rewrite free_cells_loop_closed. }
  split; [exact Hget|].
  assert (Hstart : spread self s
                   = match free_cells s x y moore_offsets with
                     | [] => ret false
                     | _ =>
                         new_pos <- choice (free_cells s x y moore_offsets) ;;
                         let spread_chance := if _can_replace p (VTuple new_pos)
                                              then (25 # 100)%Q else (5 # 10)%Q in
                         draw <- random ;;
                         if Qltb draw spread_chance then
                           child <- new_plant PlantBase new_pos ;;
                           add_entity child ;;;
                           ret true
                         else ret false
                     end s).
  { unfold spread. unfold bind at 1. unfold load_plant, bind at 1, load. rewrite H.
    cbn [ret]. unfold bind at 1. rewrite Hpos, Hget. reflexivity. }
  split.
  - intros Hnil. rewrite Hstart, Hnil. reflexivity.
  - intros Hne.
    destruct (choice_picks (free_cells s x y moore_offsets) s Hne)
      as (new_pos & r1 & Hch & Hin & _).
    set (s1 := set_rng r1 s) in *.
    destruct (random s1) as [draw s2|] eqn:Hrand.
    2:{ unfold random in Hrand. destruct (floats (rng s1)); discriminate. }
    assert (Hs2 : exists r2, s2 = set_rng r2 s).
    { unfold random in Hrand. destruct (floats (rng s1)); inversion Hrand.
      - by exists r1.
      - by eexists. }
    destruct Hs2 as [r2 ->].
    exists new_pos, s1, draw, (set_rng r2 s).
    split; [exact Hch|]. split; [exact Hin|]. split; [exact Hrand|].
    assert (Hmid : spread self s
                   = (if Qltb draw (5 # 10) then
                        child <- new_plant PlantBase new_pos ;;
                        add_entity child ;;;
                        ret true
                      else ret false) (set_rng r2 s)).
    { rewrite Hstart.
      destruct (free_cells s x y moore_offsets) as [|c l] eqn:E; [contradiction|].
      unfold bind at 1. rewrite Hch. cbn [_can_replace]. cbv zeta.
      unfold bind at 1. rewrite Hrand. reflexivity. }
    split.
    + intros Hd. rewrite Hmid, Hd. reflexivity.
    + intros Hd. rewrite Hmid, Hd.
      apply free_cells_valid_empty in Hin as [Hv _].
      set (i := fresh (dom (heap s))).
      set (child := EPlant (mkPlant PlantBase new_pos [] [] 0 false false)).
      set (s3 := set_heap (<[i := child]> (heap s)) (set_rng r2 s)).
      assert (Hwf3 : wf_matrix s3) by exact Hwf.
      assert (Hv3 : is_valid_position s3 (fst (position child)) (snd (position child)) = true)
        by exact Hv.
      destruct (matrix_write_valid _ _ (Some i) s3 Hwf3 Hv3) as (m' & Hw & _ & Hc & Ho).
      exists (set_entities (entities s ++ [i]) (set_matrix m' s3)).
      split.
      { unfold bind at 1. unfold new_plant, alloc.
        change (fresh (dom (heap (set_rng r2 s)))) with i.
        change (set_heap _ (set_rng r2 s)) with s3.
        unfold bind at 1. unfold add_entity, bind, load.
        assert (Hl : heap s3 !! i = Some child) by apply lookup_insert_eq.
        rewrite Hl, Hw. reflexivity. }
      cbv zeta. split; [reflexivity|]. split; [reflexivity|]. split; [exact Hc|].
      intros x' y' Hxy Hnn. apply (Ho x' y' Hxy).
      cbn [position child p_position]. destruct new_pos. exact Hnn.
Qed.

Lemma lone_plant_wf_matrix : wf_matrix lone_plant.
Proof. apply wf_state_matrix. vm_compute. reflexivity. Qed.

Lemma spread_spawns_base_plant_witness :
  exists s',
    spread 0%nat lone_plant = Done true s' /\
    class_of <$> heap s' !! 1%nat = Some (PlantC PlantBase) /\
    cell s' 0 0 = Some (Some 1%nat).
Proof.
  destruct (spread_spawns_base_plant lone_plant 0%nat
              (mkPlant Lumiere (1, 1) ["day"] [PlantC Obscurite; PlantC Demi] 0 false false)
              lone_plant_wf_matrix) as (cells & Hget & _ & Hsome).
  - vm_compute. reflexivity.
  - assert (Hc : get_free_adjacent_cells (1, 1) lone_plant
                 = Done [(0, 0); (0, 1); (0, 2); (1, 0); (1, 2); (2, 0); (2, 1); (2, 2)]
                        lone_plant) by (vm_compute; reflexivity).
    cbn [p_position] in Hget. rewrite Hc in Hget. inversion Hget as [Hcells]. clear Hget.
    destruct Hsome as (new_pos & s1 & draw & s2 & Hch & _ & Hrand & _ & Hok).
    { rewrite <- Hcells. discriminate. }
    rewrite <- Hcells in Hch.
    assert (Hch' : choice [(0, 0); (0, 1); (0, 2); (1, 0); (1, 2); (2, 0); (2, 1); (2, 2)]
                          lone_plant = Done (0, 0) lone_plant) by (vm_compute; reflexivity).
    rewrite Hch' in Hch. inversion Hch; subst new_pos s1.
    assert (Hrand' : random lone_plant = Done 0%Q lone_plant) by (vm_compute; reflexivity).
    rewrite Hrand' in Hrand. inversion Hrand; subst draw s2.
    destruct Hok as (s' & Hs & Hh & _ & Hcell & _); [reflexivity|].
    exists s'. split; [exact Hs|]. split; [|exact Hcell].
    cbv zeta in Hh. rewrite Hh.
    match goal with |- context [<[?k := _]> _] =>
      assert (Hi : k = 1%nat) by (vm_compute; reflexivity); rewrite Hi end.
    rewrite lookup_insert_eq. reflexivity.
Defined.

(** ** What no update does

    The lemmas of this section hold for every relation between states that
    is reflexive and transitive and that is kept by a change of the oracle,
    by a write to a cell of the matrix, by the removal of an entity from
    the live list, by a write to a group list and by an assignment to an
    attribute of an object that keeps its class.  They cover what an update
    can reach: the creation of an object and [add_entity] are not among the
    steps, since [Plant.can_grow] and [Animal.reproduce] are the methods of
    the class bodies. *)

Section Always.
Variable R : St -> St -> Prop.
Hypothesis R_refl : forall s, R s s.
Hypothesis R_trans : forall s1 s2 s3, R s1 s2 -> R s2 s3 -> R s1 s3.

Lemma always_ret {A} (a : A) : always R (ret a).
Proof. intros s. apply R_refl. Qed.

Lemma always_raise {A} e : always R (@raise St A e).
Proof. intros s. apply R_refl. Qed.

Lemma always_gets {A} (f : St -> A) : always R (gets f).
Proof. intros s. apply R_refl. Qed.

Lemma always_bind {A B} (c : Py A) (k : A -> Py B) :
  always R c -> (forall a, always R (k a)) -> always R (bind c k).
Proof.
  intros Hc Hk s. unfold bind. specialize (Hc s).
  destruct (c s) as [a s1|e s1]; simpl in Hc |- *.
  - eapply R_trans; [exact Hc | apply Hk].
  - exact Hc.
Qed.

Lemma always_for_each {A} (l : list A) (body : A -> Py unit) :
  (forall x, always R (body x)) -> always R (for_each l body).
Proof.
  intros Hb. induction l as [|x l IH]; simpl.
  - apply always_ret.
  - apply always_bind; [apply Hb | intros _; exact IH].
Qed.

Lemma always_modify (f : St -> St) :
  (forall s, R s (f s)) -> always R (modify f).
Proof. intros Hf s. apply Hf. Qed.

Lemma always_call_bound {A} params nargs (body : Py A) :
  always R body -> always R (call_bound params nargs body).
Proof.
  intros Hb. unfold call_bound. destruct (Nat.eqb params (S nargs)); [exact Hb|].
  apply always_raise.
Qed.

Hypothesis R_rng : forall s v, R s (set_rng v s).
Hypothesis R_write : forall s x y v, R s (state_of (matrix_write x y v s)).
Hypothesis R_remove : forall s x, R s (set_entities (py_remove x (entities s)) s).
Hypothesis R_glists : forall s v, R s (set_glists v s).
Hypothesis R_update : forall s i e e',
  heap s !! i = Some e -> entity_le e e' ->
  R s (set_heap (<[i := e']> (heap s)) s).

Lemma always_random : always R random.
Proof. intros s. unfold random. destruct (floats (rng s)); simpl; auto. Qed.

Lemma always_next_int : always R next_int.
Proof. intros s. unfold next_int. destruct (ints (rng s)); simpl; auto. Qed.

Lemma always_move_delta : always R move_delta.
Proof. intros s. unfold move_delta. destruct (delta_loop (ints (rng s))). simpl. auto. Qed.

Lemma always_load i : always R (load i).
Proof. intros s. unfold load. destruct (heap s !! i); simpl; auto. Qed.

Lemma always_read_list g : always R (read_list g).
Proof. intros s. unfold read_list. destruct (glists s !! g); simpl; auto. Qed.

Lemma always_matrix_read x y : always R (matrix_read x y).
Proof. intros s. rewrite matrix_read_cell. destruct (cell s x y); simpl; auto. Qed.

Lemma always_matrix_write x y v : always R (matrix_write x y v).
Proof. intros s. apply R_write. Qed.

Lemma always_write_list g l : always R (write_list g l).
Proof. apply always_modify. intros s. apply R_glists. Qed.

Lemma always_remove x :
  always R (modify (fun s => set_entities (py_remove x (entities s)) s)).
Proof. apply always_modify. intros s. apply R_remove. Qed.

Lemma always_update_entity i f :
  (forall e, entity_le e (f e)) -> always R (update_entity i f).
Proof.
  intros Hf s. unfold update_entity, bind, load.
  destruct (heap s !! i) as [e|] eqn:E; simpl; [|apply R_refl].
  apply (R_update s i e); auto.
Qed.

Lemma always_update_animal i f :
  (forall a, entity_le (EAnimal a) (EAnimal (f a))) -> always R (update_animal i f).
Proof.
  intros Hf s. unfold update_animal, load_animal, bind, load.
  destruct (heap s !! i) as [[a|p]|] eqn:E; simpl; try apply R_refl.
  apply (R_update s i (EAnimal a)); [exact E | apply Hf].
Qed.

Lemma always_update_plant i f :
  (forall p, entity_le (EPlant p) (EPlant (f p))) -> always R (update_plant i f).
Proof.
  intros Hf s. unfold update_plant, load_plant, bind, load.
  destruct (heap s !! i) as [[a|p]|] eqn:E; simpl; try apply R_refl.
  apply (R_update s i (EPlant p)); [exact E | apply Hf].
Qed.

#[local] Hint Resolve always_random always_next_int always_move_delta always_load
  always_read_list always_matrix_read always_matrix_write always_write_list
  always_remove : core.

Ltac always_step :=
  match goal with
  | |- always _ (bind _ _) => apply always_bind; [ | intros ?]
  | |- always _ (ret _) => apply always_ret
  | |- always _ (raise _) => apply always_raise
  | |- always _ (gets _) => apply always_gets
  | |- always _ (call_bound _ _ _) => apply always_call_bound
  | |- always _ (for_each _ _) => apply always_for_each; intros ?
  | |- always _ (if ?b then _ else _) => destruct b
  | |- always _ (match ?x with _ => _ end) => destruct x
  end.

Ltac marks_kept :=
  cbn [entity_le]; repeat split; intros; first [reflexivity | assumption].

Ltac quiet :=
  repeat (first
    [ always_step
    | apply always_update_animal; intros ?; marks_kept
    | apply always_update_plant; intros ?; marks_kept
    | apply always_update_entity; intros []; marks_kept
    | solve [eauto] ]).

Lemma always_load_animal i : always R (load_animal i).
Proof. unfold load_animal. quiet. Qed.

Lemma always_load_plant i : always R (load_plant i).
Proof. unfold load_plant. quiet. Qed.

Lemma always_randint a b : always R (randint a b).
Proof. unfold randint. quiet. Qed.

#[local] Hint Resolve always_load_animal always_load_plant always_randint : core.

Lemma always_nearby_loop x y offs acc : always R (nearby_loop x y offs acc).
Proof.
  revert acc. induction offs as [|[dx dy] rest IH]; intros acc; simpl; quiet.
Qed.

Lemma always_get_nearby_objects pos r : always R (get_nearby_objects pos r).
Proof. destruct pos. apply always_nearby_loop. Qed.

#[local] Hint Resolve always_get_nearby_objects : core.

Lemma always_delete_unit i : always R (delete_unit i).
Proof. unfold delete_unit. quiet. Qed.

Lemma always_remove_group_body i : always R (remove_group_body i).
Proof. unfold remove_group_body. quiet. Qed.

#[local] Hint Resolve always_delete_unit always_remove_group_body : core.

Lemma always_remove_group g : always R (remove_group g).
Proof. unfold remove_group. quiet. Qed.

Lemma always_move_entity i p : always R (move_entity i p).
Proof. unfold move_entity. destruct p. quiet. Qed.

#[local] Hint Resolve always_remove_group always_move_entity : core.

Lemma always_eat_loop self b targets : always R (eat_loop self b targets).
Proof. induction targets as [|t rest IH]; simpl; quiet. Qed.

Lemma always_eat cls self d : always R (eat cls self d).
Proof. unfold eat. quiet. apply always_eat_loop. Qed.

Lemma always_move self : always R (move self).
Proof. unfold move, relocate_unit, decrease_food. quiet. Qed.

Lemma always_absorb self entity : always R (absorb self entity).
Proof. unfold absorb. quiet. Qed.

#[local] Hint Resolve always_eat always_move always_absorb : core.

Lemma always_merge_loop self l : always R (merge_loop self l).
Proof. induction l as [|e rest IH]; simpl; quiet. Qed.

Lemma always_predatory_loop self l : always R (predatory_loop self l).
Proof. induction l as [|e rest IH]; simpl; quiet. Qed.

Lemma always_aggressive_eat_loop self l : always R (aggressive_eat_loop self l).
Proof. induction l as [|e rest IH]; simpl; quiet. Qed.

#[local] Hint Resolve always_merge_loop always_predatory_loop
  always_aggressive_eat_loop : core.

Lemma always_animal_update_state self d : always R (animal_update_state self d).
Proof.
  unfold animal_update_state, change_active_status, change_hungry_status,
    change_speed_status, check_self_modification, call_try_merge_groups, call_eat,
    try_reproduce, reproduce, try_merge_groups, predatory_merge, aggressive_eat.
  quiet.
Qed.

Lemma always_plant_update_state self d : always R (plant_update_state self d).
Proof.
  unfold plant_update_state, plant_check_self_modification, grow.
  cbn [can_grow truthy]. quiet.
Qed.

Lemma always_update_state i d : always R (update_state i d).
Proof.
  unfold update_state. quiet.
  - apply always_animal_update_state.
  - apply always_plant_update_state.
Qed.

Hypothesis R_time : forall s v, R s (set_time v s).

Lemma always_process_tick : always R process_tick.
Proof.
  unfold process_tick. quiet.
  - apply always_update_state.
  - apply always_modify. intros s. apply R_time.
Qed.

End Always.

(** ** A tick creates nothing *)

Lemma set_matrix_same s : set_matrix (matrix s) s = s.
Proof. by destruct s. Qed.

Lemma py_set_length {A} (l : list A) i v l' :
  py_set l i v = Some l' -> length l' = length l.
Proof.
  unfold py_set. destruct (py_index (length l) i); [|discriminate].
  intros H. inversion H. apply length_insert.
Qed.

Lemma matrix_write_set x y v s :
  exists m, state_of (matrix_write x y v s) = set_matrix m s /\
            (wf_matrix s -> wf_matrix (set_matrix m s)).
Proof.
  unfold matrix_write.
  destruct (py_get (matrix s) x) as [row|] eqn:Hrow;
    [|exists (matrix s); rewrite set_matrix_same; by split].
  destruct (py_set row y v) as [row'|] eqn:Hset;
    [|exists (matrix s); rewrite set_matrix_same; by split].
  destruct (py_set (matrix s) x row') as [m'|] eqn:Hm;
    [|exists (matrix s); rewrite set_matrix_same; by split].
  exists m'. split; [reflexivity|].
  intros [Hh Hr]. split; simpl.
  - rewrite (py_set_length _ _ _ _ Hm). exact Hh.
  - unfold py_set in Hm. destruct (py_index (length (matrix s)) x); [|discriminate].
    inversion Hm. apply Forall_insert; [exact Hr|].
    rewrite (py_set_length _ _ _ _ Hset).
    rewrite Forall_forall in Hr. apply Hr. eapply py_get_elem. exact Hrow.
Qed.

Lemma py_remove_sublist x l : py_remove x l `sublist_of` l.
Proof.
  induction l as [|y l IH]; simpl; [constructor|].
  destruct (Nat.eqb x y); by constructor.
Qed.

Lemma shrinks_process_tick : always shrinks process_tick.
Proof.
  apply always_process_tick; unfold shrinks.
  - intros s. reflexivity.
  - intros s1 s2 s3 H12 H23. by transitivity (entities s2).
  - intros s v. reflexivity.
  - intros s x y v. destruct (matrix_write_set x y v s) as (m & -> & _). reflexivity.
  - intros s x. apply py_remove_sublist.
  - intros s v. reflexivity.
  - intros s i e e' _ _. reflexivity.
  - intros s v. reflexivity.
Qed.

(** The live list never grows in a tick.  Whether [process_tick] returns or
    an update raises, the live list it leaves is what is left of the one it
    found when some entities are taken out: no entity has been added, none
    has changed place in the list, so there are at most as many as before,
    and each one was live before the tick.  Plants never spread and animals
    never reproduce in a tick. *)
Theorem tick_never_adds (s : St) :
  let s' := state_of (process_tick s) in
  entities s' `sublist_of` entities s /\
  (length (entities s') <= length (entities s))%nat /\
  forall i, i ∈ entities s' -> i ∈ entities s.
Proof.
  cbv zeta. pose proof (shrinks_process_tick s) as H. unfold shrinks in H.
  split; [exact H|]. split.
  - apply sublist_length. exact H.
  - intros i Hi. exact (sublist_subseteq _ _ H i Hi).
Qed.

Lemma same_shape_matrix s s' :
  width s' = width s -> height s' = height s -> matrix s' = matrix s ->
  same_shape s s'.
Proof.
  intros Hw Hh Hm. split; [exact Hw|]. split; [exact Hh|].
  unfold wf_matrix. by rewrite Hw, Hh, Hm.
Qed.

Lemma same_shape_process_tick : always same_shape process_tick.
Proof.
  apply always_process_tick.
  - intros s. by apply same_shape_matrix.
  - intros s1 s2 s3 (Hw1 & Hh1 & Hwf1) (Hw2 & Hh2 & Hwf2).
    split; [congruence|]. split; [congruence|]. auto.
  - intros s v. by apply same_shape_matrix.
  - intros s x y v. destruct (matrix_write_set x y v s) as (m & -> & Hwf).
    split; [reflexivity|]. split; [reflexivity|]. exact Hwf.
  - intros s x. by apply same_shape_matrix.
  - intros s v. by apply same_shape_matrix.
  - intros s i e e' _ _. by apply same_shape_matrix.
  - intros s v. by apply same_shape_matrix.
Qed.

(** A tick keeps the shape of the world: the width and the height are as
    they were, and a matrix with [height] rows of [width] cells still has
    that many rows and cells, whether [process_tick] returns or an update
    raises. *)
Theorem tick_keeps_shape (s : St) :
  wf_matrix s ->
  let s' := state_of (process_tick s) in
  wf_matrix s' /\ width s' = width s /\ height s' = height s.
Proof.
  intros Hwf. cbv zeta. destruct (same_shape_process_tick s) as (Hw & Hh & H).
  split; [exact (H Hwf)|]. by split.
Qed.

Lemma tick_keeps_shape_witness :
  wf_matrix (state_of (process_tick scenario)) /\
  width (state_of (process_tick scenario)) = 5 /\
  height (state_of (process_tick scenario)) = 1.
Proof.
  destruct (tick_keeps_shape scenario scenario_wf_matrix) as (Hwf & Hw & Hh).
  split; [exact Hwf|]. split; [rewrite Hw | rewrite Hh]; reflexivity.
Defined.

Lemma entity_le_class e e' : entity_le e e' -> class_of e' = class_of e.
Proof.
  destruct e, e'; cbn [entity_le class_of]; try contradiction.
  - intros (-> & _). reflexivity.
  - intros (-> & _). reflexivity.
Qed.

Lemma same_objects_process_tick : always same_objects process_tick.
Proof.
  apply always_process_tick; unfold same_objects.
  - intros s i. reflexivity.
  - intros s1 s2 s3 H12 H23 i. by rewrite H23.
  - intros s v i. reflexivity.
  - intros s x y v i. destruct (matrix_write_set x y v s) as (m & -> & _). reflexivity.
  - intros s x i. reflexivity.
  - intros s v i. reflexivity.
  - intros s i e e' He Hle j. simpl. destruct (decide (i = j)) as [->|Hne].
    + rewrite lookup_insert_eq, He. simpl. by rewrite (entity_le_class e e' Hle).
    + by rewrite lookup_insert_ne.
  - intros s v i. reflexivity.
Qed.

(** A tick creates no object and changes the class of none: after
    [process_tick], returned or raised, the store has the objects it had,
    each of the class it had.  An entity taken off the grid and out of the
    live list is still in the store. *)
Theorem tick_creates_no_object (s : St) (i : oid) :
  class_of <$> heap (state_of (process_tick s)) !! i = class_of <$> heap s !! i.
Proof. apply same_objects_process_tick. Qed.

(** ** The initial population *)

Lemma probe_occupied s x y o rest continue :
  wf_matrix s -> is_valid_position s x y = true ->
  cell s x y = Some (Some o) ->
  probe (matrix s) x y rest continue = continue.
Proof.
  intros Hwf Hv Hc. unfold probe. unfold cell in Hc.
  destruct (py_get (matrix s) x) as [row|]; [|discriminate].
  rewrite Hc. reflexivity.
Qed.

Lemma probe_found s x y rest continue x' y' rest' :
  probe (matrix s) x y rest continue = Found x' y' rest' ->
  (x' = x /\ y' = y /\ cell s x y = Some None) \/ continue = Found x' y' rest'.
Proof.
  unfold probe, cell. destruct (py_get (matrix s) x) as [row|]; [|discriminate].
  destruct (py_get row y) as [[o|]|]; [by right| |discriminate].
  intros H. inversion H; subst. by left.
Qed.

Lemma mod_valid s a b :
  1 <= height s -> 1 <= width s ->
  is_valid_position s (a mod height s) (b mod width s) = true.
Proof. intros Hh Hw. apply valid_bounds. split; apply Z.mod_pos_bound; lia. Qed.

Lemma origin_valid s :
  1 <= height s -> 1 <= width s -> is_valid_position s 0 0 = true.
Proof. intros Hh Hw. apply valid_bounds. lia. Qed.

Lemma spawn_search_found s l x y rest :
  1 <= height s -> 1 <= width s ->
  spawn_search (height s) (width s) (matrix s) l = Found x y rest ->
  is_valid_position s x y = true /\ cell s x y = Some None.
Proof.
  intros Hh Hw.
  assert (H : forall n l, (length l <= n)%nat ->
    spawn_search (height s) (width s) (matrix s) l = Found x y rest ->
    is_valid_position s x y = true /\ cell s x y = Some None).
  { clear l. induction n as [|n IH]; intros l Hl.
    - destruct l; [|simpl in Hl; lia]. simpl. intros H.
      apply probe_found in H as [(-> & -> & Hc)|H]; [|discriminate].
      split; [by apply origin_valid | exact Hc].
    - destruct l as [|a [|b l]].
      + simpl. intros H.
        apply probe_found in H as [(-> & -> & Hc)|H]; [|discriminate].
        split; [by apply origin_valid | exact Hc].
      + cbn [spawn_search]. intros H.
        apply probe_found in H as [(-> & -> & Hc)|H].
        * split; [|exact Hc]. apply valid_bounds.
          pose proof (Z.mod_pos_bound a (height s) ltac:(lia)). lia.
        * apply probe_found in H as [(-> & -> & Hc)|H]; [|discriminate].
          split; [by apply origin_valid | exact Hc].
      + cbn [spawn_search]. intros H.
        apply probe_found in H as [(-> & -> & Hc)|H].
        * split; [by apply mod_valid | exact Hc].
        * apply (IH l); [simpl in Hl; lia | exact H]. }
  apply (H (length l)). lia.
Qed.

Lemma spawn_search_full s l :
  wf_matrix s -> 1 <= height s -> 1 <= width s ->
  (forall x y, is_valid_position s x y = true -> exists o, cell s x y = Some (Some o)) ->
  spawn_search (height s) (width s) (matrix s) l = Forever.
Proof.
  intros Hwf Hh Hw Hfull.
  assert (Hp : forall x y rest continue, is_valid_position s x y = true ->
                 probe (matrix s) x y rest continue = continue).
  { intros x y rest continue Hv. destruct (Hfull x y Hv) as [o Ho].
    eapply probe_occupied; eauto. }
  assert (H : forall n l, (length l <= n)%nat ->
    spawn_search (height s) (width s) (matrix s) l = Forever).
  { clear l. induction n as [|n IH]; intros l Hl.
    - destruct l; [|simpl in Hl; lia]. simpl. apply Hp. by apply origin_valid.
    - destruct l as [|a [|b l]].
      + simpl. apply Hp. by apply origin_valid.
      + cbn [spawn_search]. rewrite Hp.
        * apply Hp. by apply origin_valid.
        * apply valid_bounds. pose proof (Z.mod_pos_bound a (height s) ltac:(lia)). lia.
      + cbn [spawn_search]. rewrite Hp by (by apply mod_valid).
        apply IH. simpl in Hl. lia. }
  apply (H (length l)). lia.
Qed.

(** On a grid without a free cell [initial_spawn] of one entity or more
    never returns, whatever the oracle: its [while True] loop draws cells
    until it finds a free one, and there is no bound on the attempts and no
    test that a free cell exists. *)
Theorem initial_spawn_full_grid_never_returns (s : St) (cls : Class) (n : nat) :
  wf_matrix s -> 1 <= height s -> 1 <= width s ->
  (forall x y, is_valid_position s x y = true -> exists o, cell s x y = Some (Some o)) ->
  initial_spawn cls (S n) s = None.
Proof.
  intros Hwf Hh Hw Hfull. cbn [initial_spawn]. unfold initial_spawn_one.
  assert (Hdh : height s <? 1 = false) by (apply Z.ltb_ge; lia).
  assert (Hdw : width s <? 1 = false) by (apply Z.ltb_ge; lia).
  rewrite Hdh, Hdw, (spawn_search_full s _ Hwf Hh Hw Hfull). reflexivity.
Qed.

Lemma initial_spawn_full_grid_never_returns_witness :
  initial_spawn (AnimalC Pauvre) 1 full_world = None.
Proof.
  apply (initial_spawn_full_grid_never_returns full_world (AnimalC Pauvre) 0).
  - apply wf_state_matrix. vm_compute. reflexivity.
  - change (height full_world) with 1. lia.
  - change (width full_world) with 1. lia.
  - intros x y Hv. apply valid_bounds in Hv.
    change (height full_world) with 1 in Hv. change (width full_world) with 1 in Hv.
    assert (x = 0) as -> by lia. assert (y = 0) as -> by lia.
    exists 0%nat. vm_compute. reflexivity.
Defined.

Lemma set_glists_same s : set_glists (glists s) s = s.
Proof. by destruct s. Qed.

Lemma new_entity_state cls pos s :
  exists e g,
    new_entity cls pos s
    = Done (fresh (dom (heap s)))
           (set_glists g (set_heap (<[fresh (dom (heap s)) := e]> (heap s)) s)) /\
    position e = pos /\ class_of e = cls.
Proof.
  destruct cls as [c|c]; simpl.
  - unfold new_animal, alloc. eexists _, _. split; [reflexivity|]. by split.
  - unfold new_plant, alloc. eexists _, (glists s).
    split; [by destruct s | by split].
Qed.

Lemma World_populated w h mt r : 0 <= w -> 0 <= h -> populated (World w h mt r).
Proof.
  intros Hw Hh.
  assert (Hwf : wf_matrix (World w h mt r)).
  { split; simpl.
    - rewrite repeat_length. lia.
    - apply Forall_forall. intros row Hrow. apply list_elem_of_In, repeat_spec in Hrow.
      subst row. rewrite repeat_length. lia. }
  split; [exact Hwf|]. split; [constructor|]. split.
  - intros i Hi. by apply elem_of_nil in Hi.
  - intros x y o Hv Hc. exfalso.
    destruct (cell_valid _ x y Hwf Hv) as (row & c & Hrow & Hcell & Hc').
    rewrite Hc in Hc'. inversion Hc'; subst c.
    apply list_elem_of_lookup_2, list_elem_of_In, repeat_spec in Hrow. subst row.
    apply list_elem_of_lookup_2, list_elem_of_In, repeat_spec in Hcell. discriminate.
Qed.

Lemma cell_set_entities l s x y : cell (set_entities l s) x y = cell s x y.
Proof. reflexivity. Qed.

Lemma initial_spawn_one_populated cls s s' :
  populated s ->
  initial_spawn_one cls s = Some (Done tt s') ->
  populated s' /\
  exists i, entities s' = entities s ++ [i] /\
            heap s !! i = None /\
            class_of <$> heap s' !! i = Some cls /\
            (forall j, j <> i -> heap s' !! j = heap s !! j).
Proof.
  intros (Hwf & Hnd & Hlive & Hcells). unfold initial_spawn_one.
  destruct (height s <? 1) eqn:Hh; [discriminate|].
  destruct (width s <? 1) eqn:Hw; [unfold bind; destruct (next_int s); discriminate|].
  apply Z.ltb_ge in Hh, Hw.
  destruct (spawn_search (height s) (width s) (matrix s) (ints (rng s)))
    as [x y rest|e rest|] eqn:Hs; [|discriminate|discriminate].
  destruct (spawn_search_found s _ x y rest Hh Hw Hs) as [Hv Hfree].
  set (s1 := set_rng (mkRng (floats (rng s)) rest) s).
  destruct (new_entity_state cls (x, y) s1) as (e & g & Hnew & Hpos & Hcls).
  change (heap s1) with (heap s) in Hnew.
  set (i := fresh (dom (heap s))) in *.
  set (s2 := set_glists g (set_heap (<[i := e]> (heap s)) s1)) in *.
  assert (Hwf2 : wf_matrix s2) by exact Hwf.
  assert (Hv2 : is_valid_position s2 x y = true) by exact Hv.
  destruct (matrix_write_valid x y (Some i) s2 Hwf2 Hv2) as (m' & Hwr & Hwf3 & Hc3 & Ho3).
  unfold bind. rewrite Hnew, Hwr. unfold modify. intros H. inversion H; subst s'. clear H.
  assert (Hi : heap s !! i = None) by apply fresh_unused.
  assert (Hdead : i ∉ entities s).
  { intros Hin. destruct (Hlive i Hin) as (e0 & He0 & _). congruence. }
  split.
  - split; [exact Hwf3|]. split; [|split].
    + simpl. apply NoDup_app. split; [exact Hnd|]. split; [|apply NoDup_singleton].
      intros j Hj Hji. apply list_elem_of_singleton in Hji. subst j. contradiction.
    + intros j Hj. simpl in Hj. apply elem_of_app in Hj as [Hj|Hj].
      * destruct (Hlive j Hj) as (e0 & He0 & Hv0 & Hc0).
        assert (Hji : j <> i) by congruence.
        exists e0. split; [simpl; by rewrite lookup_insert_ne|]. split; [exact Hv0|].
        rewrite cell_set_entities.
        rewrite Ho3; [exact Hc0 | exact Hv0 |].
        intros Heq. inversion Heq as [[Hx Hy]]. rewrite Hx, Hy in Hc0. congruence.
      * apply list_elem_of_singleton in Hj. subst j.
        exists e. split; [simpl; apply lookup_insert_eq|].
        rewrite Hpos. cbn [fst snd]. split; [exact Hv|].
        rewrite cell_set_entities. exact Hc3.
    + intros x' y' o Hv' Hc'.
      rewrite cell_set_entities in Hc'.
      destruct (decide ((x', y') = (x, y))) as [Heq|Hne].
      * inversion Heq; subst x' y'. rewrite Hc3 in Hc'. inversion Hc'; subst o.
        split; [simpl; apply elem_of_app; right; by apply list_elem_of_singleton|].
        exists e. split; [simpl; apply lookup_insert_eq | exact Hpos].
      * rewrite (Ho3 x' y' Hv' Hne) in Hc'.
        destruct (Hcells x' y' o Hv' Hc') as (Hin & e0 & He0 & Hp0).
        split; [simpl; apply elem_of_app; by left|].
        exists e0. split; [|exact Hp0]. simpl. rewrite lookup_insert_ne; [exact He0|].
        intros Hio. subst o. congruence.
  - exists i. split; [reflexivity|]. split; [exact Hi|]. split.
    + simpl. rewrite lookup_insert_eq. simpl. by rewrite Hcls.
    + intros j Hj. simpl. by rewrite lookup_insert_ne.
Qed.

Lemma populated_consistent s : populated s -> grid_consistent s.
Proof.
  intros (Hwf & Hnd & Hlive & Hcells). split.
  - intros i Hi. destruct (Hlive i Hi) as (e & He & _ & Hc). eauto.
  - intros i j ei ej Hi Hj Hei Hej Hp.
    destruct (Hlive i Hi) as (e1 & He1 & _ & Hc1).
    destruct (Hlive j Hj) as (e2 & He2 & _ & Hc2).
    rewrite Hei in He1. rewrite Hej in He2. inversion He1; inversion He2; subst e1 e2.
    rewrite Hp in Hc1. congruence.
Qed.

Lemma initial_spawn_populated (s s' : St) (cls : Class) (count : nat) :
  populated s ->
  initial_spawn cls count s = Some (Done tt s') ->
  populated s' /\
  exists new,
    entities s' = entities s ++ new /\ length new = count /\
    (forall i, i ∈ new -> heap s !! i = None /\ class_of <$> heap s' !! i = Some cls) /\
    (forall j e, heap s !! j = Some e -> heap s' !! j = Some e).
Proof.
  revert s. induction count as [|n IH]; intros s Hpop; cbn [initial_spawn].
  - intros H. inversion H; subst s'. split; [exact Hpop|].
    exists []. rewrite app_nil_r. split; [reflexivity|]. split; [reflexivity|].
    split; [|auto]. intros i Hi. by apply elem_of_nil in Hi.
  - destruct (initial_spawn_one cls s) as [[[] s1|e s1]|] eqn:E; try discriminate.
    destruct (initial_spawn_one_populated cls s s1 Hpop E)
      as (Hpop1 & i & He1 & Hi & Hc1 & Hold1).
    intros H. destruct (IH s1 Hpop1 H) as (Hpop' & new & He' & Hlen & Hnew & Hold).
    split; [exact Hpop'|].
    exists (i :: new). split; [rewrite He', He1, <- app_assoc; reflexivity|].
    split; [simpl; by rewrite Hlen|]. split.
    + intros j Hj. apply elem_of_cons in Hj as [->|Hj].
      * split; [exact Hi|].
        destruct (heap s1 !! i) as [e1|] eqn:Hl; [|discriminate].
        rewrite (Hold i e1 Hl). exact Hc1.
      * destruct (Hnew j Hj) as [Hnone Hcls]. split; [|exact Hcls].
        destruct (decide (j = i)) as [->|Hne]; [exact Hi|].
        rewrite <- (Hold1 j Hne). exact Hnone.
    + intros j e0 Hj. apply Hold. rewrite Hold1; [exact Hj|]. congruence.
Qed.

(** [initial_spawn] keeps the grid and the live list in step.  Started in a
    world where they agree both ways (as they do in a fresh world), a call
    that returns leaves a world where they still agree: every live entity
    is held by the cell of its position, no two of them have the same
    position, and every cell inside the grid that holds something holds a
    live entity.  The live list is the old one followed by exactly [count]
    new objects of the class asked for, and the objects that existed are
    untouched. *)
Theorem initial_spawn_keeps_grid (s s' : St) (cls : Class) (count : nat) :
  populated s ->
  initial_spawn cls count s = Some (Done tt s') ->
  populated s' /\ grid_consistent s' /\
  exists new,
    entities s' = entities s ++ new /\ length new = count /\
    (forall i, i ∈ new -> heap s !! i = None /\ class_of <$> heap s' !! i = Some cls) /\
    (forall j e, heap s !! j = Some e -> heap s' !! j = Some e).
Proof.
  intros Hpop H.
  destruct (initial_spawn_populated s s' cls count Hpop H) as (Hpop' & Hnew).
  split; [exact Hpop'|]. split; [|exact Hnew].
  apply populated_consistent. exact Hpop'.
Qed.

Lemma initial_spawn_keeps_grid_witness :
  populated scenario /\ grid_consistent scenario /\ length (entities scenario) = 3%nat.
Proof.
  destruct scenario_spawn as (s1 & H1 & H2).
  destruct (initial_spawn_keeps_grid (World 5 1 40 scenario_rng) s1 (AnimalC Malheureux) 1)
    as (Hp1 & _ & new1 & He1 & Hl1 & _).
  - apply World_populated; lia.
  - exact H1.
  - destruct (initial_spawn_keeps_grid s1 scenario (AnimalC Pauvre) 2 Hp1 H2)
      as (Hp & Hc & new & He & Hl & _).
    split; [exact Hp|]. split; [exact Hc|].
    rewrite He, He1. rewrite !length_app, Hl, Hl1. reflexivity.
Defined.

(** ** Removing a group *)

Lemma py_remove_filter x l :
  NoDup l -> py_remove x l = List.filter (fun i => negb (Nat.eqb x i)) l.
Proof.
  induction l as [|y l IH]; intros Hnd; simpl; [reflexivity|].
  apply NoDup_cons in Hnd as [Hy Hnd].
  destruct (Nat.eqb x y) eqn:E; simpl.
  - apply Nat.eqb_eq in E. subst y. rewrite <- IH by exact Hnd.
    symmetry. by apply py_remove_absent.
  - by rewrite IH.
Qed.

Lemma List_filter_filter {A} (f g : A -> bool) (l : list A) :
  List.filter f (List.filter g l) = List.filter (fun x => g x && f x) l.
Proof.
  induction l as [|x l IH]; simpl; [reflexivity|].
  destruct (g x); simpl; [destruct (f x)|]; by rewrite IH.
Qed.

Lemma remove_group_body_entities m s s' :
  remove_group_body m s = Done tt s' -> entities s' = py_remove m (entities s).
Proof.
  unfold remove_group_body, bind, gets.
  destruct (py_in m (entities s)) eqn:Hin.
  - unfold modify, load.
    set (s1 := set_entities (py_remove m (entities s)) s).
    destruct (heap s1 !! m) as [e|]; [|discriminate]. intros H.
    destruct (matrix_write_set (fst (position e)) (snd (position e)) None s1)
      as (m' & Hst & _).
    rewrite H in Hst. simpl in Hst. subst s'. reflexivity.
  - intros H. inversion H; subst s'. symmetry. apply py_remove_absent.
    by apply py_in_not_elem.
Qed.

Lemma remove_group_loop_entities members s s' :
  NoDup (entities s) ->
  for_each members remove_group_body s = Done tt s' ->
  entities s' = List.filter (fun i => negb (py_in i members)) (entities s).
Proof.
  revert s. induction members as [|m rest IH]; intros s Hnd; simpl.
  - intros H. inversion H; subst s'. clear.
    induction (entities s) as [|x l IHl]; simpl; [reflexivity|]. by rewrite <- IHl.
  - unfold bind. destruct (remove_group_body m s) as [[] s1|] eqn:E; [|discriminate].
    intros H. apply remove_group_body_entities in E.
    assert (Hnd1 : NoDup (entities s1)).
    { rewrite E. by apply py_remove_NoDup. }
    rewrite (IH s1 Hnd1 H), E, (py_remove_filter _ _ Hnd), List_filter_filter.
    apply filter_ext. intros i. rewrite Nat.eqb_sym, negb_orb. reflexivity.
Qed.

(** [remove_group] takes every member of the list out of the world and
    nothing else.  In a world whose live list has no duplicates and whose
    live entities stand inside the grid, it returns; the live list it
    leaves is the old one, in its order, without the members of the list;
    the cell at the position of each member that was live is empty; a cell
    that was empty is still empty; the store, the group lists and the
    oracle are as they were: the members keep their [group] attribute and
    the list keeps its members. *)
Theorem remove_group_takes_out_members (s : St) (g : gid) (members : list oid) :
  wf_matrix s ->
  NoDup (entities s) ->
  (forall i, i ∈ entities s ->
     exists e, heap s !! i = Some e /\
               is_valid_position s (fst (position e)) (snd (position e)) = true) ->
  glists s !! g = Some members ->
  exists s',
    remove_group g s = Done tt s' /\
    entities s' = List.filter (fun i => negb (py_in i members)) (entities s) /\
    heap s' = heap s /\ glists s' = glists s /\ rng s' = rng s /\
    (forall m e, m ∈ members -> m ∈ entities s -> heap s !! m = Some e ->
                 cell s' (fst (position e)) (snd (position e)) = Some None) /\
    (forall x y, is_valid_position s x y = true ->
                 cell s x y = Some None -> cell s' x y = Some None).
Proof.
  intros Hwf Hnd Hlive Hg.
  destruct (remove_group_loop_spec members s Hwf Hnd Hlive)
    as (s' & Hrun & Hh & Hgl & Hr & _ & _ & _ & _ & _ & _ & Hkeep & Hgone).
  exists s'. split.
  { unfold remove_group, bind, read_list. rewrite Hg. exact Hrun. }
  split; [exact (remove_group_loop_entities members s s' Hnd Hrun)|].
  split; [exact Hh|]. split; [exact Hgl|]. split; [exact Hr|].
  split; [exact Hgone | exact Hkeep].
Qed.

Lemma remove_group_takes_out_members_witness :
  exists s',
    remove_group 1%nat scenario = Done tt s' /\
    entities s' = [0; 2]%nat /\ cell s' 0 2 = Some None.
Proof.
  destruct (remove_group_takes_out_members scenario 1%nat [1%nat] scenario_wf_matrix)
    as (s' & Hrun & He & _ & _ & _ & Hgone & _).
  - exact (wf_state_NoDup _ scenario_wf).
  - intros i Hi. exact (wf_state_live _ i scenario_wf Hi).
  - vm_compute. reflexivity.
  - exists s'. split; [exact Hrun|]. split.
    + rewrite He. vm_compute. reflexivity.
    + apply (Hgone 1%nat (EAnimal (mkAnimal Pauvre (0, 2) 50 100 true false 1%nat
                                             false false false false))).
      * apply list_elem_of_singleton. reflexivity.
      * change (entities scenario) with [0; 1; 2]%nat.
        apply elem_of_cons. right. apply elem_of_cons. by left.
      * vm_compute. reflexivity.
Defined.

(** ** A tick that raises *)

Lemma for_each_raises {A} (l : list A) (body : A -> Py unit) s e s' :
  for_each l body s = Raised e s' <->
  exists before x after s1,
    l = before ++ x :: after /\
    for_each before body s = Done tt s1 /\
    body x s1 = Raised e s'.
Proof.
  revert s. induction l as [|y l IH]; intros s; simpl.
  - split; [discriminate|]. intros (before & x & after & s1 & Hl & _).
    destruct before; discriminate.
  - unfold bind. split.
    + destruct (body y s) as [[] s1|e1 s1] eqn:E.
      * intros H. apply IH in H as (before & x & after & s2 & -> & Hb & Hx).
        exists (y :: before), x, after, s2. split; [reflexivity|].
        split; [|exact Hx]. simpl. unfold bind. by rewrite E.
      * intros H. inversion H; subst e1 s1.
        exists [], y, l, s. by repeat split.
    + intros (before & x & after & s1 & Hl & Hb & Hx).
      destruct before as [|z before]; simpl in Hl; inversion Hl; subst.
      * simpl in Hb. inversion Hb; subst s1. by rewrite Hx.
      * simpl in Hb. unfold bind in Hb.
        destruct (body z s) as [[] s2|]; [|discriminate].
        apply IH. exists before, x, after, s1. by repeat split.
Qed.

(** An exception in an update aborts the tick where it stands.
    [process_tick] raises exactly when the update of some entity of the
    snapshot raises after the updates of the entities before it have
    returned: what those did stays done, the entities after it are not
    updated, and the clock is not advanced, so the next tick runs in the
    same phase. *)
Theorem tick_aborted_by_exception (s s' : St) (e : PyExn) :
  process_tick s = Raised e s' <->
  exists before i after s1,
    entities s = before ++ i :: after /\
    updates (current_time (time s)) before s s1 /\
    update_state i (current_time (time s)) s1 = Raised e s' /\
    time s' = time s.
Proof.
  unfold process_tick, bind, gets, get_time. split.
  - destruct (for_each (entities s) _ s) as [[] s1|e1 s1] eqn:E; [discriminate|].
    intros H. inversion H; subst e1 s1.
    apply for_each_raises in E as (before & i & after & s1 & Hl & Hb & Hi).
    exists before, i, after, s1. split; [exact Hl|].
    apply for_each_updates in Hb. split; [exact Hb|]. split; [exact Hi|].
    pose proof (updates_same_clock _ _ _ _ Hb) as (Ht & _).
    rewrite <- Ht.
    pose proof (always_update_state same_clock same_clock_refl same_clock_trans) as Hk.
    destruct (Hk ltac:(intros; by repeat split)
                 ltac:(intros ? x y v; destruct (matrix_write_set x y v s0) as (m & -> & _);
                       by repeat split)
                 ltac:(intros; by repeat split) ltac:(intros; by repeat split)
                 ltac:(intros; by repeat split)
                 i (current_time (time s)) s1) as (Ht' & _).
    rewrite Hi in Ht'. exact Ht'.
  - intros (before & i & after & s1 & Hl & Hb & Hi & _).
    apply for_each_updates in Hb.
    assert (E : for_each (entities s) (fun entity => update_state entity (current_time (time s))) s
                = Raised e s').
    { apply for_each_raises. exists before, i, after, s1. by repeat split. }
    rewrite E. reflexivity.
Qed.

Lemma tick_aborted_by_exception_witness :
  exists s',
    process_tick pack_world = Raised TypeError s' /\ time s' = time pack_world.
Proof.
  assert (H : process_tick pack_world
              = Raised TypeError (state_of (process_tick pack_world)))
    by (vm_compute; reflexivity).
  destruct (proj1 (tick_aborted_by_exception _ _ _) H) as (_ & _ & _ & _ & _ & _ & _ & Ht).
  exists (state_of (process_tick pack_world)). split; [exact H | exact Ht].
Defined.

(** ** The population of [initialize_ecosystem] *)

Lemma range_length a b : length (range a b) = Z.to_nat (b - a).
Proof. unfold range. by rewrite length_map, length_seq. Qed.

Lemma pairs_length {A B} (l : list A) (k : list B) :
  length (flat_map (fun x => map (fun y => (x, y)) k) l) = (length l * length k)%nat.
Proof.
  induction l as [|x l IH]; simpl; [reflexivity|].
  by rewrite length_app, length_map, IH.
Qed.

Lemma grid_cells_length s :
  length (grid_cells s) = (Z.to_nat (height s) * Z.to_nat (width s))%nat.
Proof.
  unfold grid_cells. rewrite pairs_length, !range_length, !Z.sub_0_r. reflexivity.
Qed.

Lemma grid_cells_valid s x y :
  is_valid_position s x y = true -> (x, y) ∈ grid_cells s.
Proof.
  intros Hv. apply valid_bounds in Hv as [Hx Hy].
  apply list_elem_of_In. unfold grid_cells. apply in_flat_map.
  exists x. split; [apply In_range_iff; lia|].
  apply in_map_iff. exists y. split; [reflexivity | apply In_range_iff; lia].
Qed.

(** There are at most as many live entities as cells. *)
Lemma populated_fits s :
  populated s ->
  (length (entities s) <= Z.to_nat (height s) * Z.to_nat (width s))%nat.
Proof.
  intros (Hwf & Hnd & Hlive & Hcells).
  rewrite <- grid_cells_length, <- (length_fmap (position_at s) (entities s)).
  apply submseteq_length, NoDup_submseteq.
  - apply NoDup_fmap_2_strong; [|exact Hnd].
    intros i j Hi Hj Heq. unfold position_at in Heq.
    destruct (Hlive i Hi) as (ei & Hei & _ & Hci).
    destruct (Hlive j Hj) as (ej & Hej & _ & Hcj).
    rewrite Hei, Hej in Heq. rewrite Heq in Hci. congruence.
  - intros p Hp. apply list_elem_of_fmap in Hp as (i & -> & Hi).
    destruct (Hlive i Hi) as (e & He & Hv & _). unfold position_at. rewrite He.
    destruct (position e) as [x y]. by apply grid_cells_valid.
Qed.

Lemma initial_spawn_classes s s' cls count :
  populated s ->
  initial_spawn cls count s = Some (Done tt s') ->
  populated s' /\ width s' = width s /\ height s' = height s /\
  exists new,
    entities s' = entities s ++ new /\
    class_at s' <$> new = repeat (Some cls) count /\
    (forall j e, heap s !! j = Some e -> heap s' !! j = Some e).
Proof.
  intros Hpop H.
  destruct (initial_spawn_populated s s' cls count Hpop H)
    as (Hpop' & new & He & Hlen & Hnew & Hold).
  destruct (initial_spawn_clock _ _ _ _ H) as (_ & Hw & Hh).
  split; [exact Hpop'|]. split; [exact Hw|]. split; [exact Hh|].
  exists new. split; [exact He|]. split; [|exact Hold].
  assert (Hall : forall l : list oid, (forall i, i ∈ l -> class_at s' i = Some cls) ->
                           class_at s' <$> l = repeat (Some cls) (length l)).
  { induction l as [|i l IHl]; intros Hl; simpl; [reflexivity|]. f_equal.
    - apply Hl. by left.
    - apply IHl. intros j Hj. apply Hl. by right. }
  subst count. apply Hall. intros i Hi. apply Hnew, Hi.
Qed.

Lemma class_at_kept s s' (l : list oid) :
  (forall j e, heap s !! j = Some e -> heap s' !! j = Some e) ->
  (forall i, i ∈ l -> is_Some (heap s !! i)) ->
  class_at s' <$> l = class_at s <$> l.
Proof.
  intros Hold Hl. induction l as [|i l IH]; simpl; [reflexivity|]. f_equal.
  - destruct (Hl i ltac:(by left)) as [e He]. unfold class_at.
    by rewrite He, (Hold i e He).
  - apply IH. intros j Hj. apply Hl. by right.
Qed.

Lemma spawn_population_populated population s s' :
  populated s ->
  spawn_population population s = Some (Done tt s') ->
  populated s' /\ width s' = width s /\ height s' = height s /\
  exists new,
    entities s' = entities s ++ new /\
    class_at s' <$> new = roll_call population /\
    (forall j e, heap s !! j = Some e -> heap s' !! j = Some e).
Proof.
  revert s. induction population as [|[cls count] rest IH]; intros s Hpop; simpl.
  - intros H. inversion H; subst s'. split; [exact Hpop|]. do 2 (split; [reflexivity|]).
    exists []. rewrite app_nil_r. split; [reflexivity|]. split; [reflexivity|]. auto.
  - destruct (initial_spawn cls count s) as [[[] s1|e s1]|] eqn:E; try discriminate.
    destruct (initial_spawn_classes s s1 cls count Hpop E)
      as (Hpop1 & Hw1 & Hh1 & new1 & He1 & Hc1 & Hold1).
    intros H. destruct (IH s1 Hpop1 H) as (Hpop' & Hw & Hh & new & He & Hc & Hold).
    split; [exact Hpop'|]. split; [congruence|]. split; [congruence|].
    exists (new1 ++ new). split; [rewrite He, He1, <- app_assoc; reflexivity|].
    split; [|intros j e0 Hj; apply Hold, Hold1, Hj].
    rewrite fmap_app, Hc. f_equal. rewrite <- Hc1.
    apply class_at_kept; [exact Hold|].
    intros i Hi. destruct Hpop1 as (_ & _ & Hlive1 & _).
    destruct (Hlive1 i) as (e & He0 & _); [|by exists e].
    rewrite He1. apply elem_of_app. by right.
Qed.

(** [initialize_ecosystem], when it returns in a world whose grid and live
    list agreed, has appended 33 entities to the live list: 3 Malheureux, 5
    Pauvre, 10 Lumiere, 8 Obscurite and 7 Demi, in that order.  The grid and
    the live list still agree: every one of them is held by the cell of its
    position and no two are on the same cell.  So the world has at least as
    many cells as it now has live entities; in particular a fresh world of
    fewer than 33 cells is one in which [initialize_ecosystem] does not
    return. *)
Theorem initialize_ecosystem_population (s s' : St) :
  populated s ->
  initialize_ecosystem s = Some (Done tt s') ->
  populated s' /\ grid_consistent s' /\
  (exists new,
     entities s' = entities s ++ new /\
     class_at s' <$> new
     = repeat (Some (AnimalC Malheureux)) 3 ++ repeat (Some (AnimalC Pauvre)) 5 ++
       repeat (Some (PlantC Lumiere)) 10 ++ repeat (Some (PlantC Obscurite)) 8 ++
       repeat (Some (PlantC Demi)) 7) /\
  length (entities s') = (length (entities s) + 33)%nat /\
  Z.of_nat (length (entities s)) + 33 <= height s * width s.
Proof.
  intros Hpop H. unfold initialize_ecosystem in H.
  destruct (spawn_population_populated _ s s' Hpop H)
    as (Hpop' & Hw & Hh & new & He & Hc & _).
  split; [exact Hpop'|]. split; [by apply populated_consistent|].
  assert (Hlen : length (entities s') = (length (entities s) + 33)%nat).
  { rewrite He, length_app. f_equal.
    rewrite <- (length_fmap (class_at s') new), Hc. reflexivity. }
  split; [|split; [exact Hlen|]].
  - exists new. split; [exact He|]. rewrite Hc. reflexivity.
  - pose proof (populated_fits s' Hpop') as Hfit. rewrite Hlen, Hw, Hh in Hfit.
    destruct (decide (0 <= height s)) as [Hh0|Hh0];
      [|rewrite (Z2Nat.nonpos (height s)) in Hfit by lia; simpl in Hfit; lia].
    destruct (decide (0 <= width s)) as [Hw0|Hw0];
      [|rewrite (Z2Nat.nonpos (width s)) in Hfit by lia; lia].
    nia.
Qed.

Lemma initialize_ecosystem_population_witness :
  exists s',
    initialize_ecosystem main_world = Some (Done tt s') /\
    length (entities s') = 33%nat /\ grid_consistent s'.
Proof.
  assert (H : initialize_ecosystem main_world
              = Some (Done tt (spawned (initialize_ecosystem main_world) main_world)))
    by (vm_compute; reflexivity).
  destruct (initialize_ecosystem_population main_world _
              (World_populated 20 15 40 _ ltac:(lia) ltac:(lia)) H)
    as (_ & Hc & _ & Hl & _).
  eexists. split; [exact H|]. split; [exact Hl | exact Hc].
Defined.

(** ** Neighbours in a world where grid and live list agree *)

Lemma scenario_populated : populated scenario.
Proof.
  destruct scenario_spawn as (s1 & H1 & H2).
  destruct (initial_spawn_populated _ _ _ _
              (World_populated 5 1 40 scenario_rng ltac:(lia) ltac:(lia)) H1) as (Hp1 & _).
  destruct (initial_spawn_populated _ _ _ _ Hp1 H2) as (Hp & _).
  exact Hp.
Qed.

(** In a world where the grid and the live list agree, an entity is never
    among the objects [get_nearby_objects] returns for its own position,
    whatever the radius, and every object returned is a live entity: the
    tests [entity is not self] of the callers never fail there. *)
Theorem nearby_excludes_self (s : St) (i : oid) (e : Entity) (r : Z) :
  populated s ->
  i ∈ entities s ->
  heap s !! i = Some e ->
  exists l,
    get_nearby_objects (position e) r s = Done l s /\
    (i ∉ l) /\
    forall o, o ∈ l -> o ∈ entities s /\ o <> i.
Proof.
  intros (Hwf & Hnd & Hlive & Hcells) Hi He.
  destruct (position e) as [x y] eqn:Hpos.
  exists (seen s x y (offsets r)).
  split; [by apply get_nearby_objects_seen|].
  assert (Hall : forall o, o ∈ seen s x y (offsets r) -> o ∈ entities s /\ o <> i).
  { intros o Ho. apply seen_spec in Ho as (dx & dy & _ & _ & Hnz & Hv & Hc).
    destruct (Hcells _ _ o Hv Hc) as (Hin & eo & Heo & Hpo).
    split; [exact Hin|]. intros ->. rewrite He in Heo. inversion Heo; subst eo.
    rewrite Hpos in Hpo. inversion Hpo. lia. }
  split; [|exact Hall].
  intros Hin. destruct (Hall i Hin) as [_ Hne]. by apply Hne.
Qed.

Lemma nearby_excludes_self_witness :
  exists l, get_nearby_objects (0, 2) 2 scenario = Done l scenario /\ 1%nat ∉ l.
Proof.
  destruct (nearby_excludes_self scenario 1%nat
              (EAnimal (mkAnimal Pauvre (0, 2) 50 100 true false 1%nat
                                 false false false false)) 2 scenario_populated)
    as (l & Hl & Hn & _).
  - change (entities scenario) with [0; 1; 2]%nat.
    apply elem_of_cons. right. apply elem_of_cons. by left.
  - vm_compute. reflexivity.
  - exists l. split; [exact Hl | exact Hn].
Defined.

(** ** A plant, update after update *)

Lemma plant_updates_wither ds :
  forall s self p,
    heap s !! self = Some (EPlant p) ->
    exists p',
      for_each ds (fun d => plant_update_state self d) s
      = Done tt (touch s self (EPlant p')) /\
      failed_growth_ticks p' = failed_growth_ticks p + Z.of_nat (length ds) /\
      p_has_is_aggressive p'
      = p_has_is_aggressive p
        || ((0 <? Z.of_nat (length ds))
            && (4 <=? failed_growth_ticks p + Z.of_nat (length ds))) /\
      p_position p' = p_position p /\ p_cls p' = p_cls p.
Proof.
  induction ds as [|d ds IH]; intros s self p H.
  - exists p. simpl. rewrite (touch_id _ _ _ H). split; [reflexivity|].
    split; [lia|]. split; [by rewrite orb_false_r|]. by split.
  - cbn [for_each]. unfold bind. rewrite (plant_update_state_withers s self p d H).
    destruct (IH (touch s self (EPlant (withered p))) self (withered p)
                 (touch_lookup _ _ _)) as (p' & Hrun & Hf & Ha & Hp & Hc).
    destruct (withered_fields p) as (Hf1 & Ha1 & _ & Hp1 & Hc1).
    exists p'. split; [rewrite Hrun, touch_touch; reflexivity|].
    rewrite Hf1 in Hf, Ha. rewrite Ha1 in Ha.
    split; [rewrite Hf; simpl length; lia|].
    split; [|split; congruence].
    rewrite Ha. simpl length.
    destruct (p_has_is_aggressive p); [reflexivity|]. cbn [orb].
    destruct (3 <=? failed_growth_ticks p) eqn:E1;
      destruct (0 <? Z.of_nat (length ds)) eqn:E2;
      destruct (4 <=? failed_growth_ticks p + 1 + Z.of_nat (length ds)) eqn:E3;
      destruct (0 <? Z.of_nat (S (length ds))) eqn:E4;
      destruct (4 <=? failed_growth_ticks p + Z.of_nat (S (length ds))) eqn:E5;
      try reflexivity; exfalso;
      rewrite ?Z.leb_le, ?Z.leb_gt, ?Z.ltb_lt, ?Z.ltb_ge in *; lia.
Qed.

(** Updates of a plant only count.  After any number of [update_state] in
    a row, at whatever phases, a plant that started with no failed tick and
    no mark has as many failed ticks as it had updates, and it carries the
    mark of the self-modification exactly from its fourth update on; its
    position and its class are as they were, and so are the grid, the live
    list, every other object and the oracle. *)
Theorem plant_marked_from_fourth_update
  (s : St) (self : oid) (p : Plant) (ds : list string) :
  heap s !! self = Some (EPlant p) ->
  failed_growth_ticks p = 0 ->
  p_has_is_aggressive p = false ->
  exists p',
    for_each ds (fun d => plant_update_state self d) s
    = Done tt (touch s self (EPlant p')) /\
    failed_growth_ticks p' = Z.of_nat (length ds) /\
    p_has_is_aggressive p' = (4 <=? Z.of_nat (length ds)) /\
    p_position p' = p_position p /\ p_cls p' = p_cls p.
Proof.
  intros H Hf Ha.
  destruct (plant_updates_wither ds s self p H) as (p' & Hrun & Hf' & Ha' & Hp & Hc).
  exists p'. split; [exact Hrun|]. rewrite Hf in Hf', Ha'. rewrite Ha in Ha'.
  split; [lia|]. split; [|by split].
  rewrite Ha'. cbn [orb]. rewrite Z.add_0_l.
  destruct (0 <? Z.of_nat (length ds)) eqn:E; [reflexivity|].
  apply Z.ltb_ge in E. symmetry. apply Z.leb_gt. lia.
Qed.

Lemma plant_marked_from_fourth_update_witness :
  exists p',
    for_each ["morning"; "day"; "evening"; "night"]
             (fun d => plant_update_state 0%nat d) lone_plant
    = Done tt (touch lone_plant 0%nat (EPlant p')) /\
    p_has_is_aggressive p' = true.
Proof.
  destruct (plant_marked_from_fourth_update lone_plant 0%nat
              (mkPlant Lumiere (1, 1) ["day"] [PlantC Obscurite; PlantC Demi] 0 false false)
              ["morning"; "day"; "evening"; "night"])
    as (p' & Hrun & _ & Ha & _).
  - vm_compute. reflexivity.
  - reflexivity.
  - reflexivity.
  - exists p'. split; [exact Hrun | exact Ha].
Defined.

(** ** The groups of the initial population *)

Lemma initial_spawn_one_animal c s s' :
  initial_spawn_one (AnimalC c) s = Some (Done tt s') ->
  exists pos,
    entities s' = entities s ++ [fresh (dom (heap s))] /\
    heap s' = <[fresh (dom (heap s)) :=
                  EAnimal (mkAnimal c pos (match c with Malheureux => 100 | Pauvre => 50 end)
                                    100 true false (fresh (dom (glists s)))
                                    false false false false)]> (heap s) /\
    glists s' = <[fresh (dom (glists s)) := [fresh (dom (heap s))]]> (glists s).
Proof.
  unfold initial_spawn_one.
  destruct (height s <? 1); [discriminate|].
  destruct (width s <? 1); [unfold bind; destruct (next_int s); discriminate|].
  destruct (spawn_search (height s) (width s) (matrix s) (ints (rng s)))
    as [x y rest|e rest|]; [|discriminate|discriminate].
  unfold bind. cbn [new_entity]. unfold new_animal, alloc.
  cbn [heap glists set_rng set_heap].
  match goal with |- context [matrix_write x y ?v ?t] =>
    destruct (matrix_write_set x y v t) as (m & Hst & _);
    destruct (matrix_write x y v t) as [[] t1|] eqn:Hw; [|discriminate]
  end.
  simpl in Hst. subst t1. unfold modify. intros H. inversion H; subst s'.
  exists (x, y). by repeat split.
Qed.

(** Every animal of the initial population starts alone in a group of its
    own.  When [initial_spawn] of a class of animals returns, each of the
    [count] animals it appended to the live list is a new object of that
    class, with the food 100, the speed of its class, active, not hungry and
    without marks, and its group is a new list object whose only member is
    the animal itself: no two animals share a group list. *)
Theorem initial_spawn_singleton_groups (s s' : St) (c : AnimalClass) (count : nat) :
  initial_spawn (AnimalC c) count s = Some (Done tt s') ->
  exists new,
    entities s' = entities s ++ new /\ length new = count /\
    forall i, i ∈ new ->
      heap s !! i = None /\
      exists a,
        heap s' !! i = Some (EAnimal a) /\
        a_cls a = c /\ food a = 100 /\
        speed a = (match c with Malheureux => 100 | Pauvre => 50 end) /\
        is_active a = true /\ is_hungry a = false /\
        has_is_predatory a = false /\ has_is_aggressive a = false /\
        glists s !! group a = None /\
        glists s' !! group a = Some [i].
Proof.
  revert s. induction count as [|n IH]; intros s; cbn [initial_spawn].
  - intros H. inversion H; subst s'. exists []. rewrite app_nil_r.
    split; [reflexivity|]. split; [reflexivity|].
    intros i Hi. by apply elem_of_nil in Hi.
  - destruct (initial_spawn_one (AnimalC c) s) as [[[] s1|e s1]|] eqn:E; try discriminate.
    destruct (initial_spawn_one_animal c s s1 E) as (pos & He1 & Hh1 & Hg1).
    set (i1 := fresh (dom (heap s))) in *. set (g1 := fresh (dom (glists s))) in *.
    assert (Hi1 : heap s !! i1 = None) by apply fresh_unused.
    assert (Hgn1 : glists s !! g1 = None) by (apply not_elem_of_dom, is_fresh).
    intros H. destruct (IH s1 H) as (new & He & Hlen & Hnew).
    exists (i1 :: new). split; [rewrite He, He1, <- app_assoc; reflexivity|].
    split; [simpl; by rewrite Hlen|].
    intros i Hi. apply elem_of_cons in Hi as [->|Hi].
    + split; [exact Hi1|].
      assert (Hkeep : forall t, initial_spawn (AnimalC c) n t = Some (Done tt s') ->
                forall j e0 g l, heap t !! j = Some e0 -> glists t !! g = Some l ->
                                 heap s' !! j = Some e0 /\ glists s' !! g = Some l).
      { clear. induction n as [|n IHn]; intros t; cbn [initial_spawn].
        - intros H. inversion H; subst s'. auto.
        - destruct (initial_spawn_one (AnimalC c) t) as [[[] t1|e t1]|] eqn:E;
            try discriminate.
          destruct (initial_spawn_one_animal c t t1 E) as (pos & _ & Hh & Hg).
          intros H j e0 g l Hj Hgl. apply (IHn t1 H).
          + rewrite Hh, lookup_insert_ne; [exact Hj|].
            intros Heq. rewrite <- Heq, fresh_unused in Hj. discriminate.
          + rewrite Hg, lookup_insert_ne; [exact Hgl|].
            intros Heq. subst g.
            assert (Hn : glists t !! fresh (dom (glists t)) = None)
              by (apply not_elem_of_dom, is_fresh).
            congruence. }
      match type of Hh1 with _ = <[_ := EAnimal ?a1]> _ =>
        assert (Hl1 : heap s1 !! i1 = Some (EAnimal a1))
          by (rewrite Hh1; apply lookup_insert_eq);
        assert (Hgl1 : glists s1 !! g1 = Some [i1])
          by (rewrite Hg1; apply lookup_insert_eq);
        destruct (Hkeep s1 H i1 (EAnimal a1) g1 [i1] Hl1 Hgl1) as [Hh' Hg'];
        exists a1
      end.
      split; [exact Hh'|]. cbn. by repeat split.
    + destruct (Hnew i Hi) as (Hnone & a & Ha & Hrest).
      split.
      { rewrite Hh1 in Hnone. apply lookup_insert_None in Hnone. tauto. }
      exists a. split; [exact Ha|].
      destruct Hrest as (? & ? & ? & ? & ? & ? & ? & Hgn & Hgs).
      repeat (split; [assumption|]). split; [|exact Hgs].
      rewrite Hg1 in Hgn. apply lookup_insert_None in Hgn. tauto.
Qed.

Lemma initial_spawn_singleton_groups_witness :
  exists new,
    entities scenario = [0%nat] ++ new /\ length new = 2%nat.
Proof.
  destruct scenario_spawn as (s1 & H1 & H2).
  destruct (initial_spawn_singleton_groups s1 scenario Pauvre 2 H2)
    as (new & He & Hl & _).
  exists new. split; [|exact Hl].
  destruct (initial_spawn_singleton_groups _ s1 Malheureux 1 H1) as (new1 & He1 & Hl1 & _).
  rewrite He, He1. f_equal.
  destruct new1 as [|i [|j new1]]; try discriminate.
  change (entities (World 5 1 40 scenario_rng)) with (@nil oid) in He1.
  assert (Hs : entities scenario = [0; 1; 2]%nat) by reflexivity.
  rewrite He, He1 in Hs. simpl in Hs. inversion Hs. reflexivity.
Defined.

(** ** gui.py: the map and the grid *)

(** The point of the canvas where a cell is drawn maps back to the cell:
    for a cell size of 1 or more, [canvas_to_world_coords] of
    [world_to_canvas_coords] of a cell is that cell, whatever the cell,
    inside the grid or not. *)
Theorem canvas_round_trip (cell_size world_x world_y : Z) :
  1 <= cell_size ->
  let '(canvas_x, canvas_y) := world_to_canvas_coords cell_size world_x world_y in
  canvas_to_world_coords cell_size canvas_x canvas_y = Some (world_x, world_y).
Proof.
  intros Hc. unfold world_to_canvas_coords, canvas_to_world_coords. cbv zeta.
  destruct (cell_size =? 0) eqn:E; [apply Z.eqb_eq in E; lia|].
  assert (Hhalf : 0 <= cell_size / 2 < cell_size).
  { split; [apply Z.div_pos; lia | apply Z.div_lt_upper_bound; lia]. }
  f_equal. f_equal.
  - replace (snd canvas_size - (snd canvas_size - (world_x * cell_size + cell_size / 2)))
      with (cell_size / 2 + world_x * cell_size) by lia.
    rewrite Z.div_add by lia. rewrite (Z.div_small (cell_size / 2)) by lia. lia.
  - rewrite (Z.add_comm (world_y * cell_size)).
    rewrite Z.div_add by lia. rewrite (Z.div_small (cell_size / 2)) by lia. lia.
Qed.

Lemma canvas_round_trip_witness :
  canvas_to_world_coords 26 (fst (world_to_canvas_coords 26 3 7))
                            (snd (world_to_canvas_coords 26 3 7)) = Some (3, 7).
Proof. apply (canvas_round_trip 26 3 7). lia. Defined.

(** ** Printing the grid *)

Lemma symbol_None c : symbol c = None <-> c = PlantC PlantBase.
Proof. destruct c as [[]|[]]; simpl; split; intros H; congruence. Qed.

Lemma row_symbols_cases s row :
  (forall o, Some o ∈ row -> is_Some (heap s !! o)) ->
  ((forall o e, Some o ∈ row -> heap s !! o = Some e -> class_of e <> PlantC PlantBase) /\
   exists syms, row_symbols s row = Shows syms) \/
  ((exists o e, Some o ∈ row /\ heap s !! o = Some e /\ class_of e = PlantC PlantBase) /\
   row_symbols s row = KeyError (PlantC PlantBase)).
Proof.
  induction row as [|c row IH]; intros Hall.
  - left. split; [|by exists []]. intros o e Ho. by apply elem_of_nil in Ho.
  - assert (Hrest : forall o, Some o ∈ row -> is_Some (heap s !! o)).
    { intros o Ho. apply Hall. by right. }
    specialize (IH Hrest). cbn [row_symbols].
    destruct c as [o|].
    + destruct (Hall o ltac:(by left)) as [e He]. rewrite He.
      destruct (symbol (class_of e)) as [sym|] eqn:Hs.
      * destruct IH as [[Hgood [syms Hsyms]]|[(o' & e' & Ho' & He' & Hc') Hbad]].
        -- left. split; [|rewrite Hsyms; by eexists].
           intros o1 e1 Ho1 He1. apply elem_of_cons in Ho1 as [Heq|Ho1].
           ++ inversion Heq; subst o1. rewrite He in He1. inversion He1; subst e1.
              intros Hc. apply symbol_None in Hc. congruence.
           ++ by apply (Hgood o1 e1).
        -- right. split; [exists o', e'; split; [by right | by split]|].
           by rewrite Hbad.
      * apply symbol_None in Hs. right. split; [|by rewrite Hs].
        exists o, e. split; [by left | by split].
    + destruct IH as [[Hgood [syms Hsyms]]|[(o' & e' & Ho' & He' & Hc') Hbad]].
      * left. split; [|rewrite Hsyms; by eexists].
        intros o1 e1 Ho1 He1. apply elem_of_cons in Ho1 as [Heq|Ho1]; [discriminate|].
        by apply (Hgood o1 e1).
      * right. split; [exists o', e'; split; [by right | by split]|].
        by rewrite Hbad.
Qed.

Lemma print_rows_cases s rows :
  (forall row o, row ∈ rows -> Some o ∈ row -> is_Some (heap s !! o)) ->
  ((forall row o e, row ∈ rows -> Some o ∈ row -> heap s !! o = Some e ->
                    class_of e <> PlantC PlantBase) /\
   exists lines, print_rows s rows = Shows lines /\ length lines = length rows) \/
  ((exists row o e, row ∈ rows /\ Some o ∈ row /\ heap s !! o = Some e /\
                    class_of e = PlantC PlantBase) /\
   print_rows s rows = KeyError (PlantC PlantBase)).
Proof.
  induction rows as [|row rows IH]; intros Hall.
  - left. split; [|by exists []]. intros row o e Hr. by apply elem_of_nil in Hr.
  - assert (Hrest : forall row' o, row' ∈ rows -> Some o ∈ row' -> is_Some (heap s !! o)).
    { intros row' o Hr. apply Hall. by right. }
    specialize (IH Hrest). cbn [print_rows].
    destruct (row_symbols_cases s row (fun o => Hall row o ltac:(by left)))
      as [[Hgood [syms Hsyms]]|[(o' & e' & Ho' & He' & Hc') Hbad]].
    + rewrite Hsyms.
      destruct IH as [[Hgoods (lines & Hlines & Hlen)]|[(r' & o' & e' & Hr' & Ho' & He' & Hc') Hbad]].
      * left. split; [|rewrite Hlines; eexists; split; [reflexivity | simpl; by rewrite Hlen]].
        intros row1 o1 e1 Hr1. apply elem_of_cons in Hr1 as [->|Hr1].
        -- apply Hgood.
        -- by apply Hgoods.
      * right. split; [exists r', o', e'; split; [by right | by repeat split]|].
        by rewrite Hbad.
    + rewrite Hbad. right. split; [|reflexivity].
      exists row, o', e'. split; [by left | by repeat split].
Qed.

(** [print_world_state] raises KeyError exactly when some cell holds an
    instance of the class [Plant] itself, the class of the objects that
    [try_spread] creates: [symbols] has a key for each of the five species
    and none for [Plant].  When no cell holds such an object it prints one
    line per row of the matrix. *)
Theorem print_world_state_key_error (s : St) :
  occupants_allocated s = true ->
  (holds_base_plant s <-> print_world_state s = KeyError (PlantC PlantBase)) /\
  (~ holds_base_plant s <->
   exists lines, print_world_state s = Shows lines /\
                 length lines = length (matrix s)).
Proof.
  intros Halloc.
  assert (Hall : forall row o, row ∈ matrix s -> Some o ∈ row -> is_Some (heap s !! o)).
  { intros row o Hr Ho. unfold occupants_allocated in Halloc.
    rewrite forallb_forall in Halloc. apply list_elem_of_In in Hr.
    specialize (Halloc row Hr). rewrite forallb_forall in Halloc.
    apply list_elem_of_In in Ho. specialize (Halloc _ Ho). unfold allocated in Halloc.
    destruct (heap s !! o) as [e|]; [by exists e | discriminate]. }
  unfold print_world_state, holds_base_plant.
  destruct (print_rows_cases s (matrix s) Hall)
    as [[Hgood (lines & Hlines & Hlen)]|[Hbad Hkey]].
  - split; split.
    + intros (row & o & e & Hr & Ho & He & Hc). exfalso. by apply (Hgood row o e).
    + intros H. rewrite Hlines in H. discriminate.
    + intros _. by exists lines.
    + intros _ (row & o & e & Hr & Ho & He & Hc). by apply (Hgood row o e).
  - split; split.
    + intros _. exact Hkey.
    + intros _. exact Hbad.
    + intros H. contradiction.
    + intros (lines & Hlines & _). rewrite Hkey in Hlines. discriminate.
Qed.

Lemma print_world_state_key_error_witness :
  print_world_state (state_of (spread 0%nat lone_plant)) = KeyError (PlantC PlantBase) /\
  exists lines, print_world_state lone_plant = Shows lines /\ length lines = 3%nat.
Proof.
  split.
  - destruct (print_world_state_key_error (state_of (spread 0%nat lone_plant)))
      as [[_ H] _]; [vm_compute; reflexivity|].
    vm_compute. reflexivity.
  - destruct (print_world_state_key_error lone_plant) as [_ [H _]];
      [vm_compute; reflexivity|].
    destruct H as (lines & Hl & Hlen).
    + intros (row & o & e & Hr & Ho & He & Hc).
      assert (Hk : print_world_state lone_plant <> KeyError (PlantC PlantBase))
        by (vm_compute; discriminate).
      apply Hk.
      destruct (print_world_state_key_error lone_plant) as [[Hf _] _];
        [vm_compute; reflexivity|].
      apply Hf. by exists row, o, e.
    + exists lines. split; [exact Hl|]. rewrite Hlen. reflexivity.
Defined.

(** ** gui.py: saving and restoring *)

Lemma restored_entity_data e : restored (entity_data e) = entity_data e.
Proof. destruct e as [a|p]; reflexivity. Qed.

Lemma map_each_load (l : list oid) s ds :
  all_data s l = Some ds -> map_each l save_entity s = Done ds s.
Proof.
  revert ds. induction l as [|i l IH]; intros ds; cbn [all_data map_each].
  - intros H. inversion H. reflexivity.
  - unfold data_at. destruct (heap s !! i) as [e|] eqn:He; [|discriminate].
    cbn [fmap option_fmap option_map].
    destruct (all_data s l) as [ds'|] eqn:Hm; [|discriminate].
    intros H. inversion H; subst ds.
    assert (Hs : save_entity i s = Done (entity_data e) s).
    { unfold save_entity, bind, load. by rewrite He. }
    rewrite (bind_Done _ _ _ _ _ Hs), (bind_Done _ _ _ _ _ (IH ds' eq_refl)).
    reflexivity.
Qed.

Lemma collect_entities_data s ds :
  all_data s (entities s) = Some ds -> collect_entities s = Done ds s.
Proof. intros H. unfold collect_entities, bind, gets. by apply map_each_load. Qed.

(** The state [restore_entity] leaves. *)
Lemma restore_entity_state d s :
  wf_matrix s ->
  exists e g s',
    restore_entity d s = Done tt s' /\
    heap s' = <[fresh (dom (heap s)) := e]> (heap s) /\
    glists s' = g /\
    (forall k l, glists s !! k = Some l -> g !! k = Some l) /\
    alone s' (fresh (dom (heap s))) e /\
    entities s' = entities s ++ [fresh (dom (heap s))] /\
    entity_data e = restored d /\ pristine e = true /\
    width s' = width s /\ height s' = height s /\ rng s' = rng s /\ time s' = time s /\
    wf_matrix s' /\
    (is_valid_position s (fst (ed_position d)) (snd (ed_position d)) = true ->
     cell s' (fst (ed_position d)) (snd (ed_position d)) = Some (Some (fresh (dom (heap s)))) /\
     forall x y, is_valid_position s x y = true -> (x, y) <> ed_position d ->
                 cell s' x y = cell s x y) /\
    (is_valid_position s (fst (ed_position d)) (snd (ed_position d)) = false ->
     matrix s' = matrix s).
Proof.
  intros Hwf. set (i := fresh (dom (heap s))).
  assert (Hfin : forall e g,
    position e = ed_position d ->
    let s1 := set_entities (entities s ++ [i])
                (set_glists g (set_heap (<[i := e]> (heap s)) s)) in
    exists s',
      (e0 <- load i ;;
       let '(x, y) := position e0 in
       inside <- gets (fun s => (0 <=? x) && (x <? height s) && (0 <=? y) && (y <? width s)) ;;
       if inside then matrix_write x y (Some i) else ret tt) s1 = Done tt s' /\
      heap s' = <[i := e]> (heap s) /\ glists s' = g /\
      entities s' = entities s ++ [i] /\
      width s' = width s /\ height s' = height s /\ rng s' = rng s /\ time s' = time s /\
      wf_matrix s' /\
      (is_valid_position s (fst (ed_position d)) (snd (ed_position d)) = true ->
       cell s' (fst (ed_position d)) (snd (ed_position d)) = Some (Some i) /\
       forall x y, is_valid_position s x y = true -> (x, y) <> ed_position d ->
                   cell s' x y = cell s x y) /\
      (is_valid_position s (fst (ed_position d)) (snd (ed_position d)) = false ->
       matrix s' = matrix s)).
  { intros e g Hpos s1. unfold bind at 1. unfold load.
    assert (Hl : heap s1 !! i = Some e) by apply lookup_insert_eq.
    rewrite Hl, Hpos. destruct (ed_position d) as [x y]. cbn [fst snd].
    unfold bind, gets.
    change ((0 <=? x) && (x <? height s1) && (0 <=? y) && (y <? width s1))
      with (is_valid_position s x y).
    destruct (is_valid_position s x y) eqn:Hv.
    - assert (Hwf1 : wf_matrix s1) by exact Hwf.
      assert (Hv1 : is_valid_position s1 x y = true) by exact Hv.
      destruct (matrix_write_valid x y (Some i) s1 Hwf1 Hv1) as (m' & Hw & Hwf' & Hc & Ho).
      rewrite Hw. eexists. split; [reflexivity|].
      do 7 (split; [reflexivity|]). split; [exact Hwf'|]. split; [|discriminate].
      intros _. split; [exact Hc|]. intros x' y' Hv' Hne. exact (Ho x' y' Hv' Hne).
    - exists s1. split; [reflexivity|].
      do 7 (split; [reflexivity|]). split; [exact Hwf|]. split; [discriminate|].
      reflexivity. }
  unfold restore_entity.
  destruct (ed_class d) as [c|c] eqn:Hcls.
  - set (g1 := fresh (dom (glists s))).
    set (a0 := mkAnimal c (ed_position d) (match c with Malheureux => 100 | Pauvre => 50 end)
                        100 true false g1 false false false false).
    set (saved := match ed_animal d with
                  | Some ad => ad
                  | None => mkAnimalData 100 true false 50
                  end).
    set (a1 := set_speed (ad_speed saved)
                 (set_is_hungry (ad_is_hungry saved)
                    (set_is_active (ad_is_active saved) (set_food (ad_food saved) a0)))).
    destruct (Hfin (EAnimal a1) (<[g1 := [i]]> (glists s)) eq_refl)
      as (s' & Hrun & Hh & Hg & He & Hw & Hht & Hr & Ht & Hwf' & Hin & Hout).
    exists (EAnimal a1), (<[g1 := [i]]> (glists s)), s'.
    split.
    { set (sA := set_glists (<[g1 := [i]]> (glists s))
                   (set_heap (<[i := EAnimal a0]> (heap s)) s)).
      assert (H1 : new_entity (AnimalC c) (ed_position d) s = Done i sA) by reflexivity.
      assert (HlA : heap sA !! i = Some (EAnimal a0)) by apply lookup_insert_eq.
      rewrite (bind_Done _ _ _ _ _ H1).
      rewrite (bind_Done _ _ _ _ _ (update_animal_touch sA i a0 _ HlA)).
      fold saved. fold a1.
      assert (H3 : modify (fun t => set_entities (entities t ++ [i]) t)
                          (touch sA i (EAnimal a1))
                   = Done tt (set_entities (entities s ++ [i])
                                (set_glists (<[g1 := [i]]> (glists s))
                                   (set_heap (<[i := EAnimal a1]> (heap s)) s)))).
      { unfold modify. f_equal. apply St_eq; try reflexivity.
        cbn. apply insert_insert_eq. }
      rewrite (bind_Done _ _ _ _ _ H3). exact Hrun. }
    split; [exact Hh|]. split; [exact Hg|]. split.
    { intros k l Hk. rewrite lookup_insert_ne; [exact Hk|].
      intros <-. assert (Hn : glists s !! g1 = None) by (apply not_elem_of_dom, is_fresh).
      congruence. }
    split; [cbn [alone]; rewrite Hg; apply lookup_insert_eq|].
    split; [exact He|].
    split.
    { unfold restored. rewrite Hcls. subst a1 saved.
      destruct (ed_animal d) as [[]|]; reflexivity. }
    split; [reflexivity|].
    split; [exact Hw|]. split; [exact Hht|]. split; [exact Hr|]. split; [exact Ht|].
    split; [exact Hwf'|]. split; [exact Hin | exact Hout].
  - set (e0 := EPlant (mkPlant c (ed_position d)
                               match c with
                               | Lumiere => ["day"]
                               | Demi => ["morning"; "evening"]
                               | Obscurite => ["night"]
                               | PlantBase => []
                               end
                               match c with
                               | Lumiere => [PlantC Obscurite; PlantC Demi]
                               | Demi => [PlantC Obscurite; PlantC Lumiere]
                               | Obscurite => [PlantC Lumiere; PlantC Demi]
                               | PlantBase => []
                               end 0 false false)).
    destruct (Hfin e0 (glists s) eq_refl)
      as (s' & Hrun & Hh & Hg & He & Hw & Hht & Hr & Ht & Hwf' & Hin & Hout).
    exists e0, (glists s), s'.
    split.
    { set (sA := set_heap (<[i := e0]> (heap s)) s).
      assert (H1 : new_entity (PlantC c) (ed_position d) s = Done i sA) by reflexivity.
      rewrite (bind_Done _ _ _ _ _ H1).
      assert (H2 : ret tt sA = Done tt sA) by reflexivity.
      rewrite (bind_Done _ _ _ _ _ H2).
      assert (H3 : modify (fun t => set_entities (entities t ++ [i]) t) sA
                   = Done tt (set_entities (entities s ++ [i])
                                (set_glists (glists s)
                                   (set_heap (<[i := e0]> (heap s)) s)))).
      { reflexivity. }
      rewrite (bind_Done _ _ _ _ _ H3). exact Hrun. }
    split; [exact Hh|]. split; [exact Hg|]. split; [auto|].
    split; [exact I|]. split; [exact He|].
    split; [unfold restored; rewrite Hcls; reflexivity|].
    split; [reflexivity|].
    split; [exact Hw|]. split; [exact Hht|]. split; [exact Hr|]. split; [exact Ht|].
    split; [exact Hwf'|]. split; [exact Hin | exact Hout].
Qed.

Lemma all_data_ext s s' (l : list oid) :
  (forall i, i ∈ l -> heap s' !! i = heap s !! i) -> all_data s' l = all_data s l.
Proof.
  induction l as [|i l IH]; intros H; cbn [all_data]; [reflexivity|].
  unfold data_at. rewrite (H i ltac:(by left)), IH; [reflexivity|].
  intros j Hj. apply H. by right.
Qed.

Lemma all_data_app s (l k : list oid) dl dk :
  all_data s l = Some dl -> all_data s k = Some dk ->
  all_data s (l ++ k) = Some (dl ++ dk).
Proof.
  revert dl. induction l as [|i l IH]; intros dl; cbn [all_data app].
  - intros H. inversion H. by intros ->.
  - destruct (data_at s i) as [d|]; [|discriminate].
    destruct (all_data s l) as [dl'|]; [|discriminate].
    intros H Hk. inversion H; subst dl. by rewrite (IH dl' eq_refl Hk).
Qed.

Lemma all_data_length s (l : list oid) dl :
  all_data s l = Some dl -> length dl = length l.
Proof.
  revert dl. induction l as [|i l IH]; intros dl; cbn [all_data].
  - intros H. by inversion H.
  - destruct (data_at s i) as [d|]; [|discriminate].
    destruct (all_data s l) as [dl'|]; [|discriminate].
    intros H. inversion H; subst dl. simpl. by rewrite (IH dl' eq_refl).
Qed.

(** The loop of [restore_state]. *)
Lemma restore_loop ds :
  forall s old,
    wf_matrix s ->
    (forall i, i ∈ entities s ->
       exists e, heap s !! i = Some e /\ pristine e = true /\ alone s i e) ->
    all_data s (entities s) = Some old ->
    exists s',
      for_each ds restore_entity s = Done tt s' /\
      wf_matrix s' /\
      (forall i, i ∈ entities s' ->
         exists e, heap s' !! i = Some e /\ pristine e = true /\ alone s' i e) /\
      all_data s' (entities s') = Some (old ++ (restored <$> ds)) /\
      width s' = width s /\ height s' = height s /\ time s' = time s /\ rng s' = rng s.
Proof.
  induction ds as [|d ds IH]; intros s old Hwf Hlive Hdata.
  - exists s. split; [reflexivity|]. split; [exact Hwf|]. split; [exact Hlive|].
    split; [by rewrite app_nil_r|]. by repeat split.
  - destruct (restore_entity_state d s Hwf)
      as (e & g & s1 & Hrun & Hh & Hg & Hkeep & Halone & He & Hed & Hpr
          & Hw & Hht & Hr & Ht & Hwf1 & _ & _).
    set (i := fresh (dom (heap s))) in *.
    assert (Hi : heap s !! i = None) by apply fresh_unused.
    assert (Hold : forall j, j ∈ entities s -> heap s1 !! j = heap s !! j).
    { intros j Hj. rewrite Hh. apply lookup_insert_ne. intros <-.
      destruct (Hlive i Hj) as (e0 & He0 & _). congruence. }
    assert (Hlive1 : forall j, j ∈ entities s1 ->
              exists e1, heap s1 !! j = Some e1 /\ pristine e1 = true /\ alone s1 j e1).
    { intros j Hj. rewrite He in Hj. apply elem_of_app in Hj as [Hj|Hj].
      - destruct (Hlive j Hj) as (e0 & He0 & Hp0 & Ha0).
        exists e0. split; [by rewrite (Hold j Hj)|]. split; [exact Hp0|].
        destruct e0 as [a|p]; [|exact I]. cbn [alone] in *. rewrite Hg.
        by apply Hkeep.
      - apply list_elem_of_singleton in Hj. subst j.
        exists e. split; [rewrite Hh; apply lookup_insert_eq|]. by split. }
    assert (Hdata1 : all_data s1 (entities s1) = Some ((old ++ [restored d]))).
    { rewrite He. apply all_data_app.
      - rewrite (all_data_ext s s1 _ Hold). exact Hdata.
      - cbn [all_data]. unfold data_at. rewrite Hh, lookup_insert_eq. simpl.
        by rewrite Hed. }
    destruct (IH s1 _ Hwf1 Hlive1 Hdata1)
      as (s' & Hrun' & Hwf' & Hlive' & Hdata' & Hw' & Hht' & Ht' & Hr').
    exists s'. split.
    { cbn [for_each]. rewrite (bind_Done _ _ _ _ _ Hrun). exact Hrun'. }
    split; [exact Hwf'|]. split; [exact Hlive'|].
    split; [rewrite Hdata', <- app_assoc; reflexivity|].
    repeat split; congruence.
Qed.

Lemma populated_add s s' i e x y :
  populated s ->
  heap s !! i = None ->
  heap s' = <[i := e]> (heap s) ->
  entities s' = entities s ++ [i] ->
  position e = (x, y) ->
  width s' = width s -> height s' = height s ->
  wf_matrix s' ->
  is_valid_position s x y = true ->
  cell s x y = Some None ->
  cell s' x y = Some (Some i) ->
  (forall x' y', is_valid_position s x' y' = true -> (x', y') <> (x, y) ->
                 cell s' x' y' = cell s x' y') ->
  populated s'.
Proof.
  intros (Hwf & Hnd & Hlive & Hcells) Hi Hh He Hpos Hw Hht Hwf' Hv Hfree Hc Ho.
  assert (Hvs : forall a b, is_valid_position s' a b = is_valid_position s a b).
  { intros a b. unfold is_valid_position. by rewrite Hw, Hht. }
  assert (Hdead : i ∉ entities s).
  { intros Hin. destruct (Hlive i Hin) as (e0 & He0 & _). congruence. }
  split; [exact Hwf'|]. split; [|split].
  - rewrite He. apply NoDup_app. split; [exact Hnd|]. split; [|apply NoDup_singleton].
    intros j Hj Hji. apply list_elem_of_singleton in Hji. subst j. contradiction.
  - intros j Hj. rewrite He in Hj. apply elem_of_app in Hj as [Hj|Hj].
    + destruct (Hlive j Hj) as (e0 & He0 & Hv0 & Hc0).
      assert (Hji : j <> i) by congruence.
      exists e0. split; [rewrite Hh; by rewrite lookup_insert_ne|].
      split; [by rewrite Hvs|].
      rewrite Ho; [exact Hc0 | exact Hv0 |].
      intros Heq. inversion Heq as [[Hx Hy]]. rewrite Hx, Hy in Hc0. congruence.
    + apply list_elem_of_singleton in Hj. subst j.
      exists e. split; [rewrite Hh; apply lookup_insert_eq|].
      rewrite Hpos. cbn [fst snd]. split; [by rewrite Hvs | exact Hc].
  - intros x' y' o Hv' Hc'. rewrite Hvs in Hv'.
    destruct (decide ((x', y') = (x, y))) as [Heq|Hne].
    + inversion Heq; subst x' y'. rewrite Hc in Hc'. inversion Hc'; subst o.
      split; [rewrite He; apply elem_of_app; right; by apply list_elem_of_singleton|].
      exists e. split; [rewrite Hh; apply lookup_insert_eq | exact Hpos].
    + rewrite (Ho x' y' Hv' Hne) in Hc'.
      destruct (Hcells x' y' o Hv' Hc') as (Hin & e0 & He0 & Hp0).
      split; [rewrite He; apply elem_of_app; by left|].
      exists e0. split; [|exact Hp0]. rewrite Hh, lookup_insert_ne; [exact He0|].
      intros Hio. subst o. congruence.
Qed.

Lemma restore_loop_populated ds :
  forall s s',
    populated s ->
    NoDup (ed_position <$> ds) ->
    (forall d, d ∈ ds ->
       is_valid_position s (fst (ed_position d)) (snd (ed_position d)) = true) ->
    (forall i, i ∈ entities s -> position_at s i ∉ (ed_position <$> ds)) ->
    for_each ds restore_entity s = Done tt s' ->
    populated s'.
Proof.
  induction ds as [|d ds IH]; intros s s' Hpop Hnd Hval Hfar.
  - intros H. inversion H; subst s'. exact Hpop.
  - pose proof Hpop as (Hwf & _ & Hlive & Hcells).
    destruct (restore_entity_state d s Hwf)
      as (e & g & s1 & Hrun & Hh & _ & _ & _ & He & Hed & _
          & Hw & Hht & _ & _ & Hwf1 & Hin & _).
    set (i := fresh (dom (heap s))) in *.
    assert (Hv : is_valid_position s (fst (ed_position d)) (snd (ed_position d)) = true)
      by (apply Hval; by left).
    destruct (Hin Hv) as [Hc Ho].
    assert (Hpos : position e = ed_position d).
    { apply (f_equal ed_position) in Hed. destruct e; exact Hed. }
    assert (Hfree : cell s (fst (ed_position d)) (snd (ed_position d)) = Some None).
    { destruct (cell_valid s _ _ Hwf Hv) as (row & c & _ & _ & Hcell).
      rewrite Hcell. destruct c as [o|]; [exfalso|reflexivity].
      destruct (Hcells _ _ o Hv Hcell) as (Hlo & eo & Heo & Hpo).
      apply (Hfar o Hlo). unfold position_at. rewrite Heo, Hpo, <- surjective_pairing.
      cbn [fmap list_fmap]. left. }
    assert (Hpop1 : populated s1).
    { destruct (ed_position d) as [x y] eqn:Hxy. cbn [fst snd] in *.
      apply (populated_add s s1 i e x y);
        first [ assumption | apply fresh_unused
              | intros x' y' Hv' Hne; by apply Ho ]. }
    cbn [for_each]. rewrite (bind_Done _ _ _ _ _ Hrun).
    cbn [fmap list_fmap] in Hnd. apply NoDup_cons in Hnd as [Hnew Hnd].
    apply (IH s1 s' Hpop1 Hnd).
    + intros d' Hd'. unfold is_valid_position. rewrite Hw, Hht. apply Hval. by right.
    + intros j Hj. rewrite He in Hj. apply elem_of_app in Hj as [Hj|Hj].
      * assert (Hji : heap s1 !! j = heap s !! j).
        { rewrite Hh. apply lookup_insert_ne. intros <-.
          destruct (Hlive i Hj) as (e0 & He0 & _).
          pose proof (fresh_unused (heap s)) as Hn. fold i in Hn. congruence. }
        unfold position_at. rewrite Hji. intros Hin'.
        apply (Hfar j Hj). unfold position_at. cbn [fmap list_fmap]. by right.
      * apply list_elem_of_singleton in Hj. subst j.
        unfold position_at. rewrite Hh, lookup_insert_eq, Hpos. exact Hnew.
Qed.

Lemma empty_grid_populated s :
  0 <= width s -> 0 <= height s ->
  entities s = [] ->
  matrix s = repeat (repeat None (Z.to_nat (width s))) (Z.to_nat (height s)) ->
  populated s.
Proof.
  intros Hw Hh He Hm.
  assert (Hwf : wf_matrix s).
  { split; rewrite Hm.
    - rewrite repeat_length. lia.
    - apply Forall_forall. intros row Hrow. apply list_elem_of_In, repeat_spec in Hrow.
      subst row. rewrite repeat_length. lia. }
  split; [exact Hwf|]. rewrite He. split; [constructor|]. split.
  - intros i Hi. by apply elem_of_nil in Hi.
  - intros x y o Hv Hc. exfalso.
    destruct (cell_valid _ x y Hwf Hv) as (row & c & Hrow & Hcell & Hc').
    rewrite Hc in Hc'. inversion Hc'; subst c. rewrite Hm in Hrow.
    apply list_elem_of_lookup_2, list_elem_of_In, repeat_spec in Hrow. subst row.
    apply list_elem_of_lookup_2, list_elem_of_In, repeat_spec in Hcell. discriminate.
Qed.

Lemma index_of_cycle t :
  str_in t cycle = true ->
  0 <= index_of t cycle < 4 /\
  nth (Z.to_nat (index_of t cycle mod 4)) cycle "morning" = t.
Proof.
  unfold str_in, cycle. cbn [existsb index_of].
  rewrite (String.eqb_sym t "morning"), (String.eqb_sym t "day"),
    (String.eqb_sym t "evening"), (String.eqb_sym t "night").
  destruct (String.eqb "morning" t) eqn:E1.
  { apply String.eqb_eq in E1. subst t. intros _. split; [lia | reflexivity]. }
  destruct (String.eqb "day" t) eqn:E2.
  { apply String.eqb_eq in E2. subst t. intros _. split; [lia | reflexivity]. }
  destruct (String.eqb "evening" t) eqn:E3.
  { apply String.eqb_eq in E3. subst t. intros _. split; [lia | reflexivity]. }
  destruct (String.eqb "night" t) eqn:E4; [|discriminate].
  apply String.eqb_eq in E4. subst t. intros _. split; [lia | reflexivity].
Qed.

(** What [restore_state] does for a tick of the history. *)
Lemma restore_state_spec g tick sn s :
  0 <= tick ->
  simulation_history g !! Z.to_nat tick = Some sn ->
  0 <= width s -> 0 <= height s ->
  exists s',
    restore_state g tick s
    = Done (mkGui (sn_tick sn) (gui_max_ticks g) (simulation_history g)) s' /\
    all_data s' (entities s') = Some (restored <$> sn_entities sn) /\
    (forall i, i ∈ entities s' ->
       exists e, heap s' !! i = Some e /\ pristine e = true /\ alone s' i e) /\
    wf_matrix s' /\ width s' = width s /\ height s' = height s /\ rng s' = rng s /\
    time s' = (if str_in (sn_time sn) cycle
               then mkTime (sn_time sn) (index_of (sn_time sn) cycle)
               else time s) /\
    (NoDup (ed_position <$> sn_entities sn) ->
     (forall d, d ∈ sn_entities sn ->
        is_valid_position s (fst (ed_position d)) (snd (ed_position d)) = true) ->
     populated s').
Proof.
  intros Htick Hsn Hw Hh.
  set (sC := set_matrix (repeat (repeat None (Z.to_nat (width s))) (Z.to_nat (height s)))
               (set_entities [] s)).
  assert (HpopC : populated sC) by (by apply empty_grid_populated).
  destruct (restore_loop (sn_entities sn) sC [] (proj1 HpopC))
    as (s1 & Hrun & Hwf1 & Hlive1 & Hdata1 & Hw1 & Hh1 & Ht1 & Hr1).
  { intros i Hi. by apply elem_of_nil in Hi. }
  { reflexivity. }
  set (s' := if str_in (sn_time sn) cycle
             then set_time (mkTime (sn_time sn) (index_of (sn_time sn) cycle)) s1
             else s1).
  exists s'.
  assert (Hguard : (tick <? 0) || (Z.of_nat (length (simulation_history g)) <=? tick) = false).
  { apply orb_false_iff. split; [apply Z.ltb_ge; lia|]. apply Z.leb_gt.
    apply lookup_lt_Some in Hsn. lia. }
  split.
  { unfold restore_state. rewrite Hguard, Hsn.
    assert (H1 : modify (set_entities []) s = Done tt (set_entities [] s)) by reflexivity.
    rewrite (bind_Done _ _ _ _ _ H1).
    assert (H2 : modify (fun t => set_matrix (repeat (repeat None (Z.to_nat (width t)))
                                                     (Z.to_nat (height t))) t)
                        (set_entities [] s) = Done tt sC) by reflexivity.
    rewrite (bind_Done _ _ _ _ _ H2), (bind_Done _ _ _ _ _ Hrun).
    subst s'. destruct (str_in (sn_time sn) cycle); reflexivity. }
  assert (Hsame : heap s' = heap s1 /\ glists s' = glists s1 /\ entities s' = entities s1
                  /\ matrix s' = matrix s1 /\ width s' = width s1 /\ height s' = height s1
                  /\ rng s' = rng s1).
  { subst s'. destruct (str_in (sn_time sn) cycle); by repeat split. }
  destruct Hsame as (Hhp & Hgl & Hen & Hmx & Hws & Hhs & Hrs).
  split.
  { rewrite Hen, (all_data_ext s1 s' _ (fun i _ => f_equal (fun h => h !! i) Hhp)).
    exact Hdata1. }
  split.
  { intros i Hi. rewrite Hen in Hi. destruct (Hlive1 i Hi) as (e & He & Hp & Ha).
    exists e. rewrite Hhp. split; [exact He|]. split; [exact Hp|].
    destruct e; [|exact I]. cbn [alone] in *. by rewrite Hgl. }
  assert (Hwf' : wf_matrix s').
  { unfold wf_matrix. rewrite Hmx, Hws, Hhs. exact Hwf1. }
  split; [exact Hwf'|].
  split; [rewrite Hws; exact Hw1|]. split; [rewrite Hhs; exact Hh1|].
  split; [rewrite Hrs; exact Hr1|].
  split.
  { subst s'. destruct (str_in (sn_time sn) cycle); [reflexivity | exact Ht1]. }
  intros Hnd Hval.
  assert (Hpop1 : populated s1).
  { apply (restore_loop_populated (sn_entities sn) sC s1 HpopC Hnd Hval); [|exact Hrun].
    intros i Hi. by apply elem_of_nil in Hi. }
  destruct Hpop1 as (_ & Hnd1 & Hl1 & Hc1).
  split; [exact Hwf'|]. rewrite Hen, Hhp. split; [exact Hnd1|]. split.
  - intros i Hi. destruct (Hl1 i Hi) as (e & He & Hv & Hc).
    exists e. split; [exact He|]. unfold is_valid_position, cell.
    rewrite Hws, Hhs, Hmx. by split.
  - intros x y o Hv Hc. unfold is_valid_position in Hv. rewrite Hws, Hhs in Hv.
    unfold cell in Hc. rewrite Hmx in Hc. exact (Hc1 x y o Hv Hc).
Qed.

Lemma all_data_positions s (l : list oid) dl :
  all_data s l = Some dl -> ed_position <$> dl = position_at s <$> l.
Proof.
  revert dl. induction l as [|i l IH]; intros dl; cbn [all_data].
  - intros H. by inversion H.
  - unfold data_at.
    destruct (heap s !! i) as [e|] eqn:He; [|discriminate].
    cbn [fmap option_fmap option_map].
    destruct (all_data s l) as [dl'|]; [|discriminate].
    intros H. inversion H; subst dl. cbn [fmap list_fmap].
    f_equal; [|by apply IH].
    unfold position_at. rewrite He. by destruct e.
Qed.

Lemma populated_all_data s :
  populated s -> exists dl, all_data s (entities s) = Some dl.
Proof.
  intros (_ & _ & Hlive & _).
  induction (entities s) as [|i l IH]; [by exists []|].
  destruct (Hlive i ltac:(by left)) as (e & He & _).
  destruct IH as [dl Hdl]; [intros j Hj; apply Hlive; by right|].
  exists (entity_data e :: dl). cbn [all_data]. unfold data_at. by rewrite He, Hdl.
Qed.

Lemma populated_positions s :
  populated s ->
  NoDup (position_at s <$> entities s) /\
  forall p, p ∈ (position_at s <$> entities s) ->
            is_valid_position s (fst p) (snd p) = true.
Proof.
  intros (_ & Hnd & Hlive & _). split.
  - apply NoDup_fmap_2_strong; [|exact Hnd].
    intros i j Hi Hj Heq. unfold position_at in Heq.
    destruct (Hlive i Hi) as (ei & Hei & _ & Hci).
    destruct (Hlive j Hj) as (ej & Hej & _ & Hcj).
    rewrite Hei, Hej in Heq. rewrite Heq in Hci. congruence.
  - intros p Hp. apply list_elem_of_fmap in Hp as (i & -> & Hi).
    destruct (Hlive i Hi) as (e & He & Hv & _). unfold position_at. by rewrite He.
Qed.

(** [save_state] appends the state of the world to the history, after
    dropping the oldest state when the history is full. *)
Lemma save_state_spec g s data :
  all_data s (entities s) = Some data ->
  1 <= gui_max_ticks g ->
  exists kept,
    save_state g s
    = Done (mkGui (current_tick g) (gui_max_ticks g)
                  (kept ++ [mkSnapshot (current_tick g) (current_time (time s)) data])) s /\
    (kept = simulation_history g \/ exists sn, simulation_history g = sn :: kept).
Proof.
  intros Hdata Hmax. unfold save_state.
  assert (H1 : gets (fun t => current_time (time t)) s = Done (current_time (time s)) s)
    by reflexivity.
  rewrite (bind_Done _ _ _ _ _ H1), (bind_Done _ _ _ _ _ (collect_entities_data s data Hdata)).
  destruct (gui_max_ticks g <=? Z.of_nat (length (simulation_history g))) eqn:E.
  - destruct (simulation_history g) as [|sn rest] eqn:Hh.
    + apply Z.leb_le in E. simpl in E. lia.
    + exists rest. split; [reflexivity|]. right. by exists sn.
  - exists (simulation_history g). split; [reflexivity|]. by left.
Qed.

(** Saving the world and restoring the saved state rebuilds the entities
    and nothing more.  [save_state], in a world whose live entities exist,
    appends a state with the tick of the GUI, the phase of the clock and
    the data of the live entities in their order.  [restore_state] of that
    state, whatever the world has become since (of the same dimensions),
    returns and sets the tick of the GUI back; the live list then has one
    new object per saved entity, in the saved order, with the saved class,
    position and, for an animal, food, activity, hunger and speed, so that
    saving again gives the same data.  What the data does not hold is not
    restored: every object is as its constructor leaves it, without mark
    of a self-modification and, for a plant, without failed ticks, and
    every animal is alone in a new group.  The clock has the saved phase,
    and its counter restarts at the index of that phase in the cycle.  If
    the grid and the live list agreed when the state was saved, they agree
    in the rebuilt world. *)
Theorem rewind_round_trip (g : Gui) (s : St) (data : list EntityData) :
  all_data s (entities s) = Some data ->
  1 <= gui_max_ticks g ->
  0 <= width s -> 0 <= height s ->
  exists g1 sn,
    save_state g s = Done g1 s /\
    last (simulation_history g1) = Some sn /\
    sn = mkSnapshot (current_tick g) (current_time (time s)) data /\
    forall t,
      width t = width s -> height t = height s ->
      exists t',
        restore_state g1 (Z.of_nat (length (simulation_history g1)) - 1) t
        = Done (mkGui (current_tick g) (gui_max_ticks g) (simulation_history g1)) t' /\
        collect_entities t' = Done data t' /\
        length (entities t') = length (entities s) /\
        (forall i, i ∈ entities t' ->
           exists e, heap t' !! i = Some e /\ pristine e = true /\ alone t' i e) /\
        (str_in (current_time (time s)) cycle = true ->
         current_time (time t') = current_time (time s) /\
         tick_counter (time t') = index_of (current_time (time s)) cycle /\
         0 <= tick_counter (time t') < 4) /\
        (populated s -> populated t').
Proof.
  intros Hdata Hmax Hw Hh.
  destruct (save_state_spec g s data Hdata Hmax) as (kept & Hsave & _).
  set (sn := mkSnapshot (current_tick g) (current_time (time s)) data).
  exists (mkGui (current_tick g) (gui_max_ticks g) (kept ++ [sn])), sn.
  split; [exact Hsave|]. cbn [simulation_history].
  split; [apply last_snoc|]. split; [reflexivity|].
  intros t Hwt Hht.
  assert (Hidx : Z.to_nat (Z.of_nat (length (kept ++ [sn])) - 1) = length kept).
  { rewrite length_app. simpl. lia. }
  destruct (restore_state_spec (mkGui (current_tick g) (gui_max_ticks g) (kept ++ [sn]))
              (Z.of_nat (length (kept ++ [sn])) - 1) sn t)
    as (t' & Hrun & Hd & Hlive & Hwf & Hw' & Hh' & _ & Htime & Hpop).
  { rewrite length_app. simpl. lia. }
  { cbn [simulation_history]. rewrite Hidx. apply list_lookup_middle. reflexivity. }
  { lia. }
  { lia. }
  assert (Hres : restored <$> data = data).
  { assert (Hall : forall (l : list oid) dl, all_data s l = Some dl -> restored <$> dl = dl).
    { induction l as [|i l IH]; intros dl; cbn [all_data].
      - intros H. by inversion H.
      - unfold data_at. destruct (heap s !! i) as [e|]; [|discriminate].
        cbn [fmap option_fmap option_map].
        destruct (all_data s l) as [dl'|]; [|discriminate].
        intros H. inversion H; subst dl. cbn [fmap list_fmap].
        by rewrite restored_entity_data, (IH dl' eq_refl). }
    exact (Hall _ _ Hdata). }
  cbn [sn_entities sn_time sn_tick sn] in *. rewrite Hres in Hd.
  exists t'. split; [exact Hrun|].
  split; [by apply collect_entities_data|].
  split.
  { rewrite <- (all_data_length t' _ _ Hd). by apply (all_data_length s). }
  split; [exact Hlive|]. split.
  - intros Hc. rewrite Hc in Htime. rewrite Htime. cbn [current_time tick_counter].
    split; [reflexivity|]. split; [reflexivity|]. by apply index_of_cycle.
  - intros Hpops. apply Hpop.
    + rewrite (all_data_positions s _ _ Hdata). by apply populated_positions.
    + intros d Hd'. unfold is_valid_position. rewrite Hwt, Hht.
      apply (proj2 (populated_positions s Hpops)).
      rewrite <- (all_data_positions s _ _ Hdata).
      apply list_elem_of_fmap. by exists d.
Qed.

Lemma rewind_round_trip_witness :
  exists g1 t',
    save_state (mkGui 7 200 []) scenario = Done g1 scenario /\
    restore_state g1 (Z.of_nat (length (simulation_history g1)) - 1)
                  (World 5 1 40 scenario_rng)
    = Done (mkGui 7 200 (simulation_history g1)) t' /\
    length (entities t') = 3%nat /\
    current_time (time t') = "morning" /\
    populated t'.
Proof.
  destruct (populated_all_data scenario scenario_populated) as [data Hdata].
  assert (Hw : width scenario = 5) by (vm_compute; reflexivity).
  assert (Hh : height scenario = 1) by (vm_compute; reflexivity).
  destruct (rewind_round_trip (mkGui 7 200 []) scenario data Hdata)
    as (g1 & sn & Hsave & _ & _ & Hrestore).
  { cbn [gui_max_ticks]. lia. }
  { rewrite Hw. lia. }
  { rewrite Hh. lia. }
  destruct (Hrestore (World 5 1 40 scenario_rng))
    as (t' & Hrun & _ & Hlen & _ & Hclock & Hpop).
  { rewrite Hw. reflexivity. }
  { rewrite Hh. reflexivity. }
  exists g1, t'. split; [exact Hsave|]. split; [exact Hrun|].
  split; [rewrite Hlen; vm_compute; reflexivity|].
  split; [|exact (Hpop scenario_populated)].
  destruct Hclock as (Hc & _); [vm_compute; reflexivity|].
  rewrite Hc. vm_compute. reflexivity.
Defined.

(** ** Self-modification is one-way *)

Lemma mutation_kept_process_tick : always mutation_kept process_tick.
Proof.
  apply always_process_tick.
  - exact mutation_kept_refl.
  - exact mutation_kept_trans.
  - intros s v. by apply mutation_kept_same_heap.
  - intros s x y v. destruct (matrix_write_set x y v s) as (m & -> & _).
    by apply mutation_kept_same_heap.
  - intros s x. by apply mutation_kept_same_heap.
  - intros s v. by apply mutation_kept_same_heap.
  - exact mutation_kept_update.
  - intros s v. by apply mutation_kept_same_heap.
Qed.

Lemma mutation_kept_update_state i d : always mutation_kept (update_state i d).
Proof.
  apply always_update_state.
  - exact mutation_kept_refl.
  - exact mutation_kept_trans.
  - intros s v. by apply mutation_kept_same_heap.
  - intros s x y v. destruct (matrix_write_set x y v s) as (m & -> & _).
    by apply mutation_kept_same_heap.
  - intros s x. by apply mutation_kept_same_heap.
  - intros s v. by apply mutation_kept_same_heap.
  - exact mutation_kept_update.
Qed.

(** The check of the self-modification always returns; on an entity that
    carries the mark it changes nothing; it never takes a mark away, and
    running it a second time changes nothing more.  No update and no tick
    takes a mark, the replaced method of an instance or the class of an
    object away either, whether it returns or raises. *)
Theorem self_modification_one_way (s : St) (self : oid) (e : Entity) (day_time : string) :
  heap s !! self = Some e ->
  group_known s e ->
  exists s1,
    check_entity self day_time s = Done tt s1 /\
    (is_mutated e = true -> s1 = s) /\
    mutation_kept s s1 /\
    check_entity self day_time s1 = Done tt s1 /\
    (forall t i d, mutation_kept t (state_of (update_state i d t))) /\
    (forall t, mutation_kept t (state_of (process_tick t))).
Proof.
  intros Hheap Hg.
  destruct (check_entity_returns s self e day_time Hheap Hg) as (s1 & Hc & Hnoop & Hcase).
  exists s1. split; [exact Hc|]. split; [exact Hnoop|].
  split; [|split; [|split]].
  - destruct Hcase as [->|(e1 & -> & _ & Hle & _)].
    + apply mutation_kept_refl.
    + by apply (mutation_kept_update s self e e1).
  - destruct Hcase as [->|(e1 & Hs1 & Hm & _ & Hg1)]; [exact Hc|].
    assert (H1 : heap s1 !! self = Some e1).
    { rewrite Hs1. simpl. apply lookup_insert_eq. }
    destruct (check_entity_returns s1 self e1 day_time H1 Hg1) as (s2 & Hc2 & Hnoop2 & _).
    rewrite (Hnoop2 Hm) in Hc2. exact Hc2.
  - intros t i d. apply mutation_kept_update_state.
  - intros t. apply mutation_kept_process_tick.
Qed.

Lemma self_modification_one_way_witness :
  exists s1,
    check_entity 0%nat "morning" pack_world = Done tt s1 /\
    check_entity 0%nat "morning" s1 = Done tt s1 /\
    mutation_kept pack_world s1 /\
    mutation_kept s1 (state_of (process_tick s1)).
Proof.
  destruct (self_modification_one_way pack_world 0%nat
              (EAnimal (mkAnimal Malheureux (5, 5) 100 100 true false 0%nat
                                 false false false false)) "morning")
    as (s1 & Hc & _ & Hk & Hi & _ & Ht).
  - vm_compute. reflexivity.
  - exists [0; 1; 2; 3; 4; 5]%nat. vm_compute. reflexivity.
  - exists s1. split; [exact Hc|]. split; [exact Hi|]. split; [exact Hk | apply Ht].
Defined.
